(** * SUZI reminder server: shallow embedding and verification

    The repository ships two copies of the Express server (called
    variant 1 and variant 2 below, in the order in which they appear in
    the source).  They share the reminder evaluator (the [cron.schedule]
    callback), the account-linking endpoints and the LINE helpers, and
    differ in these places only:

    - [sendLine] and [reply] return at once when [LINE_TOKEN] is falsy
      (variant 2 only);
    - [verifySignature] returns [false] when [LINE_SECRET] is falsy
      (variant 2 only);
    - the body of the identity loop of the evaluator sits in a
      [try { ... } catch] (variant 1 only).

    Both variants are embedded by the same definitions, parameterised by
    a [Variant] read from the configuration.  Line numbers in the
    comments are those of the source listing, variant 1 first.

    Effects.  The server code is a sequence of awaited calls on shared
    mutable state: the in-memory [pendingLinks] map, the Firebase
    database (paths [reminders] and [line_links]) and the LINE HTTP API.
    It is embedded in a state-and-exception monad [M] over a [World];
    the outcome of every network or database call is read from an
    [Oracle], so that every failure the code can meet is a possible
    run of the model. *)

From stdpp Require Import gmap strings list fin_maps pretty.
From Stdlib Require Import ZArith Lia Ascii String.

Open Scope Z_scope.

(* ================================================================== *)
(** * JavaScript strings *)
(* ================================================================== *)

(** Strings are byte strings holding the UTF-8 encoding of a text of
    Unicode characters.  Comparison, search and replacement of a text
    of ASCII work byte by byte on the encoding.  White space is that of
    [String.prototype.trim], whatever the length of its encoding.
    [toUpperCase] is exact on ASCII and on every character whose upper
    case holds a character of ASCII; any other character, whose upper
    case has no byte in common with ASCII, is left as it is: the source
    compares the upper case with a text of ASCII and does nothing else
    with it. *)
Module Js.

Local Open Scope nat_scope.

Definition nl : string := String (ascii_of_nat 10) EmptyString.

(** The string of the bytes [l]. *)
Definition bytes (l : list nat) : string :=
  fold_right (fun n s => String (ascii_of_nat n) s) EmptyString l.

(** The byte [c] has the value [n]. *)
Definition byteIs (n : nat) (c : ascii) : bool := nat_of_ascii c =? n.

(** The white space and line terminators that [String.prototype.trim]
    removes, by the length of their encoding.  In one byte: U+0009 to
    U+000D and U+0020. *)
Definition isSpace (c : ascii) : bool :=
  let n := nat_of_ascii c in
  ((9 <=? n) && (n <=? 13)) || (n =? 32).

(** In two bytes: U+00A0 (C2 A0). *)
Definition isSpace2 (c1 c2 : ascii) : bool := byteIs 194 c1 && byteIs 160 c2.

(** In three bytes: U+1680 (E1 9A 80), U+2000 to U+200A (E2 80 80 to
    E2 80 8A), U+2028 and U+2029 (E2 80 A8, E2 80 A9), U+202F (E2 80 AF),
    U+205F (E2 81 9F), U+3000 (E3 80 80) and U+FEFF (EF BB BF). *)
Definition isSpace3 (c1 c2 c3 : ascii) : bool :=
  let n3 := nat_of_ascii c3 in
  (byteIs 225 c1 && byteIs 154 c2 && byteIs 128 c3)
  || (byteIs 226 c1 && byteIs 128 c2
      && (((128 <=? n3) && (n3 <=? 138))
          || byteIs 168 c3 || byteIs 169 c3 || byteIs 175 c3))
  || (byteIs 226 c1 && byteIs 129 c2 && byteIs 159 c3)
  || (byteIs 227 c1 && byteIs 128 c2 && byteIs 128 c3)
  || (byteIs 239 c1 && byteIs 187 c2 && byteIs 191 c3).

(** [s.trimStart()] *)
Fixpoint trimStart (s : string) : string :=
  match s with
  | EmptyString => EmptyString
  | String c1 s1 =>
      if isSpace c1 then trimStart s1
      else match s1 with
           | EmptyString => s
           | String c2 s2 =>
               if isSpace2 c1 c2 then trimStart s2
               else match s2 with
                    | EmptyString => s
                    | String c3 s3 => if isSpace3 c1 c2 c3 then trimStart s3 else s
                    end
           end
  end.

(** The text is white space from end to end. *)
Definition allWhite (s : string) : bool :=
  match trimStart s with EmptyString => true | String _ _ => false end.

(** [s.trimEnd()]: the text up to the point from which all is white
    space. *)
Fixpoint trimEnd (s : string) : string :=
  match s with
  | EmptyString => EmptyString
  | String c s' => if allWhite s then EmptyString else String c (trimEnd s')
  end.

(** [s.trim()] *)
Definition trim (s : string) : string := trimEnd (trimStart s).

(** Upper case of a character of ASCII; other bytes are left. *)
Definition upper (c : ascii) : ascii :=
  let n := nat_of_ascii c in
  if (97 <=? n) && (n <=? 122)
  then ascii_of_nat (n - 32) else c.

(** The characters outside ASCII whose upper case holds a character of
    ASCII, by their encoding, with the encoding of their upper case.
    In two bytes: U+00DF (SS), U+0131 (I), U+0149 (U+02BC N), U+017F (S)
    and U+01F0 (J U+030C). *)
Definition upperTable2 : list (nat * nat * string) :=
  [ (195, 159, "SS");
    (196, 177, "I");
    (197, 137, bytes [202; 188; 78]);
    (197, 191, "S");
    (199, 176, bytes [74; 204; 140]) ].

(** In three bytes: U+1E96 (H U+0331), U+1E97 (T U+0308), U+1E98
    (W U+030A), U+1E99 (Y U+030A), U+1E9A (A U+02BE), and the ligatures
    U+FB00 to U+FB06 (FF, FI, FL, FFI, FFL, ST, ST). *)
Definition upperTable3 : list (nat * nat * nat * string) :=
  [ (225, 186, 150, bytes [72; 204; 177]);
    (225, 186, 151, bytes [84; 204; 136]);
    (225, 186, 152, bytes [87; 204; 138]);
    (225, 186, 153, bytes [89; 204; 138]);
    (225, 186, 154, bytes [65; 202; 190]);
    (239, 172, 128, "FF");
    (239, 172, 129, "FI");
    (239, 172, 130, "FL");
    (239, 172, 131, "FFI");
    (239, 172, 132, "FFL");
    (239, 172, 133, "ST");
    (239, 172, 134, "ST") ].

Definition upper2 (c1 c2 : ascii) : option string :=
  match List.find (fun x => byteIs x.1.1 c1 && byteIs x.1.2 c2) upperTable2 with
  | Some x => Some x.2
  | None => None
  end.

Definition upper3 (c1 c2 c3 : ascii) : option string :=
  match List.find (fun x => byteIs x.1.1.1 c1 && byteIs x.1.1.2 c2 && byteIs x.1.2 c3)
                  upperTable3 with
  | Some x => Some x.2
  | None => None
  end.

(** [s.toUpperCase()] *)
Fixpoint toUpperCase (s : string) : string :=
  match s with
  | EmptyString => EmptyString
  | String c1 s1 =>
      match s1 with
      | EmptyString => String (upper c1) EmptyString
      | String c2 s2 =>
          match upper2 c1 c2 with
          | Some u => u +:+ toUpperCase s2
          | None =>
              match s2 with
              | EmptyString => String (upper c1) (toUpperCase s1)
              | String c3 s3 =>
                  match upper3 c1 c2 c3 with
                  | Some u => u +:+ toUpperCase s3
                  | None => String (upper c1) (toUpperCase s1)
                  end
              end
          end
      end
  end.

(** What the [i] flag of a regular expression without the [u] flag
    compares: a character of ASCII by its upper case, and any other
    character by itself (its upper case is not taken when that is a
    character of ASCII). *)
Fixpoint foldCase (s : string) : string :=
  match s with
  | String c s' => String (upper c) (foldCase s')
  | EmptyString => EmptyString
  end.

(** [s.startsWith(p)] *)
Definition startsWith (s p : string) : bool := String.prefix p s.

Fixpoint drop (n : nat) (s : string) : string :=
  match n, s with
  | O, _ => s
  | S n', String _ s' => drop n' s'
  | S _, EmptyString => EmptyString
  end.

(** [s.replace(/p/i, e)] with [e] the empty string, for a pattern [p]
    of upper-case ASCII letters and spaces: the first (leftmost)
    case-insensitive occurrence of [p] is removed. *)
Fixpoint removeFirstCI (p s : string) : string :=
  if startsWith (foldCase s) p then drop (String.length p) s
  else match s with
       | String c s' => String c (removeFirstCI p s')
       | EmptyString => EmptyString
       end.

(** [s.replace(/\./g, "_")] *)
Fixpoint replaceDots (s : string) : string :=
  match s with
  | String c s' =>
      String (if Ascii.eqb c "."%char then "_"%char else c) (replaceDots s')
  | EmptyString => EmptyString
  end.

(** Truthiness of a value that is either [undefined] or a string. *)
Definition truthy (o : option string) : bool :=
  match o with
  | Some s => negb (String.eqb s EmptyString)
  | None => false
  end.

End Js.

(* ================================================================== *)
(** * JavaScript dates *)
(* ================================================================== *)

(** A [Date] holds a time value: a whole number of milliseconds since the
    epoch, or NaN for an invalid date.  [None] stands for NaN.  Every
    comparison with NaN is false.  Time values are far below 2^53, so
    the double arithmetic of the source is exact on them and [Z] models
    it.

    The host's local time zone enters the code in three places:
    [new Date(string)] for a string without zone designator,
    [setHours], and nowhere else.  The host zone is modelled by its
    offset from UTC in milliseconds (east positive); zones with daylight
    saving changes are outside the model. *)
Module JsDate.

Definition Date : Type := option Z.

Definition msPerSecond : Z := 1000.
Definition msPerHour : Z := 60 * 60 * 1000.
Definition msPerDay : Z := 24 * msPerHour.

(** Offset of the zone [Asia/Tokyo] (no daylight saving time). *)
Definition tokyoOffset : Z := 9 * msPerHour.

(** What a reminder's [timeISO] string denotes.  An ISO string with [Z]
    or a numeric offset names an instant; a date-time string without
    zone designator names a civil time, read in the host zone by
    [new Date]; anything else gives an invalid date. *)
Inductive TimeISO : Type :=
| Instant (t : Z)
| CivilTime (c : Z)
| Malformed.

(** [new Date(r.timeISO)] on a host at offset [off]. *)
Definition parseTimeISO (off : Z) (s : TimeISO) : Date :=
  match s with
  | Instant t => Some t
  | CivilTime c => Some (c - off)
  | Malformed => None
  end.

(** The civil time, in milliseconds since the civil epoch, printed by
    [new Date().toLocaleString("en-US", { timeZone: "Asia/Tokyo" })] at
    the instant [t]: the string has a resolution of one second. *)
Definition toLocaleStringTokyo (t : Z) : Z :=
  (t + tokyoOffset) / msPerSecond * msPerSecond.

(** [new Date(str)] for the string printed above: it has no zone
    designator and is read as civil time of the host. *)
Definition parseLocaleString (off : Z) (civil : Z) : Date :=
  Some (civil - off).

(** [new Date(new Date().toLocaleString("en-US", {timeZone: "Asia/Tokyo"}))] *)
Definition tokyoNow (off : Z) (t : Z) : Date :=
  parseLocaleString off (toLocaleStringTokyo t).

(** Civil time of the host at a time value: what [getHours] and the
    like read. *)
Definition localTime (off : Z) (t : Z) : Z := t + off.

(** [d.setHours(8, 0, 0, 0)]: same civil day of the host, 08:00:00.000. *)
Definition setHours8 (off : Z) (d : Date) : Date :=
  match d with
  | Some t => Some (localTime off t / msPerDay * msPerDay + 8 * msPerHour - off)
  | None => None
  end.

(** [new Date(d.getTime() - ms)] *)
Definition minusMs (d : Date) (ms : Z) : Date :=
  match d with
  | Some t => Some (t - ms)
  | None => None
  end.

(** [a - b] on dates: a number, NaN when either is invalid. *)
Definition diff (a b : Date) : option Z :=
  match a, b with
  | Some x, Some y => Some (x - y)
  | _, _ => None
  end.

(** [a >= b] on dates *)
Definition geDate (a b : Date) : bool :=
  match a, b with
  | Some x, Some y => y <=? x
  | _, _ => false
  end.

(** [x >= n] and [x < n] for a number [x] that may be NaN *)
Definition geNum (x : option Z) (n : Z) : bool :=
  match x with Some v => n <=? v | None => false end.

Definition ltNum (x : option Z) (n : Z) : bool :=
  match x with Some v => v <? n | None => false end.

End JsDate.

Export JsDate.

(* ================================================================== *)
(** * Data model *)
(* ================================================================== *)

Inductive Variant : Type := Variant1 | Variant2.

(** Process configuration: the environment variables the core reads and
    the host's time zone offset. *)
Record Config : Type := {
  variant : Variant;
  LINE_TOKEN : option string;
  LINE_SECRET : option string;
  hostOffset : Z
}.

(** Value of [pendingLinks]: [{ email, expires }] *)
Record PendingLink : Type := {
  email : string;
  expires : Z
}.

(** Value stored at [line_links/{safeEmail}] *)
Record LinkRecord : Type := {
  lineUserId : string;
  linkedAt : Z
}.

(** Value stored at [reminders/{safeEmail}/{id}].  The boolean fields
    hold the truthiness of the stored value (a missing flag is falsy). *)
Record Reminder : Type := {
  text : string;
  timeISO : TimeISO;
  morning : bool;
  oneHour : bool;
  morningSent : bool;
  oneHourSent : bool;
  exactSent : bool
}.

(** The three notifications of a reminder. *)
Inductive Kind : Type := Morning | OneHour | Exact.

#[global] Instance Kind_eq_dec : EqDecision Kind.
Proof. solve_decision. Defined.

(** The object read from [reminders]: identities in key order, each with
    its reminders in key order. *)
Definition ReminderTable : Type := list (string * list (string * Reminder)).

(** Requests handed to [fetch] for the LINE API. *)
Inductive Outbound : Type :=
| PushReq (to : string) (msg : string)
| ReplyReq (replyToken : string) (msg : string).

(** What [fetch] does with a request: it rejects, or resolves to a
    response with the given [ok]; [readable] tells whether [res.text()]
    resolves. *)
Inductive FetchOutcome : Type :=
| NetworkError
| Response (ok : bool) (readable : bool).

(** Database operations of the core. *)
Inductive DbOp : Type :=
| GetReminders
| GetLink (safeEmail : string)
| SetFlag (safeEmail id : string) (k : Kind)
| SetLink (safeEmail : string).

(** Outcome of the [n]-th input/output operation of a run. *)
Record Oracle : Type := {
  fetchOutcome : nat -> Outbound -> FetchOutcome;
  dbOk : nat -> DbOp -> bool
}.

Inductive Exn : Type :=
| TypeError
| FetchError (req : Outbound)
| BodyError
| DbError (op : DbOp).

Inductive LogLine : Type :=
| LogCronStarted
| LogLineApiError
| LogPushError (e : Exn)
| LogProcessingError (safeEmail : string) (e : Exn).

(** Ghost record of a call of [sendLine] by the evaluator: which
    reminder and notification it was for. *)
Record Firing : Type := {
  f_email : string;
  f_id : string;
  f_kind : Kind;
  f_to : string;
  f_msg : string
}.

Record World : Type := {
  pendingLinks : gmap string PendingLink;
  reminders : ReminderTable;
  line_links : gmap string LinkRecord;
  outbox : list Outbound;
  console : list LogLine;
  fired : list Firing;
  ioSeq : nat
}.

Definition with_pendingLinks (f : gmap string PendingLink -> gmap string PendingLink)
  (w : World) : World :=
  {| pendingLinks := f (pendingLinks w); reminders := reminders w;
     line_links := line_links w; outbox := outbox w; console := console w;
     fired := fired w; ioSeq := ioSeq w |}.

Definition with_reminders (f : ReminderTable -> ReminderTable) (w : World) : World :=
  {| pendingLinks := pendingLinks w; reminders := f (reminders w);
     line_links := line_links w; outbox := outbox w; console := console w;
     fired := fired w; ioSeq := ioSeq w |}.

Definition with_line_links (f : gmap string LinkRecord -> gmap string LinkRecord)
  (w : World) : World :=
  {| pendingLinks := pendingLinks w; reminders := reminders w;
     line_links := f (line_links w); outbox := outbox w; console := console w;
     fired := fired w; ioSeq := ioSeq w |}.

Definition with_outbox (f : list Outbound -> list Outbound) (w : World) : World :=
  {| pendingLinks := pendingLinks w; reminders := reminders w;
     line_links := line_links w; outbox := f (outbox w); console := console w;
     fired := fired w; ioSeq := ioSeq w |}.

Definition with_console (f : list LogLine -> list LogLine) (w : World) : World :=
  {| pendingLinks := pendingLinks w; reminders := reminders w;
     line_links := line_links w; outbox := outbox w; console := f (console w);
     fired := fired w; ioSeq := ioSeq w |}.

Definition with_fired (f : list Firing -> list Firing) (w : World) : World :=
  {| pendingLinks := pendingLinks w; reminders := reminders w;
     line_links := line_links w; outbox := outbox w; console := console w;
     fired := f (fired w); ioSeq := ioSeq w |}.

Definition next_io (w : World) : World :=
  {| pendingLinks := pendingLinks w; reminders := reminders w;
     line_links := line_links w; outbox := outbox w; console := console w;
     fired := fired w; ioSeq := S (ioSeq w) |}.

(* ================================================================== *)
(** * The monad of server code *)
(* ================================================================== *)

Inductive Res (A : Type) : Type :=
| Ret (a : A)
| Throw (e : Exn).
Arguments Ret {A} a.
Arguments Throw {A} e.

Definition M (A : Type) : Type := World -> Res A * World.

Definition ret {A} (a : A) : M A := fun w => (Ret a, w).

Definition throw {A} (e : Exn) : M A := fun w => (Throw e, w).

Definition bind {A B} (m : M A) (k : A -> M B) : M B :=
  fun w => match m w with
           | (Ret a, w') => k a w'
           | (Throw e, w') => (Throw e, w')
           end.

#[global] Instance M_ret : MRet M := @ret.
#[global] Instance M_bind : MBind M := fun A B k m => bind m k.

(** [try { m } catch (err) { h err }] *)
Definition tryCatch {A} (m : M A) (h : Exn -> M A) : M A :=
  fun w => match m w with
           | (Ret a, w') => (Ret a, w')
           | (Throw e, w') => h e w'
           end.

Definition gets {A} (f : World -> A) : M A := fun w => (Ret (f w), w).

Definition modify (f : World -> World) : M unit := fun w => (Ret tt, f w).

(** [for (const x of l) { body x }]; [continue] is the end of the body. *)
Fixpoint forEach {A} (l : list A) (body : A -> M unit) : M unit :=
  match l with
  | [] => ret tt
  | x :: l' => bind (body x) (fun _ => forEach l' body)
  end.

Definition log (l : LogLine) : M unit :=
  modify (with_console (fun c => c ++ [l])).

(** [await fetch(url, ...)]: the request leaves, the oracle answers. *)
Definition fetch (o : Oracle) (req : Outbound) : M (bool * bool) :=
  fun w =>
    let w' := next_io (with_outbox (fun q => q ++ [req]) w) in
    match fetchOutcome o (ioSeq w) req with
    | NetworkError => (Throw (FetchError req), w')
    | Response ok readable => (Ret (ok, readable), w')
    end.

(** A database call: it rejects when the oracle says so, and has no
    effect then. *)
Definition dbCall {A} (o : Oracle) (op : DbOp) (run : M A) : M A :=
  fun w =>
    if dbOk o (ioSeq w) op then run (next_io w)
    else (Throw (DbError op), next_io w).

(* ================================================================== *)
(** * LINE helpers *)
(* ================================================================== *)

Definition isVariant2 (cfg : Config) : bool :=
  match variant cfg with Variant2 => true | Variant1 => false end.

(** [if (!LINE_TOKEN) return;], present in variant 2 only. *)
Definition tokenGuard (cfg : Config) : bool :=
  isVariant2 cfg && negb (Js.truthy (LINE_TOKEN cfg)).

(** [async function sendLine(lineUserId, text)] (lines 106-121 and
    327-349): everything after the guard sits in a [try]. *)
Definition sendLine (cfg : Config) (o : Oracle) (lineUserId text : string) : M unit :=
  if tokenGuard cfg then ret tt
  else
    tryCatch
      ('(ok, readable) ← fetch o (PushReq lineUserId text);
       if negb ok
       then (if (readable : bool) then log LogLineApiError else throw BodyError)
       else ret tt)
      (fun err => log (LogPushError err)).

(** [async function reply(replyToken, text)] (lines 123-132 and
    351-365): the awaited [fetch] is not in a [try], and the response is
    not looked at. *)
Definition reply (cfg : Config) (o : Oracle) (replyToken text : string) : M unit :=
  if tokenGuard cfg then ret tt
  else fetch o (ReplyReq replyToken text);; ret tt.

(* ================================================================== *)
(** * Signature check *)
(* ================================================================== *)

(** The part of an Express request the webhook reads.  [rawBody] is set
    by the JSON body parser and is missing when no body was parsed;
    [events] is [req.body.events]. *)
Record Message : Type := {
  m_type : string;
  m_text : string
}.

(** A LINE webhook event.  [message] is present on message events;
    [e_userId] is [event.source.userId] and [e_replyToken] is
    [event.replyToken], which the platform sets on every message event. *)
Record Event : Type := {
  e_type : string;
  e_message : option Message;
  e_userId : string;
  e_replyToken : string
}.

Record WebhookRequest : Type := {
  x_line_signature : option string;
  rawBody : option string;
  events : option (list Event)
}.

Section Crypto.

(** [crypto.createHmac("sha256", key).update(body).digest("base64")] *)
Variable hmacSha256Base64 : string -> string -> string.

(** [function verifySignature(req)] (lines 134-138 and 367-375).
    [createHmac] throws on a key that is [undefined], and [update] on
    data that is [undefined]; the empty string is a key like any other. *)
Definition verifySignature (cfg : Config) (req : WebhookRequest) : Res bool :=
  if isVariant2 cfg && negb (Js.truthy (LINE_SECRET cfg)) then Ret false
  else
    match LINE_SECRET cfg with
    | None => Throw TypeError
    | Some secret =>
        match rawBody req with
        | None => Throw TypeError
        | Some body =>
            let hash := hmacSha256Base64 secret body in
            match x_line_signature req with
            | Some signature => Ret (String.eqb hash signature)
            | None => Ret false
            end
        end
    end.

End Crypto.

(* ================================================================== *)
(** * Database calls *)
(* ================================================================== *)

Definition setSent (k : Kind) (r : Reminder) : Reminder :=
  {| text := text r; timeISO := timeISO r;
     morning := morning r; oneHour := oneHour r;
     morningSent := match k with Morning => true | _ => morningSent r end;
     oneHourSent := match k with OneHour => true | _ => oneHourSent r end;
     exactSent := match k with Exact => true | _ => exactSent r end |}.

(** Writing [true] at [reminders/{safeEmail}/{id}/{k}Sent].  The evaluator
    writes only at paths it has just read from the same table, so the
    path exists. *)
Definition setFlagAt (safeEmail id : string) (k : Kind) (tbl : ReminderTable)
  : ReminderTable :=
  map (fun '(e, rs) =>
         if String.eqb e safeEmail
         then (e, map (fun '(i, r) =>
                         if String.eqb i id then (i, setSent k r) else (i, r)) rs)
         else (e, rs)) tbl.

(** [await db.ref("reminders").get()] followed by [snapshot.val()] *)
Definition dbGetReminders (o : Oracle) : M ReminderTable :=
  dbCall o GetReminders (gets reminders).

(** [await db.ref(`line_links/${safeEmail}`).get()] *)
Definition dbGetLink (o : Oracle) (safeEmail : string) : M (option LinkRecord) :=
  dbCall o (GetLink safeEmail) (gets (fun w => line_links w !! safeEmail)).

(** [await db.ref(`reminders/${safeEmail}/${id}/...Sent`).set(true)] *)
Definition dbSetFlag (o : Oracle) (safeEmail id : string) (k : Kind) : M unit :=
  dbCall o (SetFlag safeEmail id k)
    (modify (with_reminders (setFlagAt safeEmail id k))).

(** [await db.ref(`line_links/${safeEmail}`).set({ lineUserId, linkedAt })] *)
Definition dbSetLink (o : Oracle) (safeEmail : string) (rec : LinkRecord) : M unit :=
  dbCall o (SetLink safeEmail)
    (modify (with_line_links (fun m => <[safeEmail := rec]> m))).

(* ================================================================== *)
(** * The reminder evaluator (cron callback) *)
(* ================================================================== *)

Definition morningMsg (t : string) : string := "🌅 今日の予定:" +:+ Js.nl +:+ t.
Definition oneHourMsg (t : string) : string := "⏰ 1時間前です:" +:+ Js.nl +:+ t.
Definition exactMsg (t : string) : string := "🔔 時間になりました:" +:+ Js.nl +:+ t.

(** The cleanup loop over [pendingLinks]: entries with
    [Date.now() > record.expires] are deleted. *)
Definition sweepExpired (dateNow : Z) (pl : gmap string PendingLink)
  : gmap string PendingLink :=
  filter (fun kv : string * PendingLink => ¬ (expires kv.2 < dateNow)) pl.

(** A call of [sendLine] from the evaluator, with its ghost record. *)
Definition notify (cfg : Config) (o : Oracle) (safeEmail id : string) (k : Kind)
  (to msg : string) : M unit :=
  modify (with_fired (fun l => l ++ [{| f_email := safeEmail; f_id := id;
                                        f_kind := k; f_to := to; f_msg := msg |}]));;
  sendLine cfg o to msg.

(** Body of the loop over the reminders of one identity (lines 166-193
    and 492-516). *)
Definition evalReminder (cfg : Config) (o : Oracle) (now : Date)
  (safeEmail to id : string) (r : Reminder) : M unit :=
  let eventTime := parseTimeISO (hostOffset cfg) (timeISO r) in
  let d := diff now eventTime in
  (if morning r && negb (morningSent r) then
     let m := setHours8 (hostOffset cfg) eventTime in
     if geDate now m then
       notify cfg o safeEmail id Morning to (morningMsg (text r));;
       dbSetFlag o safeEmail id Morning
     else ret tt
   else ret tt);;
  (if oneHour r && negb (oneHourSent r) then
     let h := minusMs eventTime (60 * 60 * 1000) in
     if geDate now h then
       notify cfg o safeEmail id OneHour to (oneHourMsg (text r));;
       dbSetFlag o safeEmail id OneHour
     else ret tt
   else ret tt);;
  (if negb (exactSent r) && geNum d 0 && ltNum d (10 * 60 * 1000) then
     notify cfg o safeEmail id Exact to (exactMsg (text r));;
     dbSetFlag o safeEmail id Exact
   else ret tt).

(** Body of the loop over the identities (lines 159-194 and 485-517),
    without the [try] of variant 1. *)
Definition evalIdentity (cfg : Config) (o : Oracle) (now : Date)
  (safeEmail : string) (rems : list (string * Reminder)) : M unit :=
  linkSnap ← dbGetLink o safeEmail;
  match linkSnap with
  | None => ret tt
  | Some link =>
      forEach rems (fun '(id, r) => evalReminder cfg o now safeEmail (lineUserId link) id r)
  end.

(** Body of the loop over the identities: variant 1 wraps it in
    [try { ... } catch (err) { console.error(...) }] (lines 158 and
    195-197), variant 2 does not. *)
Definition identityStep (cfg : Config) (o : Oracle) (now : Date)
  (entry : string * list (string * Reminder)) : M unit :=
  match variant cfg with
  | Variant1 =>
      tryCatch (evalIdentity cfg o now entry.1 entry.2)
               (fun err => log (LogProcessingError entry.1 err))
  | Variant2 => evalIdentity cfg o now entry.1 entry.2
  end.

(** The callback of [cron.schedule("* * * * *", ...)] (lines 143-199 and
    467-519), run at the instant [t] (the value of [Date.now()] and of
    [new Date()]). *)
Definition cronTick (cfg : Config) (o : Oracle) (t : Z) : M unit :=
  log LogCronStarted;;
  modify (with_pendingLinks (sweepExpired t));;
  let now := tokyoNow (hostOffset cfg) t in
  remindersByUser ← dbGetReminders o;
  match remindersByUser with
  | [] => ret tt
  | _ => forEach remindersByUser (identityStep cfg o now)
  end.

(** The scheduler runs the callback once per minute; a rejected run does
    not prevent the next one. *)
Fixpoint runTicks (cfg : Config) (o : Oracle) (ts : list Z) (w : World) : World :=
  match ts with
  | [] => w
  | t :: ts' => runTicks cfg o ts' (cronTick cfg o t w).2
  end.

(* ================================================================== *)
(** * Routes *)
(* ================================================================== *)

Inductive HttpReply : Type :=
| SendStatus (code : nat)
| JsonError (code : nat)
| JsonCode (code : string).

(** [POST /api/request-line-token] (lines 205-211 and 380-391).
    [reqEmail] is [req.body.email];
    [draw] is the value of [Math.floor(100000 + Math.random() * 900000)],
    a whole number from 100000 to 999999; [dateNow] is [Date.now()]. *)
Definition requestLineToken (reqEmail : option string) (draw : Z) (dateNow : Z)
  : M HttpReply :=
  match reqEmail with
  | Some em =>
      if Js.truthy reqEmail then
        let code : string := pretty draw in
        modify (with_pendingLinks (fun m =>
          <[code := {| email := em; expires := dateNow + 5 * 60 * 1000 |}]> m));;
        ret (JsonCode code)
      else ret (JsonError 400)
  | None => ret (JsonError 400)
  end.

Definition linkedMsg (em : string) : string :=
  "✅ 連携完了しました！" +:+ Js.nl +:+ "登録メール: " +:+ em.
Definition invalidMsg : string := "❌ 無効または期限切れのコードです。".

(** [record && Date.now() < record.expires] for
    [record = pendingLinks.get(code)] *)
Definition validRecord (pl : gmap string PendingLink) (code : string) (dateNow : Z)
  : option PendingLink :=
  match pl !! code with
  | Some record => if dateNow <? expires record then Some record else None
  | None => None
  end.

(** The code carried by a message text, when the text, trimmed, starts
    with [LINK ] in any case. *)
Definition linkCode (msgText : string) : option string :=
  let t := Js.trim msgText in
  if Js.startsWith (Js.toUpperCase t) "LINK "
  then Some (Js.trim (Js.removeFirstCI "LINK " t))
  else None.

(** The [if (text.toUpperCase().startsWith("LINK "))] block of the
    webhook. *)
Definition redeem (cfg : Config) (o : Oracle) (dateNow : Z)
  (userId replyToken code : string) : M unit :=
  pl ← gets pendingLinks;
  match validRecord pl code dateNow with
  | Some record =>
      let safeEmail := Js.replaceDots (email record) in
      dbSetLink o safeEmail {| lineUserId := userId; linkedAt := dateNow |};;
      modify (with_pendingLinks (fun m => delete code m));;
      reply cfg o replyToken (linkedMsg (email record))
  | None => reply cfg o replyToken invalidMsg
  end.

Section Routes.

Variable hmacSha256Base64 : string -> string -> string.

(** [POST /line/webhook] (lines 214-240 and 393-429), handled at
    [Date.now() = dateNow]. *)
Definition webhook (cfg : Config) (o : Oracle) (dateNow : Z) (req : WebhookRequest)
  : M HttpReply :=
  match verifySignature hmacSha256Base64 cfg req with
  | Throw e => throw e
  | Ret false => ret (SendStatus 401)
  | Ret true =>
      match events req ≫= head with
      | None => ret (SendStatus 200)
      | Some event =>
          if negb (String.eqb (e_type event) "message") then ret (SendStatus 200)
          else
            match e_message event with
            | None => throw TypeError
            | Some message =>
                if negb (String.eqb (m_type message) "text") then ret (SendStatus 200)
                else
                  match linkCode (m_text message) with
                  | Some code =>
                      redeem cfg o dateNow (e_userId event) (e_replyToken event) code;;
                      ret (SendStatus 200)
                  | None => ret (SendStatus 200)
                  end
            end
      end
  end.

End Routes.

(* ================================================================== *)
(** * Vocabulary of the statements *)
(* ================================================================== *)

(** Weakest precondition of a computation: [Q] for a normal return,
    [E] for a thrown exception. *)
Definition wp {A} (m : M A) (w : World)
  (Q : A -> World -> Prop) (E : Exn -> World -> Prop) : Prop :=
  match m w with
  | (Ret a, w') => Q a w'
  | (Throw e, w') => E e w'
  end.

(** The computation returns normally. *)
Definition returns {A} (m : M A) (w : World) : Prop :=
  wp m w (fun _ _ => True) (fun _ _ => False).

(** Every database call of the run succeeds. *)
Definition dbAllOk (o : Oracle) : Prop := forall n op, dbOk o n op = true.

(** The database calls that concern identity [e]: the read of the whole
    table, the read of its link and the writes of its flags. *)
Definition touches (e : string) (op : DbOp) : bool :=
  match op with
  | GetReminders => true
  | GetLink e' => String.eqb e' e
  | SetFlag e' _ _ => String.eqb e' e
  | SetLink _ => false
  end.

(** The database calls that concern [e] succeed; others may fail. *)
Definition dbOkFor (o : Oracle) (e : string) : Prop :=
  forall n op, touches e op = true -> dbOk o n op = true.

Definition dbFails (o : Oracle) : Prop := exists n op, dbOk o n op = false.

(** What a tick needs to reach the reminders of [e] and record their
    flags: the calls for [e] succeed and, without the [try] of variant 1,
    so do the calls for every other identity. *)
Definition tickOk (cfg : Config) (o : Oracle) (e : string) : Prop :=
  dbOkFor o e /\ (variant cfg = Variant2 -> dbAllOk o).

Definition sentFlag (k : Kind) (r : Reminder) : bool :=
  match k with
  | Morning => morningSent r
  | OneHour => oneHourSent r
  | Exact => exactSent r
  end.

(** The feature flag that selects a notification; the exact one has none. *)
Definition enabled (k : Kind) (r : Reminder) : bool :=
  match k with
  | Morning => morning r
  | OneHour => oneHour r
  | Exact => true
  end.

(** The time test of each notification, as [evalReminder] writes it. *)
Definition due (cfg : Config) (k : Kind) (now : Date) (r : Reminder) : bool :=
  let eventTime := parseTimeISO (hostOffset cfg) (timeISO r) in
  match k with
  | Morning => geDate now (setHours8 (hostOffset cfg) eventTime)
  | OneHour => geDate now (minusMs eventTime (60 * 60 * 1000))
  | Exact => geNum (diff now eventTime) 0 && ltNum (diff now eventTime) (10 * 60 * 1000)
  end.

Definition triggers (cfg : Config) (k : Kind) (now : Date) (r : Reminder) : bool :=
  enabled k r && negb (sentFlag k r) && due cfg k now r.

Definition kindMsg (k : Kind) (t : string) : string :=
  match k with
  | Morning => morningMsg t
  | OneHour => oneHourMsg t
  | Exact => exactMsg t
  end.

(** One of the three [if] blocks of [evalReminder], in uniform shape. *)
Definition fireBlock (cfg : Config) (o : Oracle) (now : Date)
  (safeEmail to id : string) (r : Reminder) (k : Kind) : M unit :=
  if triggers cfg k now r
  then notify cfg o safeEmail id k to (kindMsg k (text r));; dbSetFlag o safeEmail id k
  else ret tt.

(** A firing is for the notification [k] of reminder [id] of [e]. *)
Definition firingFor (e id : string) (k : Kind) (f : Firing) : bool :=
  String.eqb (f_email f) e && String.eqb (f_id f) id && bool_decide (f_kind f = k).

(** How many times [sendLine] was called for notification [k] of
    reminder [id] of [e]. *)
Fixpoint sentCount (e id : string) (k : Kind) (l : list Firing) : nat :=
  match l with
  | [] => O
  | f :: l' => ((if firingFor e id k f then 1 else 0) + sentCount e id k l')%nat
  end.

Definition pushOf (f : Firing) : Outbound := PushReq (f_to f) (f_msg f).

(** Only the sent flags differ, and only upwards. *)
Definition raised (r r' : Reminder) : Prop :=
  text r' = text r /\ timeISO r' = timeISO r /\
  morning r' = morning r /\ oneHour r' = oneHour r /\
  forall k, sentFlag k r = true -> sentFlag k r' = true.

Definition remsRaised (rs rs' : list (string * Reminder)) : Prop :=
  Forall2 (fun x y => x.1 = y.1 /\ raised x.2 y.2) rs rs'.

Definition tableRaised (t t' : ReminderTable) : Prop :=
  Forall2 (fun x y => x.1 = y.1 /\ remsRaised x.2 y.2) t t'.

(** Every record at [reminders/{e}/{id}] has the flag of [k] set. *)
Definition sentAll (t : ReminderTable) (e id : string) (k : Kind) : Prop :=
  forall rs r, In (e, rs) t -> In (id, r) rs -> sentFlag k r = true.

(** What a run of the evaluator may change: sent flags go up, links stay,
    and the requests handed to [fetch] are the pushes of the firings. *)
Definition evolves (cfg : Config) (w w' : World) : Prop :=
  tableRaised (reminders w) (reminders w') /\
  line_links w' = line_links w /\
  exists fs, fired w' = fired w ++ fs /\
             outbox w' = outbox w ++ (if tokenGuard cfg then [] else map pushOf fs).

(** Keys of a JavaScript object are distinct. *)
Definition wellKeyed (t : ReminderTable) : Prop :=
  NoDup (map fst t) /\ forall e rs, In (e, rs) t -> NoDup (map fst rs).

(** Number of firings for [(e, id, k)] that one pass over [rs] makes. *)
Definition hitReminder (cfg : Config) (now : Date) (id : string) (k : Kind)
  (x : string * Reminder) : nat :=
  if String.eqb x.1 id && triggers cfg k now x.2 then 1%nat else 0%nat.

Definition hitsReminders (cfg : Config) (now : Date) (id : string) (k : Kind)
  (rs : list (string * Reminder)) : nat :=
  sum_list_with (hitReminder cfg now id k) rs.

Definition hitIdentity (cfg : Config) (links : gmap string LinkRecord) (now : Date)
  (e id : string) (k : Kind) (x : string * list (string * Reminder)) : nat :=
  if String.eqb x.1 e
  then match links !! x.1 with
       | Some _ => hitsReminders cfg now id k x.2
       | None => 0%nat
       end
  else 0%nat.

Definition hitsTable (cfg : Config) (links : gmap string LinkRecord) (now : Date)
  (e id : string) (k : Kind) (t : ReminderTable) : nat :=
  sum_list_with (hitIdentity cfg links now e id k) t.

(** A computation that never leaves a relation on worlds, whatever the
    oracle answers. *)
Definition stable {A} (R : World -> World -> Prop) (m : M A) : Prop :=
  forall w, R w (m w).2.

(** One tick at instant [t] calls [sendLine] for [(e, id, k)] once more. *)
Definition firesIn (cfg : Config) (o : Oracle) (t : Z) (w : World)
  (e id : string) (k : Kind) : Prop :=
  sentCount e id k (fired (cronTick cfg o t w).2) = S (sentCount e id k (fired w)).

(** The record at [reminders/{e}/{id}] is [r], and [e] is linked. *)
Definition holdsReminder (w : World) (e id : string) (r : Reminder) : Prop :=
  wellKeyed (reminders w) /\
  (exists rs, In (e, rs) (reminders w) /\ In (id, r) rs) /\
  is_Some (line_links w !! e).

(** The request passes the signature check and its first event is a
    text message whose text carries [LINK code]. *)
Definition linkRequest (hmac : string -> string -> string) (cfg : Config)
  (req : WebhookRequest) (ev : Event) (code : string) : Prop :=
  verifySignature hmac cfg req = Ret true /\
  events req ≫= head = Some ev /\
  e_type ev = "message" /\
  exists m, e_message ev = Some m /\ m_type m = "text" /\
            linkCode (m_text m) = Some code.

(** The handler has asked the LINE API for one reply, or for none behind
    the token guard. *)
Definition replied (cfg : Config) (replyToken msg : string) (w w' : World) : Prop :=
  outbox w' = outbox w ++ (if tokenGuard cfg then [] else [ReplyReq replyToken msg]).

(** No first event, an event that is not a message, or a message that is
    not text. *)
Definition notTextMessage (ev : option Event) : Prop :=
  match ev with
  | None => True
  | Some ev =>
      e_type ev <> "message" \/
      exists m, e_message ev = Some m /\ m_type m <> "text"
  end.

(* ================================================================== *)
(** * A worked configuration *)
(* ================================================================== *)

(** 2027-01-15 08:00:00 UTC, which is 17:00:00 in Tokyo. *)
Definition exInstant : Z := 1800000000000.

Definition exReminder : Reminder :=
  {| text := "dentist"; timeISO := Instant exInstant;
     morning := true; oneHour := true;
     morningSent := false; oneHourSent := false; exactSent := false |}.

Definition exLinks : gmap string LinkRecord :=
  <["a@x_com" := {| lineUserId := "U1"; linkedAt := 0 |}]>
    (<["b@x_com" := {| lineUserId := "U2"; linkedAt := 0 |}]> ∅).

Definition exWorld : World :=
  {| pendingLinks := ∅;
     reminders := [("a@x_com", [("r1", exReminder)]); ("b@x_com", [("r2", exReminder)])];
     line_links := exLinks;
     outbox := []; console := []; fired := []; ioSeq := 0 |}.

Definition exConfig (v : Variant) (off : Z) : Config :=
  {| variant := v; LINE_TOKEN := Some "token"; LINE_SECRET := Some "secret";
     hostOffset := off |}.

(** No credential in the environment. *)
Definition bareConfig (v : Variant) : Config :=
  {| variant := v; LINE_TOKEN := None; LINE_SECRET := None; hostOffset := 0 |}.

Definition allGood : Oracle :=
  {| fetchOutcome := fun _ _ => Response true true; dbOk := fun _ _ => true |}.

(** The read of [line_links/{e}] rejects; everything else works. *)
Definition linkReadFails (e : string) : Oracle :=
  {| fetchOutcome := fun _ _ => Response true true;
     dbOk := fun _ op => match op with
                         | GetLink e' => negb (String.eqb e' e)
                         | _ => true
                         end |}.

(** The LINE API cannot be reached. *)
Definition networkDown : Oracle :=
  {| fetchOutcome := fun _ _ => NetworkError; dbOk := fun _ _ => true |}.

(** The LINE API answers with an error status. *)
Definition lineRefuses : Oracle :=
  {| fetchOutcome := fun _ _ => Response false true; dbOk := fun _ _ => true |}.

(** Every database call rejects. *)
Definition storeDown : Oracle :=
  {| fetchOutcome := fun _ _ => Response true true; dbOk := fun _ _ => false |}.

(** A stand-in for the keyed hash in worked examples. *)
Definition toyHmac (key body : string) : string := key +:+ ":" +:+ body.

Definition exTextEvent (t : string) : Event :=
  {| e_type := "message";
     e_message := Some {| m_type := "text"; m_text := t |};
     e_userId := "U9"; e_replyToken := "rt" |}.

Definition exStickerEvent : Event :=
  {| e_type := "message";
     e_message := Some {| m_type := "sticker"; m_text := EmptyString |};
     e_userId := "U9"; e_replyToken := "rt" |}.

Definition exRequest (evs : list Event) : WebhookRequest :=
  {| x_line_signature := Some (toyHmac "secret" "body");
     rawBody := Some "body";
     events := Some evs |}.

(** [exWorld] after [POST /api/request-line-token] for [a@x.com] drew
    123456 at [exInstant]. *)
Definition exIssued : World :=
  (requestLineToken (Some "a@x.com") 123456 exInstant exWorld).2.

(* ================================================================== *)
(** * Further vocabulary *)
(* ================================================================== *)


(** A string that [trim] has nothing to remove from: it neither starts
    nor ends with white space. *)
Definition trimmed (s : string) : Prop :=
  Js.trimStart s = s /\ Js.trimEnd s = s.

(** The rest of the text after the white space character at its head. *)
Definition whiteHead (s : string) : option string :=
  match s with
  | EmptyString => None
  | String c1 s1 =>
      if Js.isSpace c1 then Some s1
      else match s1 with
           | EmptyString => None
           | String c2 s2 =>
               if Js.isSpace2 c1 c2 then Some s2
               else match s2 with
                    | EmptyString => None
                    | String c3 s3 => if Js.isSpace3 c1 c2 c3 then Some s3 else None
                    end
           end
  end.

(** The byte begins the encoding of a white space character. *)
Definition spaceLead (c : ascii) : bool :=
  Js.isSpace c || Js.byteIs 194 c || Js.byteIs 225 c || Js.byteIs 226 c
  || Js.byteIs 227 c || Js.byteIs 239 c.

(** No byte of the text begins white space. *)
Fixpoint solid (s : string) : bool :=
  match s with
  | String c s' => negb (spaceLead c) && solid s'
  | EmptyString => true
  end.

(** The upper case of the character at the head of the text, and the
    rest of the text, when that character is one of the tables of
    [toUpperCase]. *)
Definition upperHead (s : string) : option (string * string) :=
  match s with
  | String c1 (String c2 s2) =>
      match Js.upper2 c1 c2 with
      | Some u => Some (u, s2)
      | None =>
          match s2 with
          | String c3 s3 =>
              match Js.upper3 c1 c2 c3 with
              | Some u => Some (u, s3)
              | None => None
              end
          | EmptyString => None
          end
      end
  | _ => None
  end.


(** U+0131, the dotless i, whose upper case is I; U+00A0, the no-break
    space; and U+3000, the ideographic space. *)
Definition dotlessI : string := Js.bytes [196; 177]%nat.
Definition noBreakSpace : string := Js.bytes [194; 160]%nat.
Definition ideographicSpace : string := Js.bytes [227; 128; 128]%nat.

(** The records stored under [reminders/{e}]. *)
Definition remindersOf (t : ReminderTable) (e : string)
  : list (list (string * Reminder)) :=
  map snd (List.filter (fun x => String.eqb x.1 e) t).

(** What a tick does not touch for an identity [e] without link record:
    the links, the reminders of [e] and the firings for [e]. *)
Definition untouched (e : string) (w w' : World) : Prop :=
  line_links w !! e = None ->
  line_links w' = line_links w /\
  remindersOf (reminders w') e = remindersOf (reminders w) e /\
  forall id k, sentCount e id k (fired w') = sentCount e id k (fired w).

(** The evaluator leaves the registry and the links alone. *)
Definition registryKept (w w' : World) : Prop :=
  pendingLinks w' = pendingLinks w /\ line_links w' = line_links w.

(** The time value of [now] at the instant [t] on a host at offset
    [off]: the instant cut to the second, moved ahead by what Tokyo's
    zone is ahead of the host's. *)
Definition clock (off t : Z) : Z :=
  t / msPerSecond * msPerSecond + (tokyoOffset - off).

(** Every record at [reminders/{e}/{id}] has the flag of [k] unset. *)
Definition unsentAll (t : ReminderTable) (e id : string) (k : Kind) : Prop :=
  forall rs r, In (e, rs) t -> In (id, r) rs -> sentFlag k r = false.

(** The call of [sendLine] for notification [k] of reminder [id] of
    [e], with its recipient and text. *)
Definition firing (e id : string) (k : Kind) (to msg : string) : Firing :=
  {| f_email := e; f_id := id; f_kind := k; f_to := to; f_msg := msg |}.

(** From [w] to [w'] the evaluator has called [sendLine] for [fs], in
    this order, and has handed the push of each call to [fetch]; in
    variant 2 without a token nothing is handed over. *)
Definition fires (cfg : Config) (w w' : World) (fs : list Firing) : Prop :=
  fired w' = fired w ++ fs /\
  outbox w' = outbox w ++ (if isVariant2 cfg && negb (Js.truthy (LINE_TOKEN cfg))
                           then [] else map pushOf fs).

(** The tick at [t] sends notification [k] of reminder [id] of [e]:
    exactly one of its calls of [sendLine] is for it, with recipient
    [to] and text [msg], and the flag is set afterwards. *)
Definition sends (cfg : Config) (o : Oracle) (t : Z) (w : World)
  (e id : string) (k : Kind) (to msg : string) : Prop :=
  let w' := (cronTick cfg o t w).2 in
  exists fs, fires cfg w w' fs /\
             List.filter (firingFor e id k) fs = [firing e id k to msg] /\
             sentAll (reminders w') e id k.

(** The tick at [t] passes notification [k] of reminder [id] of [e]
    over: none of its calls of [sendLine] is for it, and the flag is
    unset afterwards. *)
Definition skips (cfg : Config) (o : Oracle) (t : Z) (w : World)
  (e id : string) (k : Kind) : Prop :=
  let w' := (cronTick cfg o t w).2 in
  exists fs, fires cfg w w' fs /\
             List.filter (firingFor e id k) fs = [] /\
             unsentAll (reminders w') e id k.

(** The calls of [sendLine] added from [w] to [w'] all satisfy [ok]. *)
Definition adds (ok : Firing -> Prop) (w w' : World) : Prop :=
  exists fs, fired w' = fired w ++ fs /\ Forall ok fs.

(** A flag of [k] that is set at [reminders/{e}/{id}] in [w'] was set
    there in [w]. *)
Definition flagKept (e id : string) (k : Kind) (w w' : World) : Prop :=
  forall rs' r', In (e, rs') (reminders w') -> In (id, r') rs' -> sentFlag k r' = true ->
    exists rs r, In (e, rs) (reminders w) /\ In (id, r) rs /\ sentFlag k r = true.

(** At the instant [t] the exact window of an event at [ev] is closed,
    or not yet open, by the clock of a host at offset [off]. *)
Definition outsideWindow (off ev t : Z) : Prop :=
  ~ (0 <= clock off t - ev < 10 * 60 * 1000).

(** 08:00:00 of the civil day [d]. *)
Definition eightOClock (d : Z) : Z := d * msPerDay + 8 * msPerHour.

(* ================================================================== *)
(** * The service worker *)
(* ================================================================== *)

(** The worker (lines 1-64) runs in the browser.  Its state is the
    cache storage of the origin: caches in order of creation, each a
    map from the URL of a GET request to the stored response.  The Cache
    interface compares URLs without their fragments: a cache is keyed by
    the URL without it ([noFragment]), and [cachesMatch] and [cachePut]
    are given such URLs.  The responses of the model carry no [Vary]
    header other than [Vary: *], so that a cached response matches every
    GET request for its URL.  Events are handled one after the other:
    the [cache.put] of the fetch handler, which the source does not
    await, has settled before the next event.  The network is an oracle
    from requests to responses; [None] is a rejected [fetch]. *)

(** [s.includes(p)] *)
Fixpoint includes (s p : string) : bool :=
  if Js.startsWith s p then true
  else match s with
       | String _ s' => includes s' p
       | EmptyString => false
       end.

(** The URL without its fragment: what stands before the first [#]. *)
Fixpoint noFragment (u : string) : string :=
  match u with
  | String c u' => if Ascii.eqb c "#" then EmptyString else String c (noFragment u')
  | EmptyString => EmptyString
  end.

Definition CACHE_NAME : string := "suzi-cache-v2".

Definition STATIC_ASSETS : list string := ["/"; "/index.html"; "/suzi-profile.png"].

(** [rq_url] is [req.url], fragment included. *)
Record SwRequest : Type := {
  rq_url : string;
  rq_mode : string;
  rq_method : string
}.

(** [rs_varyStar] tells whether the response carries [Vary: *]. *)
Record SwResponse : Type := {
  rs_status : Z;
  rs_varyStar : bool;
  rs_body : string
}.

Definition CacheStorage : Type := list (string * gmap string SwResponse).

Definition Net : Type := SwRequest -> option SwResponse.

(** [fetches] records the requests the worker has handed to [fetch]. *)
Record SwState : Type := {
  caches : CacheStorage;
  fetches : list SwRequest
}.

(** What the page gets: the event was left to the browser
    ([respondWith] not called), a response, [undefined] in place of a
    response, or a rejected promise. *)
Inductive SwOutcome : Type :=
| PassThrough
| Respond (r : SwResponse)
| RespondNothing
| Rejected.

(** [caches.match] for a GET request whose URL without fragment is [u]:
    the first cache, in order of creation, that holds it. *)
Fixpoint cachesMatch (cs : CacheStorage) (u : string) : option SwResponse :=
  match cs with
  | [] => None
  | (_, c) :: cs' =>
      match c !! u with
      | Some r => Some r
      | None => cachesMatch cs' u
      end
  end.

Definition cachesHas (name : string) (cs : CacheStorage) : bool :=
  existsb (fun x => String.eqb x.1 name) cs.

(** [caches.open(name)]: the cache is created when there is none. *)
Definition cachesOpen (name : string) (cs : CacheStorage) : CacheStorage :=
  if cachesHas name cs then cs else cs ++ [(name, ∅)].

(** [cache.put] on the cache [name] for a request whose URL without
    fragment is [u], once it has settled. *)
Definition cachePut (name u : string) (r : SwResponse) (cs : CacheStorage)
  : CacheStorage :=
  map (fun x => if String.eqb x.1 name then (x.1, <[u := r]> x.2) else x) cs.

(** The URL has the scheme [http] or [https]. *)
Definition httpScheme (u : string) : bool :=
  Js.startsWith u "http://" || Js.startsWith u "https://".

(** [cache.put(req, res)] rejects for a request that is not GET or whose
    scheme is not [http] or [https], for a response with status 206 and
    for a response with [Vary: *]. *)
Definition putAllowed (req : SwRequest) (res : SwResponse) : bool :=
  String.eqb (rq_method req) "GET" && httpScheme (rq_url req)
  && negb (rs_status res =? 206) && negb (rs_varyStar res).

(** [cache.addAll] rejects, and stores nothing, unless every response
    has an ok status other than 206 and no [Vary: *]. *)
Definition addAllAllowed (a : option SwResponse) : bool :=
  match a with
  | Some r => (200 <=? rs_status r) && (rs_status r <=? 299)
              && negb (rs_status r =? 206) && negb (rs_varyStar r)
  | None => false
  end.

(** The request [cache.addAll] makes for a path, relative to the
    worker's origin; the paths of [STATIC_ASSETS] have no fragment. *)
Definition assetRequest (origin path : string) : SwRequest :=
  {| rq_url := origin +:+ path; rq_mode := "cors"; rq_method := "GET" |}.

(** The [install] listener (lines 11-16).  The result tells whether the
    promise given to [waitUntil] is fulfilled. *)
Definition swInstall (origin : string) (net : Net) (st : SwState) : bool * SwState :=
  let reqs := map (assetRequest origin) STATIC_ASSETS in
  let opened := cachesOpen CACHE_NAME (caches st) in
  let answers := map net reqs in
  if forallb addAllAllowed answers
  then (true,
        {| caches :=
             fold_left (fun cs qa =>
                          match qa.2 with
                          | Some r => cachePut CACHE_NAME (rq_url qa.1) r cs
                          | None => cs
                          end)
                       (combine reqs answers) opened;
           fetches := fetches st ++ reqs |})
  else (false, {| caches := opened; fetches := fetches st ++ reqs |}).

(** The [activate] listener (lines 18-27): every cache whose name is not
    [CACHE_NAME] is deleted. *)
Definition swActivate (st : SwState) : SwState :=
  {| caches := List.filter (fun x => String.eqb x.1 CACHE_NAME) (caches st);
     fetches := fetches st |}.

(** The test at the head of the [fetch] listener (lines 33-40). *)
Definition bypassed (u : string) : bool :=
  includes u "/api/" || includes u "firebase" || includes u "googleapis"
  || includes u "onrender.com".

(** The [fetch] listener (lines 29-64).  The navigation branch asks the
    caches for [/index.html] of the worker's origin, whatever the method
    of the request. *)
Definition swFetch (origin : string) (net : Net) (st : SwState) (req : SwRequest)
  : SwOutcome * SwState :=
  if bypassed (rq_url req) then (PassThrough, st)
  else
    let asked := {| caches := caches st; fetches := fetches st ++ [req] |} in
    if String.eqb (rq_mode req) "navigate" then
      match net req with
      | Some r => (Respond r, asked)
      | None =>
          match cachesMatch (caches st) (origin +:+ "/index.html") with
          | Some r => (Respond r, asked)
          | None => (RespondNothing, asked)
          end
      end
    else
      match (if String.eqb (rq_method req) "GET"
             then cachesMatch (caches st) (noFragment (rq_url req)) else None) with
      | Some cached => (Respond cached, st)
      | None =>
          match net req with
          | None => (Rejected, asked)
          | Some res =>
              let cs := cachesOpen CACHE_NAME (caches st) in
              (Respond res,
               {| caches := if putAllowed req res
                            then cachePut CACHE_NAME (noFragment (rq_url req)) res cs
                            else cs;
                  fetches := fetches st ++ [req] |})
          end
      end.

(** The cache named [name], when the storage has one. *)
Fixpoint cacheNamed (name : string) (cs : CacheStorage) : option (gmap string SwResponse) :=
  match cs with
  | [] => None
  | (n, c) :: cs' => if String.eqb n name then Some c else cacheNamed name cs'
  end.

(** A worked worker: an origin, a network that serves every request, and
    a storage that still holds the cache of an earlier version. *)
Definition exOrigin : string := "https://suzi.example".

Definition exPage (u : string) : SwResponse :=
  {| rs_status := 200; rs_varyStar := false; rs_body := u |}.

Definition exNet : Net := fun q => Some (exPage (rq_url q)).

Definition offline : Net := fun _ => None.

Definition exOldStorage : SwState :=
  {| caches := [("suzi-cache-v1",
                 {[ "https://suzi.example/index.html" :=
                      {| rs_status := 200; rs_varyStar := false; rs_body := "old" |} ]})];
     fetches := [] |}.

Definition exInstalled : SwState := swActivate (swInstall exOrigin exNet exOldStorage).2.

(** [exWorld] before the second identity has linked its account. *)
Definition exHalfLinked : World :=
  {| pendingLinks := ∅;
     reminders := reminders exWorld;
     line_links := {[ "a@x_com" := {| lineUserId := "U1"; linkedAt := 0 |} ]};
     outbox := []; console := []; fired := []; ioSeq := 0 |}.

(** A reminder whose [timeISO] cannot be parsed. *)
Definition exBroken : Reminder :=
  {| text := "broken"; timeISO := Malformed;
     morning := true; oneHour := true;
     morningSent := false; oneHourSent := false; exactSent := false |}.

Definition exBrokenWorld : World :=
  {| pendingLinks := ∅;
     reminders := [("a@x_com", [("r1", exBroken)])];
     line_links := exLinks;
     outbox := []; console := []; fired := []; ioSeq := 0 |}.

(** A reminder for 05:00 in Tokyo on 2027-01-16, which is 20:00 UTC on
    the day before. *)
Definition exEarly : Reminder :=
  {| text := "flight"; timeISO := Instant (exInstant + 12 * msPerHour);
     morning := true; oneHour := false;
     morningSent := false; oneHourSent := false; exactSent := false |}.

Definition exEarlyWorld : World :=
  {| pendingLinks := ∅;
     reminders := [("a@x_com", [("r1", exEarly)])];
     line_links := exLinks;
     outbox := []; console := []; fired := []; ioSeq := 0 |}.

(** Two pending requests, for emails that differ in a dot only. *)
Definition exTwoPending : World :=
  (requestLineToken (Some "a_b@x.com") 222222 exInstant
     (requestLineToken (Some "a.b@x.com") 111111 exInstant exWorld).2).2.

(** A script of the page, and a form posted to the page's origin. *)
Definition exScript : SwRequest :=
  {| rq_url := "https://suzi.example/app.js"; rq_mode := "no-cors"; rq_method := "GET" |}.

Definition exPost : SwRequest :=
  {| rq_url := "https://suzi.example/index.html"; rq_mode := "cors"; rq_method := "POST" |}.

(** The index page asked for with a fragment, and a form posted by a
    navigation. *)
Definition exAnchor : SwRequest :=
  {| rq_url := "https://suzi.example/index.html#top"; rq_mode := "no-cors";
     rq_method := "GET" |}.

Definition exPostNavigation : SwRequest :=
  {| rq_url := "https://suzi.example/submit"; rq_mode := "navigate"; rq_method := "POST" |}.

(* ================================================================== *)
(** * Rules of the program logic *)
(* ================================================================== *)

Section Rules.

Context {A B : Type}.

Lemma wp_ret (a : A) w Q E : Q a w -> wp (ret a) w Q E.
Proof. done. Qed.

Lemma wp_throw e w (Q : A -> World -> Prop) E : E e w -> wp (throw e) w Q E.
Proof. done. Qed.

Lemma wp_bind (m : M A) (k : A -> M B) w Q E :
  wp m w (fun a w' => wp (k a) w' Q E) E -> wp (m ≫= k) w Q E.
Proof.
  unfold wp, mbind, M_bind, bind. destruct (m w) as [[a|e] w']; done.
Qed.

Lemma wp_mono (m : M A) w (Q Q' : A -> World -> Prop) (E E' : Exn -> World -> Prop) :
  wp m w Q E ->
  (forall a w', Q a w' -> Q' a w') ->
  (forall e w', E e w' -> E' e w') ->
  wp m w Q' E'.
Proof.
  unfold wp. destruct (m w) as [[a|e] w']; auto.
Qed.

Lemma wp_tryCatch (m : M A) h w Q E :
  wp m w Q (fun e w' => wp (h e) w' Q E) -> wp (tryCatch m h) w Q E.
Proof.
  unfold wp, tryCatch. destruct (m w) as [[a|e] w']; done.
Qed.

Lemma wp_gets (f : World -> A) w Q E : Q (f w) w -> wp (gets f) w Q E.
Proof. done. Qed.

Lemma wp_dbCall o op (run : M A) w Q E :
  (dbOk o (ioSeq w) op = true -> wp run (next_io w) Q E) ->
  (dbOk o (ioSeq w) op = false -> E (DbError op) (next_io w)) ->
  wp (dbCall o op run) w Q E.
Proof.
  intros Hok Hfail. unfold wp, dbCall.
  destruct (dbOk o (ioSeq w) op).
  - exact (Hok eq_refl).
  - exact (Hfail eq_refl).
Qed.

Lemma wp_stable R (m : M A) w Q E :
  stable R m -> wp m w Q E ->
  wp m w (fun a w' => R w w' /\ Q a w') (fun e w' => R w w' /\ E e w').
Proof.
  intros Hs. specialize (Hs w). unfold wp.
  destruct (m w) as [[a|e] w']; simpl in Hs; auto.
Qed.

End Rules.

Lemma wp_modify f w (Q : unit -> World -> Prop) E : Q tt (f w) -> wp (modify f) w Q E.
Proof. done. Qed.

Section StableRules.

Variable R : World -> World -> Prop.
Hypothesis R_refl : forall w, R w w.
Hypothesis R_trans : forall w1 w2 w3, R w1 w2 -> R w2 w3 -> R w1 w3.

Lemma stable_ret {A} (a : A) : stable R (ret a).
Proof. intros w. apply R_refl. Qed.

Lemma stable_throw {A} e : stable R (@throw A e).
Proof. intros w. apply R_refl. Qed.

Lemma stable_bind {A B} (m : M A) (k : A -> M B) :
  stable R m -> (forall a, stable R (k a)) -> stable R (m ≫= k).
Proof.
  intros Hm Hk w. specialize (Hm w).
  unfold mbind, M_bind, bind. destruct (m w) as [[a|e] w1]; simpl in *; auto.
  eapply R_trans; [exact Hm | apply Hk].
Qed.

Lemma stable_tryCatch {A} (m : M A) h :
  stable R m -> (forall e, stable R (h e)) -> stable R (tryCatch m h).
Proof.
  intros Hm Hh w. specialize (Hm w).
  unfold tryCatch. destruct (m w) as [[a|e] w1]; simpl in *; auto.
  eapply R_trans; [exact Hm | apply Hh].
Qed.

Lemma stable_forEach {A} (l : list A) body :
  (forall x, In x l -> stable R (body x)) -> stable R (forEach l body).
Proof.
  induction l as [|x l IH]; intros Hb; simpl.
  - apply stable_ret.
  - apply (stable_bind (body x) (fun _ => forEach l body)).
    + apply Hb. now left.
    + intros _. apply IH. intros y Hy. apply Hb. now right.
Qed.

Lemma stable_modify f : (forall w, R w (f w)) -> stable R (modify f).
Proof. intros Hf w. apply Hf. Qed.

Lemma stable_gets {A} (f : World -> A) : stable R (gets f).
Proof. intros w. apply R_refl. Qed.

Lemma stable_dbCall {A} o op (run : M A) :
  (forall w, R w (next_io w)) -> stable R run -> stable R (dbCall o op run).
Proof.
  intros Hio Hrun w. unfold dbCall.
  destruct (dbOk o (ioSeq w) op); simpl; auto.
  eapply R_trans; [apply Hio | apply Hrun].
Qed.

End StableRules.

(* ================================================================== *)
(** * Sent flags only go up *)
(* ================================================================== *)

Lemma raised_refl r : raised r r.
Proof. unfold raised. auto. Qed.

Lemma raised_trans r1 r2 r3 : raised r1 r2 -> raised r2 r3 -> raised r1 r3.
Proof.
  intros (Ha & Hb & Hc & Hd & He) (Ha' & Hb' & Hc' & Hd' & He').
  unfold raised. repeat split; try congruence. auto.
Qed.

Lemma setSent_raised k r : raised r (setSent k r).
Proof.
  unfold raised. repeat split. intros k'. destruct k, k'; simpl; auto.
Qed.

Lemma setSent_flag k r : sentFlag k (setSent k r) = true.
Proof. destruct k; reflexivity. Qed.

Lemma remsRaised_refl rs : remsRaised rs rs.
Proof.
  induction rs; constructor; auto. split; [done | apply raised_refl].
Qed.

Lemma remsRaised_trans a b c : remsRaised a b -> remsRaised b c -> remsRaised a c.
Proof.
  intros Hab. revert c. induction Hab as [|x y l l' [Hk Hr] _ IH]; intros c Hbc.
  - inversion Hbc. constructor.
  - inversion Hbc as [|y' z l2 l3 [Hk' Hr'] Hrest]; subst.
    constructor; [split; [congruence | eapply raised_trans; eauto] | apply IH, Hrest].
Qed.

Lemma tableRaised_refl t : tableRaised t t.
Proof.
  induction t; constructor; auto. split; [done | apply remsRaised_refl].
Qed.

Lemma tableRaised_trans a b c : tableRaised a b -> tableRaised b c -> tableRaised a c.
Proof.
  intros Hab. revert c. induction Hab as [|x y l l' [Hk Hr] _ IH]; intros c Hbc.
  - inversion Hbc. constructor.
  - inversion Hbc as [|y' z l2 l3 [Hk' Hr'] Hrest]; subst.
    constructor; [split; [congruence | eapply remsRaised_trans; eauto] | apply IH, Hrest].
Qed.

Lemma setFlagAt_raised e id k t : tableRaised t (setFlagAt e id k t).
Proof.
  induction t as [|[e' rs] t IH]; simpl; constructor; auto.
  destruct (String.eqb e' e); simpl; split; auto using remsRaised_refl.
  clear. induction rs as [|[i r] rs IH]; simpl; constructor; auto.
  destruct (String.eqb i id); simpl; split; auto using raised_refl, setSent_raised.
Qed.

Lemma setFlagAt_sentAll e id k t : sentAll (setFlagAt e id k t) e id k.
Proof.
  intros rs r Hin Hr. unfold setFlagAt in Hin.
  apply in_map_iff in Hin as ([e' rs'] & Heq & _).
  destruct (String.eqb e' e) eqn:He.
  - injection Heq as _ <-.
    apply in_map_iff in Hr as ([i r'] & Heq' & _).
    destruct (String.eqb i id) eqn:Hi.
    + injection Heq' as _ <-. apply setSent_flag.
    + injection Heq' as -> _. rewrite String.eqb_refl in Hi. discriminate.
  - injection Heq as -> _. rewrite String.eqb_refl in He. discriminate.
Qed.

Lemma remsRaised_In rs rs' i r' :
  remsRaised rs rs' -> In (i, r') rs' -> exists r, In (i, r) rs /\ raised r r'.
Proof.
  induction 1 as [|[i1 r1] [i2 r2] l l' [Hk Hr] _ IH]; simpl; intros Hin; [done|].
  simpl in Hk. destruct Hin as [Heq | Hin].
  - injection Heq as <- <-. subst. eauto.
  - destruct (IH Hin) as (r & ? & ?). eauto.
Qed.

Lemma tableRaised_In t t' e rs' :
  tableRaised t t' -> In (e, rs') t' -> exists rs, In (e, rs) t /\ remsRaised rs rs'.
Proof.
  induction 1 as [|[e1 r1] [e2 r2] l l' [Hk Hr] _ IH]; simpl; intros Hin; [done|].
  simpl in Hk. destruct Hin as [Heq | Hin].
  - injection Heq as <- <-. subst. eauto.
  - destruct (IH Hin) as (r & ? & ?). eauto.
Qed.

Lemma sentAll_raised t t' e id k :
  tableRaised t t' -> sentAll t e id k -> sentAll t' e id k.
Proof.
  intros Ht Hs rs' r' Hin Hr.
  destruct (tableRaised_In _ _ _ _ Ht Hin) as (rs & Hin0 & Hrs).
  destruct (remsRaised_In _ _ _ _ Hrs Hr) as (r & Hr0 & Hraised).
  apply Hraised. eapply Hs; eauto.
Qed.

Lemma tableRaised_keys t t' : tableRaised t t' -> map fst t' = map fst t.
Proof.
  induction 1 as [|x y l l' [Hk _] _ IH]; simpl; [done|]. now rewrite IH, Hk.
Qed.

Lemma remsRaised_keys rs rs' : remsRaised rs rs' -> map fst rs' = map fst rs.
Proof.
  induction 1 as [|x y l l' [Hk _] _ IH]; simpl; [done|]. now rewrite IH, Hk.
Qed.

Lemma wellKeyed_raised t t' : tableRaised t t' -> wellKeyed t -> wellKeyed t'.
Proof.
  intros Ht [Hnd Hin]. split.
  - now rewrite (tableRaised_keys _ _ Ht).
  - intros e rs' He.
    destruct (tableRaised_In _ _ _ _ Ht He) as (rs & Hin0 & Hrs).
    rewrite (remsRaised_keys _ _ Hrs). eauto.
Qed.

Section Evolves.

Variable cfg : Config.

Lemma evolves_refl w : evolves cfg w w.
Proof.
  split; [apply tableRaised_refl|]. split; [done|].
  exists []. rewrite !app_nil_r. split; [done|].
  destruct (tokenGuard cfg); simpl; now rewrite ?app_nil_r.
Qed.

Lemma evolves_trans w1 w2 w3 : evolves cfg w1 w2 -> evolves cfg w2 w3 -> evolves cfg w1 w3.
Proof.
  intros (Ht & Hl & fs & Hf & Ho) (Ht' & Hl' & fs' & Hf' & Ho').
  split; [eapply tableRaised_trans; eauto|]. split; [congruence|].
  exists (fs ++ fs'). rewrite Hf', Hf, Ho', Ho, <- !app_assoc. split; [done|].
  destruct (tokenGuard cfg); [done|]. now rewrite map_app.
Qed.

Lemma evolves_next_io w : evolves cfg w (next_io w).
Proof.
  split; [apply tableRaised_refl|]. split; [done|].
  exists []. simpl. rewrite !app_nil_r. split; [done|].
  destruct (tokenGuard cfg); simpl; now rewrite ?app_nil_r.
Qed.

Lemma evolves_console f w : evolves cfg w (with_console f w).
Proof.
  split; [apply tableRaised_refl|]. split; [done|].
  exists []. simpl. rewrite !app_nil_r. split; [done|].
  destruct (tokenGuard cfg); simpl; now rewrite ?app_nil_r.
Qed.

Lemma evolves_pendingLinks f w : evolves cfg w (with_pendingLinks f w).
Proof.
  split; [apply tableRaised_refl|]. split; [done|].
  exists []. simpl. rewrite !app_nil_r. split; [done|].
  destruct (tokenGuard cfg); simpl; now rewrite ?app_nil_r.
Qed.

Lemma evolves_setFlag e id k w :
  evolves cfg w (with_reminders (setFlagAt e id k) w).
Proof.
  split; [apply setFlagAt_raised|]. split; [done|].
  exists []. simpl. rewrite !app_nil_r. split; [done|].
  destruct (tokenGuard cfg); simpl; now rewrite ?app_nil_r.
Qed.

End Evolves.

(* ================================================================== *)
(** * The LINE helpers never change the store *)
(* ================================================================== *)

Lemma stable_of_wp {A} R (m : M A) :
  (forall w, wp m w (fun _ w' => R w w') (fun _ w' => R w w')) -> stable R m.
Proof.
  intros H w. specialize (H w). unfold wp in H.
  destruct (m w) as [[a|e] w']; exact H.
Qed.

(** [sendLine] returns normally whatever [fetch] does; it hands one push
    request to [fetch], or none behind the token guard. *)
Lemma sendLine_spec cfg o to msg w :
  wp (sendLine cfg o to msg) w
     (fun _ w' =>
        pendingLinks w' = pendingLinks w /\ reminders w' = reminders w /\
        line_links w' = line_links w /\ fired w' = fired w /\
        outbox w' = outbox w ++ (if tokenGuard cfg then [] else [PushReq to msg]))
     (fun _ _ => False).
Proof.
  unfold wp, sendLine. destruct (tokenGuard cfg); simpl.
  - now rewrite app_nil_r.
  - unfold tryCatch, mbind, M_bind, bind, fetch.
    destruct (fetchOutcome o (ioSeq w) (PushReq to msg)) as [|[] []]; simpl; auto.
Qed.

Lemma notify_spec cfg o e id k to msg w :
  let f := {| f_email := e; f_id := id; f_kind := k; f_to := to; f_msg := msg |} in
  wp (notify cfg o e id k to msg) w
     (fun _ w' =>
        pendingLinks w' = pendingLinks w /\ reminders w' = reminders w /\
        line_links w' = line_links w /\ fired w' = fired w ++ [f] /\
        outbox w' = outbox w ++ (if tokenGuard cfg then [] else [pushOf f]))
     (fun _ _ => False).
Proof.
  intros f. unfold notify. apply wp_bind, wp_modify.
  eapply wp_mono; [apply sendLine_spec | | done].
  simpl. intros _ w' (-> & -> & -> & -> & ->). auto.
Qed.

Lemma notify_evolves cfg o e id k to msg : stable (evolves cfg) (notify cfg o e id k to msg).
Proof.
  apply stable_of_wp. intros w.
  eapply wp_mono; [apply notify_spec | | done].
  simpl. intros _ w' (_ & Hr & Hl & Hf & Ho).
  split; [rewrite Hr; apply tableRaised_refl|]. split; [done|].
  eexists. split; [exact Hf|]. rewrite Ho. now destruct (tokenGuard cfg).
Qed.

Section EvaluatorStable.

Variable cfg : Config.
Variable o : Oracle.

Lemma dbSetFlag_evolves e id k : stable (evolves cfg) (dbSetFlag o e id k).
Proof.
  apply (stable_dbCall (evolves cfg) (evolves_trans cfg)).
  - apply evolves_next_io.
  - apply stable_modify. intros w. apply evolves_setFlag.
Qed.

Lemma fire_evolves e id k to msg :
  stable (evolves cfg) (notify cfg o e id k to msg;; dbSetFlag o e id k).
Proof.
  apply (stable_bind (evolves cfg) (evolves_trans cfg)).
  - apply notify_evolves.
  - intros _. apply dbSetFlag_evolves.
Qed.

Lemma evalReminder_evolves now e to id r :
  stable (evolves cfg) (evalReminder cfg o now e to id r).
Proof.
  unfold evalReminder. cbv zeta.
  apply (stable_bind (evolves cfg) (evolves_trans cfg)); [|intros _; apply (stable_bind (evolves cfg) (evolves_trans cfg)); [|intros _]];
    repeat match goal with
           | |- stable _ (if ?c then _ else _) => destruct c
           end;
    first [apply fire_evolves | apply (stable_ret (evolves cfg) (evolves_refl cfg))].
Qed.

Lemma evalIdentity_evolves now e rems :
  stable (evolves cfg) (evalIdentity cfg o now e rems).
Proof.
  unfold evalIdentity. apply (stable_bind (evolves cfg) (evolves_trans cfg)).
  - unfold dbGetLink. apply (stable_dbCall (evolves cfg) (evolves_trans cfg)).
    + apply evolves_next_io.
    + apply (stable_gets (evolves cfg) (evolves_refl cfg)).
  - intros [link|]; [|apply (stable_ret (evolves cfg) (evolves_refl cfg))].
    apply (stable_forEach (evolves cfg) (evolves_refl cfg) (evolves_trans cfg)).
    intros [id r] _. apply evalReminder_evolves.
Qed.

Lemma identityStep_evolves now entry :
  stable (evolves cfg) (identityStep cfg o now entry).
Proof.
  unfold identityStep. destruct (variant cfg).
  - apply (stable_tryCatch (evolves cfg) (evolves_trans cfg)).
    + apply evalIdentity_evolves.
    + intros e. apply stable_modify. intros w. apply evolves_console.
  - apply evalIdentity_evolves.
Qed.



End EvaluatorStable.

(* ================================================================== *)
(** * Counting the firings of one tick *)
(* ================================================================== *)

Lemma sentCount_app e id k l1 l2 :
  sentCount e id k (l1 ++ l2) = (sentCount e id k l1 + sentCount e id k l2)%nat.
Proof.
  induction l1 as [|f l1 IH]; simpl; [done|]. rewrite IH. lia.
Qed.

Lemma evalReminder_blocks cfg o now e to id r :
  evalReminder cfg o now e to id r =
  (fireBlock cfg o now e to id r Morning;;
   fireBlock cfg o now e to id r OneHour;;
   fireBlock cfg o now e to id r Exact).
Proof.
  unfold evalReminder, fireBlock, triggers, enabled, sentFlag, due, kindMsg. cbv zeta.
  destruct (morning r), (morningSent r), (oneHour r), (oneHourSent r), (exactSent r);
    simpl; reflexivity.
Qed.

(** Accumulation over a loop: a counter [c] grows by [g x] at each
    element, and a fact [T] established at some element survives the
    rest of the loop.  When an element throws, [Z] holds; under [Cz] the
    counter has not moved. *)
Lemma forEach_acc {A} (R : World -> World -> Prop) (I T : World -> Prop)
  (c : World -> nat) (g : A -> nat) (body : A -> M unit) (l : list A) (Z Cz : Prop) :
  (forall w, R w w) ->
  (forall w1 w2 w3, R w1 w2 -> R w2 w3 -> R w1 w3) ->
  (forall w w', R w w' -> I w -> I w') ->
  (forall w w', R w w' -> T w -> T w') ->
  (Z -> Cz -> forall x, In x l -> g x = 0%nat) ->
  (forall x w, In x l -> I w ->
     wp (body x) w
        (fun _ w' => R w w' /\ c w' = (c w + g x)%nat /\ ((0 < g x)%nat -> T w'))
        (fun _ w' => R w w' /\ Z /\ (Cz -> c w' = c w))) ->
  forall w, I w ->
    wp (forEach l body) w
       (fun _ w' => R w w' /\ c w' = (c w + sum_list_with g l)%nat /\
                    ((0 < sum_list_with g l)%nat -> T w'))
       (fun _ w' => R w w' /\ Z /\ (Cz -> c w' = c w)).
Proof.
  intros Rrefl Rtrans HI HT. induction l as [|x l IH]; intros Hz Hbody w Hw; simpl.
  - apply wp_ret. split; [apply Rrefl|]. split; [lia|lia].
  - apply (wp_bind (body x) (fun _ => forEach l body)).
    eapply wp_mono; [apply Hbody; [now left | exact Hw] | | done].
    simpl. intros _ w1 (HR1 & Hc1 & HT1).
    eapply wp_mono;
      [apply IH; [intros z cz y Hy; apply Hz; [done | done | now right]
                 | intros y w' Hy; apply Hbody; now right
                 | exact (HI _ _ HR1 Hw)] | | ].
    + simpl. intros _ w2 (HR2 & Hc2 & HT2).
      split; [eauto|]. split; [lia|].
      intros Hpos. destruct (Nat.eq_dec (g x) 0) as [Hg|Hg].
      * apply HT2. lia.
      * eapply HT; [exact HR2 | apply HT1; lia].
    + simpl. intros _ w2 (HR2 & HZ & Hc2).
      split; [eauto|]. split; [done|].
      intros HC. rewrite (Hc2 HC), Hc1, (Hz HZ HC x); [lia | now left].
Qed.

Section TickCount.

Variable cfg : Config.
Variable o : Oracle.
Variable now : Date.
Variables e id : string.
Variable k : Kind.
Hypothesis Hok : dbOkFor o e.

Lemma foreign_firing e' id' k' to msg :
  e' <> e ->
  firingFor e id k {| f_email := e'; f_id := id'; f_kind := k'; f_to := to; f_msg := msg |}
  = false.
Proof.
  intros Hne. unfold firingFor. simpl.
  destruct (String.eqb e' e) eqn:He; [|done]. apply String.eqb_eq in He. done.
Qed.

Lemma fire_count e' id' k' to msg w :
  wp (notify cfg o e' id' k' to msg;; dbSetFlag o e' id' k') w
     (fun _ w' =>
        evolves cfg w w' /\
        sentCount e id k (fired w') =
          (sentCount e id k (fired w) +
           (if String.eqb e' e && String.eqb id' id && bool_decide (k' = k)
            then 1 else 0))%nat /\
        sentAll (reminders w') e' id' k')
     (fun _ w' =>
        evolves cfg w w' /\ (dbFails o /\ e' <> e) /\
        (True -> sentCount e id k (fired w') = sentCount e id k (fired w))).
Proof.
  assert (Hcore :
    wp (notify cfg o e' id' k' to msg;; dbSetFlag o e' id' k') w
       (fun _ w' =>
          sentCount e id k (fired w') =
            (sentCount e id k (fired w) +
             (if String.eqb e' e && String.eqb id' id && bool_decide (k' = k)
              then 1 else 0))%nat /\
          sentAll (reminders w') e' id' k')
       (fun _ w' =>
          (dbFails o /\ e' <> e) /\
          (True -> sentCount e id k (fired w') = sentCount e id k (fired w)))).
  { apply (wp_bind (notify cfg o e' id' k' to msg) (fun _ => dbSetFlag o e' id' k')).
    eapply wp_mono; [apply notify_spec | | done].
    simpl. intros _ w1 (_ & Hr & _ & Hf & _).
    unfold dbSetFlag. apply wp_dbCall; intros Hdb.
    - apply wp_modify. simpl. split.
      + rewrite Hf, sentCount_app. simpl. unfold firingFor. simpl. lia.
      + apply setFlagAt_sentAll.
    - assert (Hne : e' <> e).
      { intros ->. rewrite Hok in Hdb; [done|]. simpl. apply String.eqb_refl. }
      split; [split; [now exists (ioSeq w1), (SetFlag e' id' k') | done]|].
      intros _. simpl. rewrite Hf, sentCount_app. simpl.
      rewrite foreign_firing by done. lia. }
  eapply wp_mono;
    [exact (wp_stable (evolves cfg) _ _ _ _ (fire_evolves cfg o e' id' k' to msg) Hcore)
    | | ].
  - simpl. tauto.
  - simpl. tauto.
Qed.

Lemma fireBlock_count e' to id' r' k' w :
  wp (fireBlock cfg o now e' to id' r' k') w
     (fun _ w' =>
        evolves cfg w w' /\
        sentCount e id k (fired w') =
          (sentCount e id k (fired w) +
           (if String.eqb e' e && String.eqb id' id && bool_decide (k' = k)
               && triggers cfg k' now r'
            then 1 else 0))%nat /\
        (triggers cfg k' now r' = true -> sentAll (reminders w') e' id' k'))
     (fun _ w' =>
        evolves cfg w w' /\ (dbFails o /\ e' <> e) /\
        (True -> sentCount e id k (fired w') = sentCount e id k (fired w))).
Proof.
  unfold fireBlock. destruct (triggers cfg k' now r').
  - eapply wp_mono; [apply fire_count | | done].
    simpl. intros _ w' (He & Hc & Hs). rewrite andb_true_r. auto.
  - apply wp_ret. split; [apply evolves_refl|]. rewrite andb_false_r.
    split; [lia | discriminate].
Qed.

Lemma foreign_zero e' (n : nat) :
  e' <> e -> (if String.eqb e' e then n else 0%nat) = 0%nat.
Proof.
  intros Hne. destruct (String.eqb e' e) eqn:He; [|done].
  apply String.eqb_eq in He. done.
Qed.

Lemma evalReminder_count e' to id' r' w :
  wp (evalReminder cfg o now e' to id' r') w
     (fun _ w' =>
        evolves cfg w w' /\
        sentCount e id k (fired w') =
          (sentCount e id k (fired w) +
           (if String.eqb e' e then hitReminder cfg now id k (id', r') else 0))%nat /\
        ((0 < if String.eqb e' e then hitReminder cfg now id k (id', r') else 0)%nat ->
         sentAll (reminders w') e id k))
     (fun _ w' =>
        evolves cfg w w' /\ (dbFails o /\ e' <> e) /\
        (True -> sentCount e id k (fired w') = sentCount e id k (fired w))).
Proof.
  rewrite evalReminder_blocks.
  apply (wp_bind (fireBlock cfg o now e' to id' r' Morning)).
  eapply wp_mono; [apply fireBlock_count | | done].
  simpl. intros _ w1 (He1 & Hc1 & Hs1).
  apply (wp_bind (fireBlock cfg o now e' to id' r' OneHour)).
  eapply wp_mono; [apply fireBlock_count | | ].
  2: { simpl. intros _ w2 (He2 & [Hbad Hne] & Hc2).
       split; [eauto using evolves_trans|]. split; [done|]. intros _.
       rewrite (Hc2 I), Hc1. rewrite (proj2 (String.eqb_neq e' e) Hne). simpl. lia. }
  simpl. intros _ w2 (He2 & Hc2 & Hs2).
  eapply wp_mono; [apply fireBlock_count | | ].
  2: { simpl. intros _ w3 (He3 & [Hbad Hne] & Hc3).
       split; [eauto using evolves_trans|]. split; [done|]. intros _.
       rewrite (Hc3 I), Hc2, Hc1. rewrite (proj2 (String.eqb_neq e' e) Hne). simpl. lia. }
  simpl. intros _ w3 (He3 & Hc3 & Hs3).
  split; [eauto using evolves_trans|].
  unfold hitReminder. simpl.
  split.
  - rewrite Hc3, Hc2, Hc1.
    destruct (String.eqb e' e), (String.eqb id' id), k; simpl;
      repeat match goal with
             | |- context [triggers cfg ?x now r'] => destruct (triggers cfg x now r')
             end; simpl; lia.
  - intros Hpos.
    destruct (String.eqb e' e) eqn:Hee; [|lia].
    apply String.eqb_eq in Hee. subst e'.
    destruct (String.eqb id' id) eqn:Hid; simpl in Hpos; [|lia].
    apply String.eqb_eq in Hid. subst id'.
    destruct (triggers cfg k now r') eqn:Ht; [|lia].
    destruct He2 as (Ht2 & _). destruct He3 as (Ht3 & _).
    destruct k.
    + eapply sentAll_raised; [exact Ht3|]. eapply sentAll_raised; [exact Ht2|]. auto.
    + eapply sentAll_raised; [exact Ht3|]. auto.
    + auto.
Qed.

Lemma evalIdentity_count e' rems w :
  wp (evalIdentity cfg o now e' rems) w
     (fun _ w' =>
        evolves cfg w w' /\
        sentCount e id k (fired w') =
          (sentCount e id k (fired w)
           + hitIdentity cfg (line_links w) now e id k (e', rems))%nat /\
        ((0 < hitIdentity cfg (line_links w) now e id k (e', rems))%nat ->
         sentAll (reminders w') e id k))
     (fun _ w' =>
        evolves cfg w w' /\ (dbFails o /\ e' <> e) /\
        sentCount e id k (fired w') = sentCount e id k (fired w)).
Proof.
  unfold evalIdentity.
  apply (wp_bind (dbGetLink o e')).
  unfold dbGetLink. apply wp_dbCall; intros Hdb.
  2: { split; [apply evolves_next_io|]. split; [|done]. split.
       - now exists (ioSeq w), (GetLink e').
       - intros ->. rewrite Hok in Hdb; [done|]. simpl. apply String.eqb_refl. }
  apply wp_gets. unfold hitIdentity. simpl.
  destruct (line_links w !! e') as [link|] eqn:Hlink.
  - pose proof (forEach_acc (evolves cfg) (fun _ => True)
                  (fun w' => sentAll (reminders w') e id k)
                  (fun w' => sentCount e id k (fired w'))
                  (fun x => if String.eqb e' e then hitReminder cfg now id k x else 0%nat)
                  (fun '(i, r) => evalReminder cfg o now e' (lineUserId link) i r)
                  rems (dbFails o /\ e' <> e) True
                  (evolves_refl cfg) (evolves_trans cfg)) as Hloop.
    eapply wp_mono; [apply Hloop with (w := next_io w) | | ].
    + done.
    + intros w1 w2 (Ht & _) Hs. eapply sentAll_raised; eauto.
    + intros [_ Hne] _ x _. now apply foreign_zero.
    + intros [i r] w1 _ _. apply evalReminder_count.
    + done.
    + simpl. intros _ w2 (He & Hc & Hs).
      split; [eapply evolves_trans; [apply evolves_next_io | exact He]|].
      unfold hitsReminders.
      destruct (String.eqb e' e) eqn:Hee.
      * split; [exact Hc | exact Hs].
      * assert (Hz : sum_list_with (fun _ : string * Reminder => 0%nat) rems = 0%nat)
          by (clear; induction rems; simpl; auto).
        rewrite Hz in Hc. split; [exact Hc | lia].
    + simpl. intros _ w2 (He & HZ & Hc).
      split; [eapply evolves_trans; [apply evolves_next_io | exact He]|].
      split; [done | exact (Hc I)].
  - apply wp_ret. split; [apply evolves_next_io|].
    destruct (String.eqb e' e); simpl; split; lia.
Qed.

Lemma identityStep_count entry w :
  wp (identityStep cfg o now entry) w
     (fun _ w' =>
        evolves cfg w w' /\
        sentCount e id k (fired w') =
          (sentCount e id k (fired w)
           + hitIdentity cfg (line_links w) now e id k entry)%nat /\
        ((0 < hitIdentity cfg (line_links w) now e id k entry)%nat ->
         sentAll (reminders w') e id k))
     (fun _ w' =>
        evolves cfg w w' /\ (dbFails o /\ variant cfg = Variant2) /\
        (False -> sentCount e id k (fired w') = sentCount e id k (fired w))).
Proof.
  unfold identityStep. destruct entry as [e' rems]. simpl.
  destruct (variant cfg).
  - apply wp_tryCatch.
    eapply wp_mono; [apply evalIdentity_count | done | ].
    simpl. intros ex w1 (He & [_ Hne] & Hc).
    apply wp_modify. split; [eapply evolves_trans; [exact He | apply evolves_console]|].
    unfold hitIdentity. simpl. rewrite (foreign_zero e' _ Hne). split; [lia | lia].
  - eapply wp_mono; [apply evalIdentity_count | done | ].
    simpl. intros ex w1 (He & [Hbad _] & Hc). done.
Qed.

Lemma cronTick_count t w :
  now = tokyoNow (hostOffset cfg) t ->
  wp (cronTick cfg o t) w
     (fun _ w' =>
        evolves cfg w w' /\
        sentCount e id k (fired w') =
          (sentCount e id k (fired w)
           + hitsTable cfg (line_links w) now e id k (reminders w))%nat /\
        ((0 < hitsTable cfg (line_links w) now e id k (reminders w))%nat ->
         sentAll (reminders w') e id k))
     (fun _ _ => dbFails o /\ variant cfg = Variant2).
Proof.
  intros Hnow. unfold cronTick. rewrite <- Hnow.
  apply (wp_bind (log LogCronStarted)). apply wp_modify.
  apply (wp_bind (modify (with_pendingLinks (sweepExpired t)))). apply wp_modify.
  apply (wp_bind (dbGetReminders o)).
  unfold dbGetReminders. apply wp_dbCall; [intros _ | rewrite Hok; done].
  apply wp_gets. simpl.
  set (w1 := next_io (with_pendingLinks (sweepExpired t)
                        (with_console (fun c => c ++ [LogCronStarted]) w))).
  assert (H01 : evolves cfg w w1).
  { eapply evolves_trans; [apply evolves_console|].
    eapply evolves_trans; [apply evolves_pendingLinks|]. apply evolves_next_io. }
  destruct (reminders w) as [|x l] eqn:Hrem.
  - apply wp_ret. split; [exact H01|]. simpl. split; lia.
  - pose proof (forEach_acc (evolves cfg)
                  (fun w' => line_links w' = line_links w)
                  (fun w' => sentAll (reminders w') e id k)
                  (fun w' => sentCount e id k (fired w'))
                  (hitIdentity cfg (line_links w) now e id k)
                  (identityStep cfg o now)
                  (x :: l) (dbFails o /\ variant cfg = Variant2) False
                  (evolves_refl cfg) (evolves_trans cfg)) as Hloop.
    eapply wp_mono; [apply Hloop with (w := w1) | | ].
    + intros w2 w3 (_ & Hl & _) Hi. congruence.
    + intros w2 w3 (Ht & _) Hs. eapply sentAll_raised; eauto.
    + intros _ [].
    + intros entry w2 _ Hl.
      eapply wp_mono; [apply identityStep_count | | done].
      simpl. rewrite Hl. done.
    + done.
    + simpl. intros _ w2 (He & Hc & Hs).
      split; [exact (evolves_trans cfg _ _ _ H01 He)|].
      unfold hitsTable. split; [exact Hc | exact Hs].
    + simpl. intros _ w2 (_ & HZ & _). exact HZ.
Qed.

End TickCount.

(* ================================================================== *)
(** * One record per key *)
(* ================================================================== *)

Lemma In_key {V} (i : string) (v : V) l : In (i, v) l -> In i (map fst l).
Proof. intros H. apply in_map_iff. exists (i, v). auto. Qed.

Lemma hitsReminders_absent cfg now id k rs :
  ~ In id (map fst rs) -> hitsReminders cfg now id k rs = 0%nat.
Proof.
  unfold hitsReminders. induction rs as [|[i r] rs IH]; simpl; intros Hn; [done|].
  rewrite IH by tauto. unfold hitReminder. simpl.
  destruct (String.eqb i id) eqn:Hi; [|done].
  apply String.eqb_eq in Hi. tauto.
Qed.

Lemma hitsReminders_unique cfg now id k rs r :
  NoDup (map fst rs) -> In (id, r) rs ->
  hitsReminders cfg now id k rs = if triggers cfg k now r then 1%nat else 0%nat.
Proof.
  unfold hitsReminders. induction rs as [|[i r0] rs IH]; simpl; intros Hnd Hin; [done|].
  apply NoDup_cons in Hnd as [Hni Hnd]. rewrite list_elem_of_In in Hni.
  destruct Hin as [Heq | Hin].
  - injection Heq as -> ->.
    fold (hitsReminders cfg now id k rs). rewrite hitsReminders_absent by done.
    unfold hitReminder. simpl. rewrite String.eqb_refl. simpl.
    destruct (triggers cfg k now r); lia.
  - rewrite IH by done. unfold hitReminder. simpl.
    destruct (String.eqb i id) eqn:Hi; [|done].
    apply String.eqb_eq in Hi. subst i. apply In_key in Hin. tauto.
Qed.

Lemma hitsTable_absent cfg links now e id k t :
  ~ In e (map fst t) -> hitsTable cfg links now e id k t = 0%nat.
Proof.
  unfold hitsTable. induction t as [|[e' rs] t IH]; simpl; intros Hn; [done|].
  rewrite IH by tauto. unfold hitIdentity. simpl.
  destruct (String.eqb e' e) eqn:He; [|done].
  apply String.eqb_eq in He. tauto.
Qed.

Lemma hitsTable_unique cfg links now e id k t rs :
  NoDup (map fst t) -> In (e, rs) t ->
  hitsTable cfg links now e id k t =
  match links !! e with
  | Some _ => hitsReminders cfg now id k rs
  | None => 0%nat
  end.
Proof.
  unfold hitsTable. induction t as [|[e' rs'] t IH]; simpl; intros Hnd Hin; [done|].
  apply NoDup_cons in Hnd as [Hni Hnd]. rewrite list_elem_of_In in Hni.
  destruct Hin as [Heq | Hin].
  - injection Heq as -> ->.
    fold (hitsTable cfg links now e id k t). rewrite hitsTable_absent by done.
    unfold hitIdentity. simpl. rewrite String.eqb_refl. lia.
  - rewrite IH by done. unfold hitIdentity. simpl.
    destruct (String.eqb e' e) eqn:He; [|done].
    apply String.eqb_eq in He. subst e'. apply In_key in Hin. tauto.
Qed.

Lemma hitsTable_held cfg now k w e id r :
  holdsReminder w e id r ->
  hitsTable cfg (line_links w) now e id k (reminders w) =
  if triggers cfg k now r then 1%nat else 0%nat.
Proof.
  intros ([Hnd Hin] & (rs & He & Hr) & [link Hlink]).
  rewrite (hitsTable_unique _ _ _ _ _ _ _ rs Hnd He), Hlink.
  apply hitsReminders_unique; eauto.
Qed.

Lemma remsRaised_In_fwd rs rs' i r :
  remsRaised rs rs' -> In (i, r) rs -> exists r', In (i, r') rs' /\ raised r r'.
Proof.
  induction 1 as [|[i1 r1] [i2 r2] l l' [Hk Hr] _ IH]; simpl; intros Hin; [done|].
  simpl in Hk. destruct Hin as [Heq | Hin].
  - injection Heq as <- <-. subst. eauto.
  - destruct (IH Hin) as (r' & ? & ?). eauto.
Qed.

Lemma tableRaised_In_fwd t t' e rs :
  tableRaised t t' -> In (e, rs) t -> exists rs', In (e, rs') t' /\ remsRaised rs rs'.
Proof.
  induction 1 as [|[e1 r1] [e2 r2] l l' [Hk Hr] _ IH]; simpl; intros Hin; [done|].
  simpl in Hk. destruct Hin as [Heq | Hin].
  - injection Heq as <- <-. subst. eauto.
  - destruct (IH Hin) as (r' & ? & ?). eauto.
Qed.

(** A record that the evaluator has passed over is still there, with
    the same content and sent flags that can only have gone up. *)
Lemma holdsReminder_evolves cfg w w' e id r :
  evolves cfg w w' -> holdsReminder w e id r ->
  exists r', holdsReminder w' e id r' /\ raised r r'.
Proof.
  intros (Ht & Hl & _) (Hwk & (rs & He & Hr) & Hlink).
  destruct (tableRaised_In_fwd _ _ _ _ Ht He) as (rs' & He' & Hrs).
  destruct (remsRaised_In_fwd _ _ _ _ Hrs Hr) as (r' & Hr' & Hraised).
  exists r'. split; [|done].
  split; [eapply wellKeyed_raised; eauto|]. split; [eauto|]. now rewrite Hl.
Qed.


(* ================================================================== *)
(** * Effect of one tick on one notification *)
(* ================================================================== *)

Lemma tick_effect cfg o t w e id r k :
  tickOk cfg o e -> holdsReminder w e id r ->
  let now := tokyoNow (hostOffset cfg) t in
  let w' := (cronTick cfg o t w).2 in
  (cronTick cfg o t w).1 = Ret tt /\
  evolves cfg w w' /\
  sentCount e id k (fired w') =
    (sentCount e id k (fired w) + if triggers cfg k now r then 1 else 0)%nat /\
  (triggers cfg k now r = true -> sentAll (reminders w') e id k).
Proof.
  intros [Hok Hv2] Hheld now w'.
  pose proof (cronTick_count cfg o now e id k Hok t w eq_refl) as Hwp.
  unfold wp in Hwp. subst w'.
  destruct (cronTick cfg o t w) as [[[]|ex] w1].
  2: { destruct Hwp as [(n & op & Hbad) Hv]. rewrite (Hv2 Hv) in Hbad. done. }
  simpl.
  destruct Hwp as (He & Hc & Hs).
  rewrite (hitsTable_held cfg now k w e id r Hheld) in Hc, Hs.
  split; [done|]. split; [done|]. split; [done|].
  intros Ht. apply Hs. rewrite Ht. lia.
Qed.



(* ================================================================== *)
(** * The three triggers *)
(* ================================================================== *)

Lemma firesIn_triggers cfg o t w e id r k :
  tickOk cfg o e -> holdsReminder w e id r ->
  (firesIn cfg o t w e id k <-> triggers cfg k (tokyoNow (hostOffset cfg) t) r = true).
Proof.
  intros Hok Hheld. unfold firesIn.
  destruct (tick_effect cfg o t w e id r k Hok Hheld) as (_ & _ & Hc & _).
  rewrite Hc. destruct (triggers cfg k (tokyoNow (hostOffset cfg) t) r); split; intros; lia || done.
Qed.

Lemma triggers_exact cfg now r :
  exactSent r = false ->
  (triggers cfg Exact now r = true <->
   exists n ev, now = Some n /\ parseTimeISO (hostOffset cfg) (timeISO r) = Some ev /\
                0 <= n - ev < 10 * 60 * 1000).
Proof.
  intros Hs. unfold triggers, enabled, sentFlag, due. rewrite Hs. simpl.
  destruct now as [n|], (parseTimeISO (hostOffset cfg) (timeISO r)) as [ev|]; simpl.
  - rewrite andb_true_iff, Z.leb_le, Z.ltb_lt. split.
    + intros [H1 H2]. exists n, ev. repeat split; auto; lia.
    + intros (n' & ev' & Hn & Hev & H). injection Hn as <-. injection Hev as <-. lia.
  - split; [done|]. intros (? & ? & ? & ? & ?). done.
  - split; [done|]. intros (? & ? & ? & ? & ?). done.
  - split; [done|]. intros (? & ? & ? & ? & ?). done.
Qed.

Lemma triggers_morning cfg now r :
  morning r = true -> morningSent r = false ->
  (triggers cfg Morning now r = true <->
   exists n ev, now = Some n /\ parseTimeISO (hostOffset cfg) (timeISO r) = Some ev /\
                localTime (hostOffset cfg) ev / msPerDay * msPerDay + 8 * msPerHour
                <= localTime (hostOffset cfg) n).
Proof.
  intros Hm Hs. unfold triggers, enabled, sentFlag, due. rewrite Hm, Hs. simpl.
  destruct now as [n|], (parseTimeISO (hostOffset cfg) (timeISO r)) as [ev|]; simpl.
  - rewrite Z.leb_le. unfold localTime. split.
    + intros H. exists n, ev. repeat split; auto. lia.
    + intros (n' & ev' & Hn & Hev & H). injection Hn as <-. injection Hev as <-. lia.
  - split; [done|]. intros (? & ? & ? & ? & ?). done.
  - split; [done|]. intros (? & ? & ? & ? & ?). done.
  - split; [done|]. intros (? & ? & ? & ? & ?). done.
Qed.

Lemma exWorld_holds_a : holdsReminder exWorld "a@x_com" "r1" exReminder.
Proof.
  split; [split|split].
  - simpl. apply (bool_decide_unpack _). vm_compute. reflexivity.
  - intros e rs [H|[H|[]]]; injection H as <- <-; simpl;
      apply (bool_decide_unpack _); vm_compute; reflexivity.
  - exists [("r1", exReminder)]. simpl. auto.
  - vm_compute. eauto.
Qed.

Lemma exWorld_holds_b : holdsReminder exWorld "b@x_com" "r2" exReminder.
Proof.
  split; [split|split].
  - simpl. apply (bool_decide_unpack _). vm_compute. reflexivity.
  - intros e rs [H|[H|[]]]; injection H as <- <-; simpl;
      apply (bool_decide_unpack _); vm_compute; reflexivity.
  - exists [("r2", exReminder)]. simpl. auto.
  - vm_compute. eauto.
Qed.

Lemma allGood_tickOk cfg e : tickOk cfg allGood e.
Proof. split; [intros n op _; reflexivity | intros _ n op; reflexivity]. Qed.



(* ================================================================== *)
(** * The host's time zone *)
(* ================================================================== *)

(** For a reminder whose [timeISO] has no zone designator every test
    reads the same on every host. *)
Lemma triggers_civil_any_host v tok sec off1 off2 k t r :
  (forall i, timeISO r <> Instant i) ->
  triggers {| variant := v; LINE_TOKEN := tok; LINE_SECRET := sec; hostOffset := off1 |}
           k (tokyoNow off1 t) r
  = triggers {| variant := v; LINE_TOKEN := tok; LINE_SECRET := sec; hostOffset := off2 |}
             k (tokyoNow off2 t) r.
Proof.
  intros Hciv. unfold triggers. f_equal.
  unfold due, tokyoNow, parseLocaleString. simpl.
  destruct (timeISO r) as [i|c|]; [now destruct (Hciv i) | |].
  - destruct k; simpl; unfold localTime.
    + replace (c - off1 + off1) with c by lia. replace (c - off2 + off2) with c by lia.
      apply eq_true_iff_eq. rewrite !Z.leb_le. lia.
    + apply eq_true_iff_eq. rewrite !Z.leb_le. lia.
    + apply eq_true_iff_eq. rewrite !andb_true_iff, !Z.leb_le, !Z.ltb_lt. lia.
  - destruct k; reflexivity.
Qed.

(** C3.  The claim fails on the code for a reminder whose [timeISO]
    names an instant: at the instant of the event, with an unsent exact
    notification, a host in Tokyo's zone fires it and a host on UTC does
    not, because [now] is then nine hours ahead of the instant. *)
Theorem host_zone_changes_triggers :
  tokyoNow tokyoOffset exInstant = Some exInstant /\
  tokyoNow 0 exInstant = Some (exInstant + 9 * msPerHour) /\
  firesIn (exConfig Variant2 tokyoOffset) allGood exInstant exWorld "a@x_com" "r1" Exact /\
  ~ firesIn (exConfig Variant2 0) allGood exInstant exWorld "a@x_com" "r1" Exact /\
  firesIn (exConfig Variant1 tokyoOffset) allGood exInstant exWorld "a@x_com" "r1" Exact /\
  ~ firesIn (exConfig Variant1 0) allGood exInstant exWorld "a@x_com" "r1" Exact.
Proof.
  repeat split; try (vm_compute; reflexivity);
    unfold firesIn; vm_compute; discriminate.
Qed.

(* ================================================================== *)
(** * One failing identity *)
(* ================================================================== *)

(** In variant 1 a failure while one identity is handled is caught: a
    tick returns normally and fires what is due for every identity whose
    own database calls succeed. *)
Lemma variant1_isolates_failures cfg o t w e id r k :
  variant cfg = Variant1 -> dbOkFor o e -> holdsReminder w e id r ->
  (cronTick cfg o t w).1 = Ret tt /\
  (firesIn cfg o t w e id k <-> triggers cfg k (tokyoNow (hostOffset cfg) t) r = true).
Proof.
  intros Hv Hok Hheld.
  assert (Htick : tickOk cfg o e) by (split; [done | rewrite Hv; done]).
  split.
  - apply (tick_effect cfg o t w e id r k Htick Hheld).
  - apply firesIn_triggers; done.
Qed.

(** C7.  The claim fails on variant 2, whose identity loop has no [try]:
    when the link of the first identity cannot be read, the tick is
    aborted and the due reminder of the second identity is not fired.
    Variant 1 logs the failure and fires it. *)
Theorem variant2_aborts_on_failure :
  let o := linkReadFails "a@x_com" in
  let w2 := cronTick (exConfig Variant2 tokyoOffset) o exInstant exWorld in
  let w1 := cronTick (exConfig Variant1 tokyoOffset) o exInstant exWorld in
  dbOkFor o "b@x_com" /\
  triggers (exConfig Variant2 tokyoOffset) Exact
    (tokyoNow tokyoOffset exInstant) exReminder = true /\
  w2.1 = Throw (DbError (GetLink "a@x_com")) /\
  fired w2.2 = [] /\
  w1.1 = Ret tt /\
  sentCount "b@x_com" "r2" Exact (fired w1.2) = 1%nat /\
  console w1.2 = [LogCronStarted;
                  LogProcessingError "a@x_com" (DbError (GetLink "a@x_com"))].
Proof.
  split.
  - intros n [|e'|e' i k'|e']; simpl; try done.
    intros H. apply String.eqb_eq in H. subst e'. reflexivity.
  - repeat split; vm_compute; reflexivity.
Qed.

(* ================================================================== *)
(** * The messaging gateway *)
(* ================================================================== *)

(** [sendLine] always returns normally. *)
Lemma sendLine_returns cfg o to msg w : returns (sendLine cfg o to msg) w.
Proof.
  unfold returns. eapply wp_mono; [apply sendLine_spec | done | done].
Qed.

(** Without a token both helpers of variant 2 do nothing at all. *)
Lemma gateway_noop_without_token cfg o a msg w :
  variant cfg = Variant2 -> Js.truthy (LINE_TOKEN cfg) = false ->
  sendLine cfg o a msg w = (Ret tt, w) /\ reply cfg o a msg w = (Ret tt, w).
Proof.
  intros Hv Ht. unfold sendLine, reply, tokenGuard, isVariant2. now rewrite Hv, Ht.
Qed.

(** [reply] touches nothing but the outbox; it throws exactly when
    [fetch] rejects. *)
Lemma reply_spec cfg o tok msg w :
  wp (reply cfg o tok msg) w
     (fun _ w' =>
        pendingLinks w' = pendingLinks w /\ reminders w' = reminders w /\
        line_links w' = line_links w /\ replied cfg tok msg w w')
     (fun ex w' =>
        pendingLinks w' = pendingLinks w /\ reminders w' = reminders w /\
        line_links w' = line_links w /\ replied cfg tok msg w w' /\
        ex = FetchError (ReplyReq tok msg) /\
        fetchOutcome o (ioSeq w) (ReplyReq tok msg) = NetworkError).
Proof.
  unfold wp, reply, replied. destruct (tokenGuard cfg); simpl.
  - now rewrite app_nil_r.
  - unfold mbind, M_bind, bind, fetch.
    destruct (fetchOutcome o (ioSeq w) (ReplyReq tok msg)) as [|ok rd]; simpl;
      repeat split; done.
Qed.

Lemma reply_returns_on_response cfg o tok msg w ok rd :
  fetchOutcome o (ioSeq w) (ReplyReq tok msg) = Response ok rd ->
  returns (reply cfg o tok msg) w.
Proof.
  intros Hf. unfold returns.
  eapply wp_mono; [apply reply_spec | done | ].
  simpl. intros ex w' (_ & _ & _ & _ & _ & Hn). congruence.
Qed.

(** C8.  The claim fails on the code for [reply]: with a token
    configured and the LINE API unreachable, [reply] throws what [fetch]
    threw, in both variants, where [sendLine] logs and returns; the
    webhook then ends by that exception instead of answering 200. *)
Theorem reply_propagates_transport_failure :
  (reply (exConfig Variant2 0) networkDown "rt" invalidMsg exWorld).1
    = Throw (FetchError (ReplyReq "rt" invalidMsg)) /\
  (reply (exConfig Variant1 0) networkDown "rt" invalidMsg exWorld).1
    = Throw (FetchError (ReplyReq "rt" invalidMsg)) /\
  (sendLine (exConfig Variant2 0) networkDown "U1" invalidMsg exWorld).1 = Ret tt /\
  console (sendLine (exConfig Variant2 0) networkDown "U1" invalidMsg exWorld).2
    = [LogPushError (FetchError (PushReq "U1" invalidMsg))] /\
  (webhook toyHmac (exConfig Variant2 0) networkDown exInstant
     (exRequest [exTextEvent "LINK 000000"]) exWorld).1
    = Throw (FetchError (ReplyReq "rt" invalidMsg)).
Proof.
  repeat split; vm_compute; reflexivity.
Qed.

(* ================================================================== *)
(** * The signature check *)
(* ================================================================== *)

Section Signature.

Variable hmac : string -> string -> string.

(** Variant 2 fails closed without a secret, and otherwise accepts
    exactly the signature that is the keyed hash of the raw body. *)
Lemma verifySignature_variant2 cfg req :
  variant cfg = Variant2 ->
  (Js.truthy (LINE_SECRET cfg) = false -> verifySignature hmac cfg req = Ret false) /\
  (forall secret body,
     LINE_SECRET cfg = Some secret -> secret <> EmptyString -> rawBody req = Some body ->
     exists b, verifySignature hmac cfg req = Ret b /\
               (b = true <-> x_line_signature req = Some (hmac secret body))).
Proof.
  intros Hv. unfold verifySignature, isVariant2. rewrite Hv. simpl. split.
  - intros Ht. now rewrite Ht.
  - intros secret body Hs Hne Hb. rewrite Hs, Hb. simpl.
    destruct (String.eqb secret EmptyString) eqn:He;
      [apply String.eqb_eq in He; done|]. simpl.
    destruct (x_line_signature req) as [sig|].
    + eexists. split; [reflexivity|]. rewrite String.eqb_eq. split; congruence.
    + exists false. split; [reflexivity|]. split; discriminate.
Qed.

(** A signature made for another body is refused unless the two bodies
    have the same keyed hash. *)
Lemma verifySignature_other_body cfg secret body body' evs :
  variant cfg = Variant2 -> LINE_SECRET cfg = Some secret -> secret <> EmptyString ->
  hmac secret body' <> hmac secret body ->
  verifySignature hmac cfg
    {| x_line_signature := Some (hmac secret body); rawBody := Some body'; events := evs |}
  = Ret false.
Proof.
  intros Hv Hs Hne Hdiff.
  destruct (verifySignature_variant2 cfg
              {| x_line_signature := Some (hmac secret body); rawBody := Some body';
                 events := evs |} Hv) as [_ H].
  destruct (H secret body' Hs Hne eq_refl) as (b & Hb & Hiff).
  rewrite Hb. destruct b; [|done].
  destruct Hiff as [Hiff _]. specialize (Hiff eq_refl). simpl in Hiff. congruence.
Qed.

(** C6.  The claim fails on variant 1, which has no guard on the secret:
    without a secret [createHmac] throws, and with an empty secret the
    signature made with the empty key is accepted. *)
Theorem variant1_signature_check_open req body evs :
  verifySignature hmac (bareConfig Variant1) req = Throw TypeError /\
  verifySignature hmac
    {| variant := Variant1; LINE_TOKEN := None; LINE_SECRET := Some EmptyString;
       hostOffset := 0 |}
    {| x_line_signature := Some (hmac EmptyString body); rawBody := Some body;
       events := evs |}
  = Ret true.
Proof.
  split; [reflexivity|]. unfold verifySignature. simpl. now rewrite String.eqb_refl.
Qed.

End Signature.

(* ================================================================== *)
(** * The webhook *)
(* ================================================================== *)

Lemma validRecord_Some pl code dateNow record :
  validRecord pl code dateNow = Some record <->
  pl !! code = Some record /\ dateNow < expires record.
Proof.
  unfold validRecord. destruct (pl !! code) as [r|]; [|split; [done | intros [? _]; done]].
  destruct (dateNow <? expires r) eqn:Hlt.
  - apply Z.ltb_lt in Hlt. split; [intros [= <-]; done | intros [[= <-] _]; done].
  - apply Z.ltb_ge in Hlt. split; [done | intros [[= <-] ?]; lia].
Qed.

Lemma validRecord_None pl code dateNow :
  validRecord pl code dateNow = None <->
  pl !! code = None \/ exists record, pl !! code = Some record /\ expires record <= dateNow.
Proof.
  unfold validRecord. destruct (pl !! code) as [r|]; [|split; auto].
  destruct (dateNow <? expires r) eqn:Hlt.
  - apply Z.ltb_lt in Hlt. split; [done|]. intros [?|(r' & [= <-] & ?)]; [done | lia].
  - apply Z.ltb_ge in Hlt. split; [|done]. intros _. right. eauto.
Qed.

Section Webhook.

Variable hmac : string -> string -> string.
Variable cfg : Config.

Lemma webhook_link o dateNow req ev code w :
  linkRequest hmac cfg req ev code ->
  webhook hmac cfg o dateNow req w =
  (redeem cfg o dateNow (e_userId ev) (e_replyToken ev) code;; ret (SendStatus 200)) w.
Proof.
  intros (Hsig & Hev & Hty & m & Hm & Hmt & Hcode).
  unfold webhook. rewrite Hsig, Hev, Hty, Hm, Hmt, Hcode. reflexivity.
Qed.

(** The three ways through the redemption block. *)
Lemma redeem_found o dateNow uid tok code w record :
  validRecord (pendingLinks w) code dateNow = Some record ->
  dbOk o (ioSeq w) (SetLink (Js.replaceDots (email record))) = true ->
  let w' := (redeem cfg o dateNow uid tok code w).2 in
  pendingLinks w' = delete code (pendingLinks w) /\
  line_links w' = <[Js.replaceDots (email record) :=
                      {| lineUserId := uid; linkedAt := dateNow |}]> (line_links w) /\
  reminders w' = reminders w /\
  replied cfg tok (linkedMsg (email record)) w w'.
Proof.
  intros Hv Hdb. unfold redeem, mbind, M_bind, bind, gets. simpl. rewrite Hv.
  unfold dbSetLink, dbCall, modify. rewrite Hdb. simpl.
  match goal with |- context [reply cfg o tok ?m ?x] =>
    pose proof (reply_spec cfg o tok m x) as Hr; unfold wp in Hr;
    destruct (reply cfg o tok m x) as [[[]|ex] w1] end; simpl;
    unfold replied in *; simpl in *; intuition congruence.
Qed.

Lemma redeem_not_found o dateNow uid tok code w :
  validRecord (pendingLinks w) code dateNow = None ->
  let w' := (redeem cfg o dateNow uid tok code w).2 in
  pendingLinks w' = pendingLinks w /\ line_links w' = line_links w /\
  reminders w' = reminders w /\ replied cfg tok invalidMsg w w'.
Proof.
  intros Hv. unfold redeem, mbind, M_bind, bind, gets. simpl. rewrite Hv.
  pose proof (reply_spec cfg o tok invalidMsg w) as Hr. unfold wp in Hr.
  destruct (reply cfg o tok invalidMsg w) as [[[]|ex] w1]; simpl; intuition congruence.
Qed.

Lemma redeem_store_fails o dateNow uid tok code w record :
  validRecord (pendingLinks w) code dateNow = Some record ->
  dbOk o (ioSeq w) (SetLink (Js.replaceDots (email record))) = false ->
  redeem cfg o dateNow uid tok code w =
  (Throw (DbError (SetLink (Js.replaceDots (email record)))), next_io w).
Proof.
  intros Hv Hdb. unfold redeem, mbind, M_bind, bind, gets. simpl. rewrite Hv.
  unfold dbSetLink, dbCall. now rewrite Hdb.
Qed.

Lemma bind_snd {A B} (m : M A) (b : B) w : ((m;; ret b) w).2 = (m w).2.
Proof.
  unfold mbind, M_bind, bind, ret. now destruct (m w) as [[a|ex] w'].
Qed.

(** C5.  A webhook message [LINK code] redeems the code if and only if
    the registry holds an entry for it with [now < expires]: the link
    record is then stored under the sanitised email with the sender's
    user id, the entry is removed, and the reply names the email (given
    that the store write succeeds).  Otherwise nothing is stored or
    removed and the reply is the same message whether the code was never
    issued or has expired.  For a code just issued: it is valid one
    millisecond before its expiry and no longer once removed, and it is
    invalid one millisecond after its expiry. *)
Theorem redeem_iff_present_and_unexpired o dateNow req ev code w :
  linkRequest hmac cfg req ev code ->
  let w' := (webhook hmac cfg o dateNow req w).2 in
  let tok := e_replyToken ev in
  (forall record,
     validRecord (pendingLinks w) code dateNow = Some record <->
     pendingLinks w !! code = Some record /\ dateNow < expires record) /\
  (forall record,
     validRecord (pendingLinks w) code dateNow = Some record ->
     dbOk o (ioSeq w) (SetLink (Js.replaceDots (email record))) = true ->
     pendingLinks w' = delete code (pendingLinks w) /\
     line_links w' = <[Js.replaceDots (email record) :=
                         {| lineUserId := e_userId ev; linkedAt := dateNow |}]>
                       (line_links w) /\
     replied cfg tok (linkedMsg (email record)) w w' /\
     forall later, validRecord (pendingLinks w') code later = None) /\
  (validRecord (pendingLinks w) code dateNow = None ->
     pendingLinks w' = pendingLinks w /\ line_links w' = line_links w /\
     replied cfg tok invalidMsg w w') /\
  (forall em draw issuedAt w0,
     Js.truthy (Some em) = true ->
     let w1 := (requestLineToken (Some em) draw issuedAt w0).2 in
     let c := pretty draw in
     let exp := issuedAt + 5 * 60 * 1000 in
     validRecord (pendingLinks w1) c (exp - 1) = Some {| email := em; expires := exp |} /\
     validRecord (delete c (pendingLinks w1)) c (exp - 1) = None /\
     validRecord (pendingLinks w1) c (exp + 1) = None).
Proof.
  intros Hreq w' tok. subst w' tok.
  rewrite (webhook_link o dateNow req ev code w Hreq), bind_snd.
  split; [intros; apply validRecord_Some|]. split; [|split].
  - intros record Hv Hdb.
    destruct (redeem_found o dateNow (e_userId ev) (e_replyToken ev) code w record Hv Hdb)
      as (Hp & Hl & _ & Hr).
    repeat split; auto.
    intros later. unfold validRecord. rewrite Hp. now rewrite lookup_delete_eq.
  - intros Hv.
    destruct (redeem_not_found o dateNow (e_userId ev) (e_replyToken ev) code w Hv)
      as (Hp & Hl & _ & Hr). auto.
  - intros em draw issuedAt w0 Hem w1 c exp. subst w1.
    unfold requestLineToken. rewrite Hem. simpl.
    unfold validRecord. rewrite lookup_insert_eq, lookup_delete_eq. simpl.
    fold exp.
    destruct (exp - 1 <? exp) eqn:H1; [|apply Z.ltb_ge in H1; lia].
    destruct (exp + 1 <? exp) eqn:H2; [apply Z.ltb_lt in H2; lia|]. done.
Qed.

(** C9.  A signed request whose first event is missing, is not a message
    event, or is a message that is not text, is answered 200 and leaves
    the world as it was: no reply, no change of the registry, no link
    record. *)
Theorem non_text_event_discarded o dateNow req w :
  verifySignature hmac cfg req = Ret true ->
  notTextMessage (events req ≫= head) ->
  webhook hmac cfg o dateNow req w = (Ret (SendStatus 200), w).
Proof.
  intros Hsig Hnt. unfold webhook. rewrite Hsig.
  destruct (events req ≫= head) as [ev|]; [|done].
  destruct Hnt as [Hty | (m & Hm & Hmt)].
  - apply String.eqb_neq in Hty. now rewrite Hty.
  - destruct (String.eqb (e_type ev) "message"); [|done]. simpl.
    rewrite Hm. apply String.eqb_neq in Hmt. now rewrite Hmt.
Qed.

(** A message event without its message object is outside the schema of
    the platform; the guard throws on it. *)
Lemma message_event_without_message o dateNow req ev w :
  verifySignature hmac cfg req = Ret true ->
  events req ≫= head = Some ev -> e_type ev = "message" -> e_message ev = None ->
  webhook hmac cfg o dateNow req w = (Throw TypeError, w).
Proof.
  intros Hsig Hev Hty Hm. unfold webhook. now rewrite Hsig, Hev, Hty, Hm.
Qed.

(** C10.  When the write of the link record fails, the webhook ends by
    that exception before it deletes anything: the registry, the links
    and the outbox are as before, the code is still valid until it
    expires, and a later request whose write succeeds redeems it. *)
Theorem link_kept_when_store_write_fails o dateNow req ev code w record :
  linkRequest hmac cfg req ev code ->
  validRecord (pendingLinks w) code dateNow = Some record ->
  dbOk o (ioSeq w) (SetLink (Js.replaceDots (email record))) = false ->
  let res := webhook hmac cfg o dateNow req w in
  res.1 = Throw (DbError (SetLink (Js.replaceDots (email record)))) /\
  pendingLinks res.2 = pendingLinks w /\
  line_links res.2 = line_links w /\
  outbox res.2 = outbox w /\
  (forall later, later < expires record ->
     validRecord (pendingLinks res.2) code later = Some record) /\
  (forall o' later,
     later < expires record ->
     dbOk o' (ioSeq res.2) (SetLink (Js.replaceDots (email record))) = true ->
     let w'' := (webhook hmac cfg o' later req res.2).2 in
     pendingLinks w'' = delete code (pendingLinks w) /\
     line_links w'' = <[Js.replaceDots (email record) :=
                          {| lineUserId := e_userId ev; linkedAt := later |}]>
                        (line_links w)).
Proof.
  intros Hreq Hv Hdb res. subst res.
  assert (Hres : webhook hmac cfg o dateNow req w =
                 (Throw (DbError (SetLink (Js.replaceDots (email record)))), next_io w)).
  { rewrite (webhook_link o dateNow req ev code w Hreq).
    unfold mbind, M_bind, bind.
    now rewrite (redeem_store_fails o dateNow (e_userId ev) (e_replyToken ev)
                   code w record Hv Hdb). }
  rewrite Hres. simpl.
  assert (Hlater : forall later, later < expires record ->
            validRecord (pendingLinks (next_io w)) code later = Some record).
  { intros later Hl. apply validRecord_Some. apply validRecord_Some in Hv.
    simpl. tauto. }
  split; [done|]. split; [done|]. split; [done|]. split; [done|].
  split; [exact Hlater|].
  intros o' later Hl Hdb'.
  rewrite (webhook_link o' later req ev code _ Hreq), bind_snd.
  destruct (redeem_found o' later (e_userId ev) (e_replyToken ev) code _ record
              (Hlater later Hl) Hdb') as (Hp & Hk & _).
  split; [exact Hp | exact Hk].
Qed.

End Webhook.

(* ================================================================== *)
(** * The theorems at work *)
(* ================================================================== *)

Lemma exLink_request :
  linkRequest toyHmac (exConfig Variant2 0)
    (exRequest [exTextEvent "link 123456 "]) (exTextEvent "link 123456 ") "123456".
Proof.
  split; [reflexivity|]. split; [reflexivity|]. split; [reflexivity|].
  eexists. split; [reflexivity|]. split; [reflexivity|]. vm_compute. reflexivity.
Qed.

Lemma redeem_iff_present_and_unexpired_witness :
  let w' := (webhook toyHmac (exConfig Variant2 0) allGood (exInstant + 299999)
               (exRequest [exTextEvent "link 123456 "]) exIssued).2 in
  pendingLinks w' = delete "123456" (pendingLinks exIssued) /\
  line_links w' = <["a@x_com" := {| lineUserId := "U9"; linkedAt := exInstant + 299999 |}]>
                    (line_links exIssued) /\
  replied (exConfig Variant2 0) "rt" (linkedMsg "a@x.com") exIssued w' /\
  forall later, validRecord (pendingLinks w') "123456" later = None.
Proof.
  intros w'. subst w'.
  pose proof (proj1 (proj2 (redeem_iff_present_and_unexpired toyHmac (exConfig Variant2 0)
           allGood (exInstant + 299999) (exRequest [exTextEvent "link 123456 "])
           (exTextEvent "link 123456 ") "123456" exIssued exLink_request))
           {| email := "a@x.com"; expires := exInstant + 300000 |}) as H.
  assert (Hv : validRecord (pendingLinks exIssued) "123456" (exInstant + 299999)
               = Some {| email := "a@x.com"; expires := exInstant + 300000 |})
    by (vm_compute; reflexivity).
  exact (H Hv eq_refl).
Defined.

Lemma non_text_event_discarded_witness :
  webhook toyHmac (exConfig Variant2 0) allGood exInstant
    (exRequest [exStickerEvent]) exIssued
  = (Ret (SendStatus 200), exIssued).
Proof.
  apply (non_text_event_discarded toyHmac (exConfig Variant2 0) allGood exInstant
           (exRequest [exStickerEvent]) exIssued).
  - reflexivity.
  - right. eexists. split; [reflexivity|]. discriminate.
Defined.

Lemma link_kept_when_store_write_fails_witness :
  let res := webhook toyHmac (exConfig Variant2 0) storeDown (exInstant + 1000)
               (exRequest [exTextEvent "link 123456 "]) exIssued in
  res.1 = Throw (DbError (SetLink "a@x_com")) /\
  pendingLinks res.2 = pendingLinks exIssued /\
  validRecord (pendingLinks res.2) "123456" (exInstant + 2000)
  = Some {| email := "a@x.com"; expires := exInstant + 300000 |}.
Proof.
  intros res. subst res.
  assert (Hv : validRecord (pendingLinks exIssued) "123456" (exInstant + 1000)
               = Some {| email := "a@x.com"; expires := exInstant + 300000 |})
    by (vm_compute; reflexivity).
  destruct (link_kept_when_store_write_fails toyHmac (exConfig Variant2 0) storeDown
              (exInstant + 1000) (exRequest [exTextEvent "link 123456 "])
              (exTextEvent "link 123456 ") "123456" exIssued
              {| email := "a@x.com"; expires := exInstant + 300000 |}
              exLink_request Hv eq_refl)
    as (Hthrow & Hreg & _ & _ & Hvalid & _).
  split; [exact Hthrow|]. split; [exact Hreg|]. apply Hvalid. vm_compute. reflexivity.
Defined.

(* ================================================================== *)
(** * What the evaluator leaves alone *)
(* ================================================================== *)

Lemma cronTick_unfold cfg o t w :
  cronTick cfg o t w =
  (dbGetReminders o ≫= fun remindersByUser =>
     match remindersByUser with
     | [] => ret tt
     | _ => forEach remindersByUser (identityStep cfg o (tokyoNow (hostOffset cfg) t))
     end)
    (with_pendingLinks (sweepExpired t)
       (with_console (fun c => c ++ [LogCronStarted]) w)).
Proof. reflexivity. Qed.

(** A relation on worlds that the steps of the evaluator respect for the
    identities in [P], and the whole body of the identity loop for the
    others, is respected by the loop over the table. *)
Section Frame.

Variable cfg : Config.
Variable o : Oracle.
Variable R : World -> World -> Prop.
Variable P : string -> Prop.

Hypothesis R_refl : forall w, R w w.
Hypothesis R_trans : forall w1 w2 w3, R w1 w2 -> R w2 w3 -> R w1 w3.
Hypothesis R_io : forall w, R w (next_io w).
Hypothesis R_console : forall f w, R w (with_console f w).
Hypothesis R_outbox : forall f w, R w (with_outbox f w).
Hypothesis R_fired : forall e id k to msg w,
  P e ->
  R w (with_fired (fun l => l ++ [{| f_email := e; f_id := id; f_kind := k;
                                     f_to := to; f_msg := msg |}]) w).
Hypothesis R_flag : forall e id k w,
  P e -> R w (with_reminders (setFlagAt e id k) w).
Hypothesis P_dec : forall e, P e \/ ~ P e.
Hypothesis R_other : forall now e rems,
  ~ P e -> stable R (evalIdentity cfg o now e rems).

Lemma frame_fetch req : stable R (fetch o req).
Proof.
  intros w. unfold fetch.
  destruct (fetchOutcome o (ioSeq w) req); simpl;
    (eapply R_trans; [apply R_outbox | apply R_io]).
Qed.

Lemma frame_sendLine to msg : stable R (sendLine cfg o to msg).
Proof.
  unfold sendLine. destruct (tokenGuard cfg); [apply (stable_ret R R_refl)|].
  apply (stable_tryCatch R R_trans).
  - apply (stable_bind R R_trans); [apply frame_fetch|].
    intros [ok rd]. destruct (negb ok); [|apply (stable_ret R R_refl)].
    destruct rd; [apply stable_modify; intros w; apply R_console|].
    apply (stable_throw R R_refl).
  - intros ex. apply stable_modify. intros w. apply R_console.
Qed.

Lemma frame_fire e id k to msg :
  P e -> stable R (notify cfg o e id k to msg;; dbSetFlag o e id k).
Proof.
  intros HP. apply (stable_bind R R_trans).
  - unfold notify. apply (stable_bind R R_trans).
    + apply stable_modify. intros w. now apply R_fired.
    + intros _. apply frame_sendLine.
  - intros _. unfold dbSetFlag. apply (stable_dbCall R R_trans); [exact R_io|].
    apply stable_modify. intros w. now apply R_flag.
Qed.

Lemma frame_evalReminder now e to id r :
  P e -> stable R (evalReminder cfg o now e to id r).
Proof.
  intros HP. unfold evalReminder. cbv zeta.
  apply (stable_bind R R_trans); [|intros _; apply (stable_bind R R_trans); [|intros _]];
    repeat match goal with
           | |- stable _ (if ?c then _ else _) => destruct c
           end;
    first [now apply frame_fire | apply (stable_ret R R_refl)].
Qed.

Lemma frame_identityStep now entry : stable R (identityStep cfg o now entry).
Proof.
  assert (Hid : stable R (evalIdentity cfg o now entry.1 entry.2)).
  { destruct (P_dec entry.1) as [HP|HP]; [|now apply R_other].
    unfold evalIdentity. apply (stable_bind R R_trans).
    - unfold dbGetLink. apply (stable_dbCall R R_trans); [exact R_io|].
      apply (stable_gets R R_refl).
    - intros [link|]; [|apply (stable_ret R R_refl)].
      apply (stable_forEach R R_refl R_trans).
      intros [id r] _. now apply frame_evalReminder. }
  unfold identityStep. destruct (variant cfg); [|exact Hid].
  apply (stable_tryCatch R R_trans); [exact Hid|].
  intros ex. apply stable_modify. intros w. apply R_console.
Qed.

Lemma frame_loop now :
  stable R (dbGetReminders o ≫= fun remindersByUser =>
              match remindersByUser with
              | [] => ret tt
              | _ => forEach remindersByUser (identityStep cfg o now)
              end).
Proof.
  apply (stable_bind R R_trans).
  - unfold dbGetReminders. apply (stable_dbCall R R_trans); [exact R_io|].
    apply (stable_gets R R_refl).
  - intros [|x l]; [apply (stable_ret R R_refl)|].
    apply (stable_forEach R R_refl R_trans).
    intros entry _. apply frame_identityStep.
Qed.

End Frame.

Lemma registryKept_loop cfg o now :
  stable registryKept
    (dbGetReminders o ≫= fun remindersByUser =>
       match remindersByUser with
       | [] => ret tt
       | _ => forEach remindersByUser (identityStep cfg o now)
       end).
Proof.
  apply (frame_loop cfg o registryKept (fun _ => True)); unfold registryKept;
    first [ done
          | intros w1 w2 w3 [H1 H2] [H3 H4]; split; congruence
          | intros e; now left
          | intros now' e rems H; now destruct H ].
Qed.

(** X1.  Whatever the network and the database do, in both variants, a
    tick at [t] leaves in the registry exactly the pending links with
    [expires >= t], each as it was, and leaves every link record as it
    was. *)
Theorem tick_sweeps_registry_only cfg o t w :
  let w' := (cronTick cfg o t w).2 in
  line_links w' = line_links w /\
  forall code record,
    pendingLinks w' !! code = Some record <->
    pendingLinks w !! code = Some record /\ t <= expires record.
Proof.
  intros w'. subst w'. rewrite cronTick_unfold.
  destruct (registryKept_loop cfg o (tokyoNow (hostOffset cfg) t)
              (with_pendingLinks (sweepExpired t)
                 (with_console (fun c => c ++ [LogCronStarted]) w))) as [Hp Hl].
  split; [exact Hl|].
  intros code record. rewrite Hp. simpl. unfold sweepExpired.
  rewrite map_lookup_filter_Some. simpl. split; intros [H1 H2]; split; auto; lia.
Qed.

Lemma sweep_validRecord t pl code later :
  t <= later ->
  validRecord (sweepExpired t pl) code later = validRecord pl code later.
Proof.
  intros Hle. unfold validRecord.
  destruct (pl !! code) as [r|] eqn:Hr.
  - destruct (decide (expires r < t)) as [Hold|Hnew].
    + assert (Hgone : sweepExpired t pl !! code = None).
      { unfold sweepExpired. apply map_lookup_filter_None. right.
        intros x Hx. rewrite Hr in Hx. injection Hx as <-. simpl. tauto. }
      rewrite Hgone. destruct (later <? expires r) eqn:Hlt; [|done].
      apply Z.ltb_lt in Hlt. lia.
    + assert (Hkept : sweepExpired t pl !! code = Some r).
      { unfold sweepExpired. apply map_lookup_filter_Some. split; [done|]. simpl. lia. }
      now rewrite Hkept.
  - assert (Hgone : sweepExpired t pl !! code = None).
    { unfold sweepExpired. apply map_lookup_filter_None. now left. }
    now rewrite Hgone.
Qed.

(** X2.  A tick never takes away a code that can still be redeemed: for
    every code and every time [later] not before the tick, the validity
    test of the webhook gives after the tick what it gave before,
    whatever the network and the database do. *)
Theorem tick_keeps_redeemable_codes cfg o t w code later :
  t <= later ->
  validRecord (pendingLinks (cronTick cfg o t w).2) code later
  = validRecord (pendingLinks w) code later.
Proof.
  intros Hle. rewrite cronTick_unfold.
  destruct (registryKept_loop cfg o (tokyoNow (hostOffset cfg) t)
              (with_pendingLinks (sweepExpired t)
                 (with_console (fun c => c ++ [LogCronStarted]) w))) as [Hp _].
  rewrite Hp. simpl. now apply sweep_validRecord.
Qed.

Lemma tick_keeps_redeemable_codes_witness :
  validRecord (pendingLinks (cronTick (exConfig Variant2 0) storeDown
                               (exInstant + 299999) exIssued).2)
              "123456" (exInstant + 299999)
  = validRecord (pendingLinks exIssued) "123456" (exInstant + 299999).
Proof.
  apply (tick_keeps_redeemable_codes (exConfig Variant2 0) storeDown
           (exInstant + 299999) exIssued "123456" (exInstant + 299999)).
  lia.
Defined.

(** X3.  Sweeping twice is sweeping once at the later of the two times;
    in particular a second sweep at the same time changes nothing. *)
Theorem sweep_twice t1 t2 pl :
  sweepExpired t2 (sweepExpired t1 pl) = sweepExpired (Z.max t1 t2) pl /\
  sweepExpired t1 (sweepExpired t1 pl) = sweepExpired t1 pl.
Proof.
  assert (H : forall a b, sweepExpired b (sweepExpired a pl) = sweepExpired (Z.max a b) pl).
  { intros a b. apply map_eq. intros code. unfold sweepExpired.
    apply option_eq. intros r.
    rewrite !map_lookup_filter_Some. simpl. split.
    - intros [[H1 H2] H3]. split; [done|]. lia.
    - intros [H1 H2]. split; [split; [done|]|]; lia. }
  split; [apply H|]. rewrite H. now rewrite Z.max_id.
Qed.

Lemma remindersOf_setFlagAt e e' id k t :
  e' <> e -> remindersOf (setFlagAt e' id k t) e = remindersOf t e.
Proof.
  intros Hne. unfold remindersOf, setFlagAt.
  induction t as [|[e0 rs] t IH]; simpl; [done|].
  destruct (String.eqb e0 e') eqn:H0; simpl.
  - apply String.eqb_eq in H0. subst e0.
    destruct (String.eqb e' e) eqn:He; [apply String.eqb_eq in He; done|]. exact IH.
  - destruct (String.eqb e0 e); simpl; [now rewrite IH | exact IH].
Qed.

Lemma untouched_loop cfg o now e :
  stable (untouched e)
    (dbGetReminders o ≫= fun remindersByUser =>
       match remindersByUser with
       | [] => ret tt
       | _ => forEach remindersByUser (identityStep cfg o now)
       end).
Proof.
  apply (frame_loop cfg o (untouched e) (fun e' => e' <> e)); unfold untouched.
  - done.
  - intros w1 w2 w3 H1 H2 Hn. destruct (H1 Hn) as (Hl & Hr & Hc).
    assert (Hn2 : line_links w2 !! e = None) by now rewrite Hl.
    destruct (H2 Hn2) as (Hl' & Hr' & Hc').
    split; [congruence|]. split; [congruence|]. intros id k. now rewrite Hc', Hc.
  - done.
  - done.
  - done.
  - intros e' id k to msg w Hne _. split; [done|]. split; [done|].
    intros id' k'. simpl. rewrite sentCount_app. simpl.
    rewrite (foreign_firing e id' k' e' id k to msg Hne). lia.
  - intros e' id k w Hne _. split; [done|]. split; [|done].
    simpl. now apply remindersOf_setFlagAt.
  - intros e'. destruct (decide (e' = e)); [right | left]; tauto.
  - intros now' e' rems HP w Hn.
    assert (e' = e) as -> by (destruct (decide (e' = e)); tauto).
    unfold evalIdentity, dbGetLink, dbCall, mbind, M_bind, bind, gets.
    destruct (dbOk o (ioSeq w) (GetLink e)); simpl; [|done].
    now rewrite Hn.
Qed.

(** X4.  For an identity without link record, whatever the network and
    the database do and in both variants, a tick changes none of its
    reminders (no flag is set), calls [sendLine] for none of them, and
    leaves the links as they were: its notifications are still unsent
    when the identity links later. *)
Theorem unlinked_identity_untouched cfg o t w e :
  line_links w !! e = None ->
  let w' := (cronTick cfg o t w).2 in
  line_links w' = line_links w /\
  remindersOf (reminders w') e = remindersOf (reminders w) e /\
  forall id k, sentCount e id k (fired w') = sentCount e id k (fired w).
Proof.
  intros Hn w'. subst w'. rewrite cronTick_unfold.
  exact (untouched_loop cfg o (tokyoNow (hostOffset cfg) t) e
           (with_pendingLinks (sweepExpired t)
              (with_console (fun c => c ++ [LogCronStarted]) w)) Hn).
Qed.

Lemma unlinked_identity_untouched_witness :
  let w' := (cronTick (exConfig Variant1 tokyoOffset) allGood exInstant exHalfLinked).2 in
  line_links w' = line_links exHalfLinked /\
  remindersOf (reminders w') "b@x_com" = [[("r2", exReminder)]] /\
  forall id k, sentCount "b@x_com" id k (fired w')
               = sentCount "b@x_com" id k (fired exHalfLinked).
Proof.
  apply (unlinked_identity_untouched (exConfig Variant1 tokyoOffset) allGood exInstant
           exHalfLinked "b@x_com").
  vm_compute. reflexivity.
Defined.

(* ================================================================== *)
(** * More on the triggers *)
(* ================================================================== *)

Lemma triggers_oneHour cfg now r :
  oneHour r = true -> oneHourSent r = false ->
  (triggers cfg OneHour now r = true <->
   exists n ev, now = Some n /\ parseTimeISO (hostOffset cfg) (timeISO r) = Some ev /\
                ev - 60 * 60 * 1000 <= n).
Proof.
  intros Hm Hs. unfold triggers, enabled, sentFlag, due. rewrite Hm, Hs. simpl.
  destruct now as [n|], (parseTimeISO (hostOffset cfg) (timeISO r)) as [ev|]; simpl.
  - rewrite Z.leb_le. split.
    + intros H. exists n, ev. repeat split; auto.
    + intros (n' & ev' & Hn & Hev & H). injection Hn as <-. injection Hev as <-. lia.
  - split; [done|]. intros (? & ? & ? & ? & ?). done.
  - split; [done|]. intros (? & ? & ? & ? & ?). done.
  - split; [done|]. intros (? & ? & ? & ? & ?). done.
Qed.

(* ================================================================== *)
(** * What one tick sends *)
(* ================================================================== *)

Section Guarded.

Variable cfg : Config.
Variable o : Oracle.
Variable R : World -> World -> Prop.
Variable allowed : string -> string -> Kind -> string -> string -> Prop.

Hypothesis R_refl : forall w, R w w.
Hypothesis R_trans : forall w1 w2 w3, R w1 w2 -> R w2 w3 -> R w1 w3.
Hypothesis R_io : forall w, R w (next_io w).
Hypothesis R_console : forall f w, R w (with_console f w).
Hypothesis R_outbox : forall f w, R w (with_outbox f w).
Hypothesis R_pending : forall f w, R w (with_pendingLinks f w).
Hypothesis R_fired : forall e id k to msg w,
  allowed e id k to msg ->
  R w (with_fired (fun l => l ++ [firing e id k to msg]) w).
Hypothesis R_flag : forall e id k to msg w,
  allowed e id k to msg -> R w (with_reminders (setFlagAt e id k) w).

Lemma guarded_fire e id k to msg :
  allowed e id k to msg -> stable R (notify cfg o e id k to msg;; dbSetFlag o e id k).
Proof.
  intros Ha. apply (stable_bind R R_trans).
  - unfold notify. apply (stable_bind R R_trans).
    + apply stable_modify. intros w. now apply R_fired.
    + intros _. apply (frame_sendLine cfg o R R_refl R_trans R_io R_console R_outbox).
  - intros _. unfold dbSetFlag. apply (stable_dbCall R R_trans); [exact R_io|].
    apply stable_modify. intros w. now apply (R_flag e id k to msg).
Qed.

Lemma guarded_evalReminder now e to id r :
  (forall k, triggers cfg k now r = true -> allowed e id k to (kindMsg k (text r))) ->
  stable R (evalReminder cfg o now e to id r).
Proof.
  intros Ha. rewrite evalReminder_blocks.
  assert (Hblock : forall k, stable R (fireBlock cfg o now e to id r k)).
  { intros k. unfold fireBlock. destruct (triggers cfg k now r) eqn:Ht.
    - apply guarded_fire. now apply Ha.
    - apply (stable_ret R R_refl). }
  apply (stable_bind R R_trans); [apply Hblock|]. intros _.
  apply (stable_bind R R_trans); [apply Hblock|]. intros _. apply Hblock.
Qed.

Lemma guarded_evalIdentity now e rems w :
  (forall link id r k,
     line_links w !! e = Some link -> In (id, r) rems -> triggers cfg k now r = true ->
     allowed e id k (lineUserId link) (kindMsg k (text r))) ->
  R w (evalIdentity cfg o now e rems w).2.
Proof.
  intros Ha. unfold evalIdentity, dbGetLink, dbCall, mbind, M_bind, bind, gets.
  destruct (dbOk o (ioSeq w) (GetLink e)); simpl; [|apply R_io].
  destruct (line_links w !! e) as [link|] eqn:Hl; simpl; [|apply R_io].
  eapply R_trans; [apply R_io|].
  apply (stable_forEach R R_refl R_trans). intros [id r] Hin.
  apply guarded_evalReminder. intros k Ht. now apply (Ha link id r k).
Qed.

Lemma guarded_identityStep now e rems w :
  (forall link id r k,
     line_links w !! e = Some link -> In (id, r) rems -> triggers cfg k now r = true ->
     allowed e id k (lineUserId link) (kindMsg k (text r))) ->
  R w (identityStep cfg o now (e, rems) w).2.
Proof.
  intros Ha. pose proof (guarded_evalIdentity now e rems w Ha) as H.
  unfold identityStep. simpl. destruct (variant cfg); [|exact H].
  unfold tryCatch. destruct (evalIdentity cfg o now e rems w) as [[a|ex] w1]; [exact H|].
  simpl in *. eapply R_trans; [exact H | apply R_console].
Qed.

Lemma guarded_forEach now links tbl :
  (forall e rems link id r k,
     In (e, rems) tbl -> links !! e = Some link -> In (id, r) rems ->
     triggers cfg k now r = true ->
     allowed e id k (lineUserId link) (kindMsg k (text r))) ->
  forall w, line_links w = links ->
    R w (forEach tbl (identityStep cfg o now) w).2.
Proof.
  induction tbl as [|[e rems] tbl IH]; intros Ha w Hl; simpl; [apply R_refl|].
  assert (Hstep : R w (identityStep cfg o now (e, rems) w).2).
  { apply guarded_identityStep. intros link id r k Hlink Hin Ht.
    rewrite Hl in Hlink. eapply Ha; eauto. now left. }
  pose proof (identityStep_evolves cfg o now (e, rems) w) as (_ & Hl1 & _).
  unfold bind. destruct (identityStep cfg o now (e, rems) w) as [[a|ex] w1]; simpl in *;
    [|exact Hstep].
  eapply R_trans; [exact Hstep|]. apply IH; [|congruence].
  intros e' rems' link id r k Hin. apply Ha. now right.
Qed.

(** A relation on worlds that the steps of the evaluator respect, the
    call of [sendLine] and the write of the flag for the notifications
    in [allowed], is respected by a tick in which only such
    notifications are due. *)
Lemma guarded_tick t w :
  (forall e rems link id r k,
     In (e, rems) (reminders w) -> line_links w !! e = Some link -> In (id, r) rems ->
     triggers cfg k (tokyoNow (hostOffset cfg) t) r = true ->
     allowed e id k (lineUserId link) (kindMsg k (text r))) ->
  R w (cronTick cfg o t w).2.
Proof.
  intros Ha. rewrite cronTick_unfold.
  set (w0 := with_pendingLinks (sweepExpired t)
               (with_console (fun c => c ++ [LogCronStarted]) w)).
  assert (H0 : R w w0) by (eapply R_trans; [apply R_console | apply R_pending]).
  eapply R_trans; [exact H0|].
  unfold dbGetReminders, dbCall, mbind, M_bind, bind, gets.
  destruct (dbOk o (ioSeq w0) GetReminders); simpl; [|apply R_io].
  eapply R_trans; [apply R_io|].
  destruct (reminders w) as [|x l] eqn:Hrem; [apply R_refl|].
  rewrite <- Hrem. apply (guarded_forEach _ (line_links w)); [|reflexivity].
  intros e rems link id r k. rewrite Hrem. apply Ha.
Qed.

End Guarded.

Lemma NoDup_keys_unique {V} (l : list (string * V)) i v v' :
  NoDup (map fst l) -> In (i, v) l -> In (i, v') l -> v = v'.
Proof.
  induction l as [|[j u] l IH]; simpl; intros Hnd H1 H2; [done|].
  apply NoDup_cons in Hnd as [Hni Hnd]. rewrite list_elem_of_In in Hni.
  destruct H1 as [H1|H1], H2 as [H2|H2].
  - congruence.
  - injection H1 as -> ->. apply In_key in H2. done.
  - injection H2 as -> ->. apply In_key in H1. done.
  - now apply IH.
Qed.

Lemma held_unique w e id r rems r' :
  holdsReminder w e id r -> In (e, rems) (reminders w) -> In (id, r') rems -> r' = r.
Proof.
  intros ([Hnd Hin] & (rs & He & Hr) & _) He' Hr'.
  assert (rems = rs) as -> by (eapply NoDup_keys_unique; eauto).
  eapply NoDup_keys_unique; eauto.
Qed.

Lemma firingFor_true e id k f :
  firingFor e id k f = true -> f_email f = e /\ f_id f = id /\ f_kind f = k.
Proof.
  unfold firingFor. rewrite !andb_true_iff, !String.eqb_eq.
  intros [[H1 H2] H3]. apply bool_decide_eq_true in H3. auto.
Qed.

Lemma firingFor_firing e id k to msg : firingFor e id k (firing e id k to msg) = true.
Proof.
  unfold firingFor, firing. simpl. rewrite !String.eqb_refl. simpl.
  now apply bool_decide_eq_true.
Qed.

Lemma sentCount_filter e id k l :
  sentCount e id k l = List.length (List.filter (firingFor e id k) l).
Proof.
  induction l as [|f l IH]; simpl; [done|].
  destruct (firingFor e id k f); simpl; now rewrite IH.
Qed.

Lemma filter_all_same {A} (p : A -> bool) (x : A) l :
  Forall (fun y => p y = true -> y = x) l ->
  List.filter p l = repeat x (List.length (List.filter p l)).
Proof.
  induction 1 as [|y l Hy _ IH]; simpl; [done|].
  destruct (p y) eqn:Hp; simpl; [|exact IH]. rewrite (Hy eq_refl). now f_equal.
Qed.

Section AddsRules.

Variable ok : Firing -> Prop.

Lemma adds_refl w : adds ok w w.
Proof. exists []. now rewrite app_nil_r. Qed.

Lemma adds_trans w1 w2 w3 : adds ok w1 w2 -> adds ok w2 w3 -> adds ok w1 w3.
Proof.
  intros (fs & Hf & Ho) (fs' & Hf' & Ho'). exists (fs ++ fs').
  split; [now rewrite Hf', Hf, app_assoc | now apply Forall_app].
Qed.

Lemma adds_same w w' : fired w' = fired w -> adds ok w w'.
Proof. intros H. exists []. now rewrite app_nil_r. Qed.

(** A tick in which every due notification of a linked identity
    satisfies [ok] adds only firings that satisfy it. *)
Lemma tick_adds cfg o t w :
  (forall e rems link id r k,
     In (e, rems) (reminders w) -> line_links w !! e = Some link -> In (id, r) rems ->
     triggers cfg k (tokyoNow (hostOffset cfg) t) r = true ->
     ok (firing e id k (lineUserId link) (kindMsg k (text r)))) ->
  adds ok w (cronTick cfg o t w).2.
Proof.
  intros Ha.
  apply (guarded_tick cfg o (adds ok) (fun e id k to msg => ok (firing e id k to msg)));
    [ apply adds_refl | apply adds_trans
    | intros; now apply adds_same | intros; now apply adds_same
    | intros; now apply adds_same | intros; now apply adds_same
    | | intros; now apply adds_same | exact Ha ].
  intros e id k to msg w0 Hok. exists [firing e id k to msg]. split; [done|].
  now constructor.
Qed.

End AddsRules.

Lemma flagKept_refl e id k w : flagKept e id k w w.
Proof. intros rs r H1 H2 H3. eauto. Qed.

Lemma flagKept_trans e id k w1 w2 w3 :
  flagKept e id k w1 w2 -> flagKept e id k w2 w3 -> flagKept e id k w1 w3.
Proof.
  intros H12 H23 rs3 r3 H1 H2 H3.
  destruct (H23 rs3 r3 H1 H2 H3) as (rs2 & r2 & ? & ? & ?). eauto.
Qed.

Lemma flagKept_same e id k w w' : reminders w' = reminders w -> flagKept e id k w w'.
Proof. intros H rs r H1 H2 H3. rewrite H in H1. eauto. Qed.

Lemma setSent_other k k' r : k' <> k -> sentFlag k (setSent k' r) = sentFlag k r.
Proof. intros Hne. destruct k, k'; simpl; congruence. Qed.

Lemma flagKept_setFlag e id k e' id' k' w :
  ~ (e' = e /\ id' = id /\ k' = k) ->
  flagKept e id k w (with_reminders (setFlagAt e' id' k') w).
Proof.
  intros Hne rs' r' H1 H2 H3. simpl in H1. unfold setFlagAt in H1.
  apply in_map_iff in H1 as ([e0 rs0] & Heq & Hin0).
  destruct (String.eqb e0 e') eqn:He0.
  - apply String.eqb_eq in He0. subst e0. injection Heq as -> <-.
    apply in_map_iff in H2 as ([i0 r0] & Heq & Hin1).
    destruct (String.eqb i0 id') eqn:Hi0.
    + apply String.eqb_eq in Hi0. subst i0. injection Heq as -> <-.
      exists rs0, r0. split; [done|]. split; [done|].
      rewrite setSent_other in H3; [done|]. intros ->. tauto.
    + injection Heq as -> ->. eauto.
  - injection Heq as -> ->. eauto.
Qed.

(** A tick in which the notification [k] of reminder [id] of [e] is not
    due does not set its flag. *)
Lemma tick_flagKept cfg o t w e id k :
  (forall rems link r,
     In (e, rems) (reminders w) -> line_links w !! e = Some link -> In (id, r) rems ->
     triggers cfg k (tokyoNow (hostOffset cfg) t) r = false) ->
  flagKept e id k w (cronTick cfg o t w).2.
Proof.
  intros Hn.
  apply (guarded_tick cfg o (flagKept e id k)
           (fun e' id' k' _ _ => ~ (e' = e /\ id' = id /\ k' = k)));
    [ apply flagKept_refl | apply flagKept_trans
    | intros; now apply flagKept_same | intros; now apply flagKept_same
    | intros; now apply flagKept_same | intros; now apply flagKept_same
    | intros; now apply flagKept_same | | ].
  - intros e' id' k' _ _ w0 Hne. now apply flagKept_setFlag.
  - intros e' rems link id' r k' Hin Hl Hr Ht (-> & -> & ->).
    rewrite (Hn rems link r Hin Hl Hr) in Ht. discriminate.
Qed.

(** What one tick does for one notification of a reminder of a linked
    identity, the database calls succeeding. *)
Lemma tick_outcome cfg o t w e id r k link :
  tickOk cfg o e -> holdsReminder w e id r -> line_links w !! e = Some link ->
  let now := tokyoNow (hostOffset cfg) t in
  let w' := (cronTick cfg o t w).2 in
  exists fs,
    fires cfg w w' fs /\
    List.filter (firingFor e id k) fs
    = (if triggers cfg k now r
       then [firing e id k (lineUserId link) (kindMsg k (text r))] else []) /\
    (triggers cfg k now r = true -> sentAll (reminders w') e id k) /\
    (triggers cfg k now r = false -> sentFlag k r = false ->
     unsentAll (reminders w') e id k).
Proof.
  intros Hok Hheld Hlink now w'.
  destruct (tick_effect cfg o t w e id r k Hok Hheld) as (_ & He & Hc & Hs).
  fold now in Hc, Hs. fold w' in He, Hc, Hs.
  destruct He as (Ht & Hl & fs & Hf & Ho).
  exists fs. split; [split; [exact Hf | exact Ho]|].
  set (f := firing e id k (lineUserId link) (kindMsg k (text r))).
  assert (Hgood : Forall (fun y => firingFor e id k y = true -> y = f) fs).
  { destruct (tick_adds (fun y => firingFor e id k y = true -> y = f) cfg o t w)
      as (fs' & Hf' & Hall).
    - intros e' rems link' id' r' k' Hin Hl' Hr' _ Hfor.
      apply firingFor_true in Hfor as (He' & Hi' & Hk'). simpl in He', Hi', Hk'.
      subst e' id' k'.
      assert (r' = r) as -> by (eapply held_unique; eauto).
      assert (link' = link) as -> by congruence. reflexivity.
    - fold w' in Hf'. rewrite Hf in Hf'. apply app_inv_head in Hf'. now subst fs'. }
  assert (Hlen : List.length (List.filter (firingFor e id k) fs)
                 = if triggers cfg k now r then 1%nat else 0%nat).
  { rewrite <- sentCount_filter. rewrite Hf, sentCount_app in Hc. lia. }
  split; [|split].
  - rewrite (filter_all_same _ f fs Hgood), Hlen. now destruct (triggers cfg k now r).
  - exact Hs.
  - intros Hno Hflag rs' r' H1 H2.
    destruct (sentFlag k r') eqn:Hr'; [|reflexivity]. exfalso.
    assert (Hkept : flagKept e id k w w').
    { apply tick_flagKept. intros rems link' r0 Hin _ Hr0.
      assert (r0 = r) as -> by (eapply held_unique; eauto). exact Hno. }
    destruct (Hkept rs' r' H1 H2 Hr') as (rs0 & r0 & Hin0 & Hr0 & Hset).
    assert (r0 = r) as -> by (eapply held_unique; eauto). congruence.
Qed.

Lemma sends_iff cfg o t w e id r k link :
  tickOk cfg o e -> holdsReminder w e id r -> line_links w !! e = Some link ->
  (sends cfg o t w e id k (lineUserId link) (kindMsg k (text r))
   <-> triggers cfg k (tokyoNow (hostOffset cfg) t) r = true).
Proof.
  intros Hok Hheld Hlink.
  destruct (tick_outcome cfg o t w e id r k link Hok Hheld Hlink)
    as (fs & Hfires & Hfilter & Hset & _).
  split.
  - intros (fs' & [Hf' _] & Hfilter' & _).
    destruct Hfires as [Hf _]. rewrite Hf in Hf'. apply app_inv_head in Hf'. subst fs'.
    rewrite Hfilter' in Hfilter.
    now destruct (triggers cfg k (tokyoNow (hostOffset cfg) t) r).
  - intros Ht. exists fs. rewrite Ht in Hfilter. auto.
Qed.

Lemma skips_iff cfg o t w e id r k link :
  tickOk cfg o e -> holdsReminder w e id r -> line_links w !! e = Some link ->
  sentFlag k r = false ->
  (skips cfg o t w e id k <-> triggers cfg k (tokyoNow (hostOffset cfg) t) r = false).
Proof.
  intros Hok Hheld Hlink Hflag.
  destruct (tick_outcome cfg o t w e id r k link Hok Hheld Hlink)
    as (fs & Hfires & Hfilter & _ & Hunset).
  split.
  - intros (fs' & [Hf' _] & Hfilter' & _).
    destruct Hfires as [Hf _]. rewrite Hf in Hf'. apply app_inv_head in Hf'. subst fs'.
    rewrite Hfilter' in Hfilter.
    now destruct (triggers cfg k (tokyoNow (hostOffset cfg) t) r).
  - intros Ht. exists fs. rewrite Ht in Hfilter. auto.
Qed.

(** A notification that is sent is among the requests handed to the
    LINE API, unless the variant is 2 and there is no token. *)
Lemma sends_push cfg o t w e id k to msg :
  sends cfg o t w e id k to msg ->
  isVariant2 cfg && negb (Js.truthy (LINE_TOKEN cfg)) = false ->
  In (PushReq to msg) (outbox (cronTick cfg o t w).2).
Proof.
  intros (fs & [_ Ho] & Hfilter & _) Hg. rewrite Ho, Hg.
  apply in_or_app. right. apply in_map_iff. exists (firing e id k to msg).
  split; [reflexivity|].
  assert (Hin : In (firing e id k to msg) (List.filter (firingFor e id k) fs))
    by (rewrite Hfilter; now left).
  now apply filter_In in Hin.
Qed.

Lemma tokyoNow_clock off t : tokyoNow off t = Some (clock off t).
Proof.
  unfold tokyoNow, parseLocaleString, toLocaleStringTokyo, clock, tokyoOffset,
    msPerHour, msPerSecond. f_equal.
  replace (t + 9 * (60 * 60 * 1000)) with (t + 32400 * 1000) by lia.
  rewrite Z.div_add by lia. lia.
Qed.

Lemma triggers_exact_clock cfg t r ev :
  exactSent r = false -> parseTimeISO (hostOffset cfg) (timeISO r) = Some ev ->
  (triggers cfg Exact (tokyoNow (hostOffset cfg) t) r = true
   <-> 0 <= clock (hostOffset cfg) t - ev < 10 * 60 * 1000).
Proof.
  intros Hs Hev. rewrite (triggers_exact cfg _ r Hs), tokyoNow_clock, Hev. split.
  - intros (n & ev' & [= <-] & [= <-] & H). exact H.
  - intros H. eauto.
Qed.

Lemma false_iff_not_true (b : bool) (P : Prop) : (b = true <-> P) -> (b = false <-> ~ P).
Proof.
  intros H. destruct b.
  - split; [discriminate | intros HnP; exfalso; apply HnP, H; reflexivity].
  - split; [intros _ HP; apply H in HP; discriminate | reflexivity].
Qed.

(** Cutting an instant to the second takes less than a second off. *)
Lemma cut_to_second t : t - 1000 < t / 1000 * 1000 <= t.
Proof.
  pose proof (Z.div_mod t 1000). pose proof (Z.mod_pos_bound t 1000). lia.
Qed.

Lemma triggers_morning_clock cfg t r ev :
  morning r = true -> morningSent r = false ->
  parseTimeISO (hostOffset cfg) (timeISO r) = Some ev ->
  (triggers cfg Morning (tokyoNow (hostOffset cfg) t) r = true
   <-> eightOClock (localTime (hostOffset cfg) ev / msPerDay) <= toLocaleStringTokyo t).
Proof.
  intros Hm Hs Hev. rewrite (triggers_morning cfg _ r Hm Hs), Hev.
  unfold tokyoNow, parseLocaleString, eightOClock. split.
  - intros (n & ev' & [= <-] & [= <-] & H). unfold localTime in *. lia.
  - intros H. eexists _, ev. split; [reflexivity|]. split; [reflexivity|].
    unfold localTime in *. lia.
Qed.

Lemma triggers_oneHour_clock cfg t r ev :
  oneHour r = true -> oneHourSent r = false ->
  parseTimeISO (hostOffset cfg) (timeISO r) = Some ev ->
  (triggers cfg OneHour (tokyoNow (hostOffset cfg) t) r = true
   <-> ev - 60 * 60 * 1000 <= clock (hostOffset cfg) t).
Proof.
  intros Hm Hs Hev. rewrite (triggers_oneHour cfg _ r Hm Hs), tokyoNow_clock, Hev. split.
  - intros (n & ev' & [= <-] & [= <-] & H). exact H.
  - intros H. eauto.
Qed.

Lemma fires_refl cfg w : fires cfg w w [].
Proof.
  split; [now rewrite app_nil_r|].
  destruct (isVariant2 cfg && negb (Js.truthy (LINE_TOKEN cfg))); simpl;
    now rewrite app_nil_r.
Qed.

Lemma fires_trans cfg w1 w2 w3 fs fs' :
  fires cfg w1 w2 fs -> fires cfg w2 w3 fs' -> fires cfg w1 w3 (fs ++ fs').
Proof.
  intros [Hf Ho] [Hf' Ho']. split; [now rewrite Hf', Hf, app_assoc|].
  rewrite Ho', Ho, <- app_assoc.
  destruct (isVariant2 cfg && negb (Js.truthy (LINE_TOKEN cfg))); [done|].
  now rewrite map_app.
Qed.

Lemma exLink_a : line_links exWorld !! "a@x_com" = Some {| lineUserId := "U1"; linkedAt := 0 |}.
Proof. vm_compute. reflexivity. Qed.

Lemma exEarlyWorld_holds : holdsReminder exEarlyWorld "a@x_com" "r1" exEarly.
Proof.
  split; [split|split].
  - simpl. apply (bool_decide_unpack _). vm_compute. reflexivity.
  - intros e rs [H|[]]; injection H as <- <-; simpl;
      apply (bool_decide_unpack _); vm_compute; reflexivity.
  - exists [("r1", exEarly)]. simpl. auto.
  - vm_compute. eauto.
Qed.

Lemma exEarlyLink :
  line_links exEarlyWorld !! "a@x_com" = Some {| lineUserId := "U1"; linkedAt := 0 |}.
Proof. vm_compute. reflexivity. Qed.

(** The requests handed to the LINE API by the tick 9 min 59 s after
    the event of [exWorld], on a host in Tokyo's zone and on a host on
    UTC. *)
Lemma exact_tick_outbox :
  outbox (cronTick (exConfig Variant2 tokyoOffset) allGood (exInstant + 599000) exWorld).2
  = [PushReq "U1" (morningMsg "dentist"); PushReq "U1" (oneHourMsg "dentist");
     PushReq "U1" (exactMsg "dentist");
     PushReq "U2" (morningMsg "dentist"); PushReq "U2" (oneHourMsg "dentist");
     PushReq "U2" (exactMsg "dentist")] /\
  outbox (cronTick (exConfig Variant2 0) allGood (exInstant + 599000) exWorld).2
  = [PushReq "U1" (morningMsg "dentist"); PushReq "U1" (oneHourMsg "dentist");
     PushReq "U2" (morningMsg "dentist"); PushReq "U2" (oneHourMsg "dentist")].
Proof. split; vm_compute; reflexivity. Qed.

(** C2.  The claim fails on the code when the host's zone is not Tokyo's.
    For a linked reminder whose [exactSent] is false, and with the
    database calls succeeding, one tick sends the exact notification if
    and only if [0 <= now - eventTime < 10 minutes], and passes it over
    otherwise.  Sending is one call of [sendLine] for it, to the user id
    of the link record and with the text of the exact message, its push
    handed to [fetch] with those of the tick's other calls, and the flag
    set afterwards; passing over is no call and the flag still unset.
    Here [now] is the evaluator's clock: the instant of the tick cut to
    the second and moved ahead by what Tokyo's zone is ahead of the
    host's.  So for a reminder that names the instant 9 min 59 s before
    the tick, a host in Tokyo's zone sends and a host on UTC does not;
    the UTC host sends for the instant nine hours later instead.  A
    reminder that names the instant 10 min 01 s before the tick is
    passed over on both. *)
Theorem exact_window_shifted_by_host_zone cfg o t w e id r link :
  tickOk cfg o e -> holdsReminder w e id r -> line_links w !! e = Some link ->
  exactSent r = false ->
  let off := hostOffset cfg in
  let to := lineUserId link in
  let msg := exactMsg (text r) in
  (forall ev, parseTimeISO off (timeISO r) = Some ev ->
     (sends cfg o t w e id Exact to msg <-> 0 <= clock off t - ev < 10 * 60 * 1000) /\
     (skips cfg o t w e id Exact <-> ~ (0 <= clock off t - ev < 10 * 60 * 1000))) /\
  (timeISO r = Instant (t - (9 * 60 + 59) * 1000) ->
     (off = tokyoOffset -> sends cfg o t w e id Exact to msg) /\
     (off = 0 -> skips cfg o t w e id Exact)) /\
  (timeISO r = Instant (t + 9 * msPerHour - (9 * 60 + 59) * 1000) ->
     off = 0 -> sends cfg o t w e id Exact to msg) /\
  (timeISO r = Instant (t - (10 * 60 + 1) * 1000) ->
     off = tokyoOffset \/ off = 0 -> skips cfg o t w e id Exact).
Proof.
  intros Hok Hheld Hlink Hs off to msg.
  assert (Hlaw : forall ev, parseTimeISO off (timeISO r) = Some ev ->
     (sends cfg o t w e id Exact to msg <-> 0 <= clock off t - ev < 10 * 60 * 1000) /\
     (skips cfg o t w e id Exact <-> ~ (0 <= clock off t - ev < 10 * 60 * 1000)));
    subst off to msg.
  { intros ev Hev. split.
    - rewrite <- (triggers_exact_clock cfg t r ev Hs Hev).
      apply (sends_iff cfg o t w e id r Exact link Hok Hheld Hlink).
    - rewrite (skips_iff cfg o t w e id r Exact link Hok Hheld Hlink Hs).
      apply false_iff_not_true, triggers_exact_clock; done. }
  split; [exact Hlaw|].
  assert (Hms : msPerSecond = 1000) by reflexivity.
  assert (Hh : msPerHour = 3600000) by reflexivity.
  assert (Hto : tokyoOffset = 32400000) by reflexivity.
  pose proof (cut_to_second t) as Hcut.
  split.
  - intros Hiso.
    destruct (Hlaw (t - (9 * 60 + 59) * 1000)) as [Hsend Hskip];
      [unfold parseTimeISO; now rewrite Hiso|].
    unfold clock in Hsend, Hskip. rewrite Hms, Hto in Hsend, Hskip. split; intros Hoff.
    + apply Hsend. rewrite Hoff, Hto. lia.
    + apply Hskip. rewrite Hoff. lia.
  - split.
    + intros Hiso Hoff.
      destruct (Hlaw (t + 9 * msPerHour - (9 * 60 + 59) * 1000)) as [Hsend _];
        [unfold parseTimeISO; now rewrite Hiso|].
      apply Hsend. unfold clock. rewrite Hms, Hto, Hh, Hoff. lia.
    + intros Hiso Hoff.
      destruct (Hlaw (t - (10 * 60 + 1) * 1000)) as [_ Hskip];
        [unfold parseTimeISO; now rewrite Hiso|].
      apply Hskip. unfold clock. rewrite Hms, Hto. destruct Hoff as [-> | ->]; lia.
Qed.

Lemma exact_window_shifted_by_host_zone_witness :
  sends (exConfig Variant2 tokyoOffset) allGood (exInstant + 599000) exWorld
    "a@x_com" "r1" Exact "U1" (exactMsg "dentist") /\
  skips (exConfig Variant2 0) allGood (exInstant + 599000) exWorld "a@x_com" "r1" Exact /\
  sends (exConfig Variant2 0) allGood (exInstant - 9 * msPerHour + 599000) exWorld
    "a@x_com" "r1" Exact "U1" (exactMsg "dentist").
Proof.
  split; [|split].
  - apply (proj1 (proj1 (proj2 (exact_window_shifted_by_host_zone
             (exConfig Variant2 tokyoOffset) allGood (exInstant + 599000) exWorld
             "a@x_com" "r1" exReminder _
             (allGood_tickOk _ _) exWorld_holds_a exLink_a eq_refl)) eq_refl) eq_refl).
  - apply (proj2 (proj1 (proj2 (exact_window_shifted_by_host_zone
             (exConfig Variant2 0) allGood (exInstant + 599000) exWorld
             "a@x_com" "r1" exReminder _
             (allGood_tickOk _ _) exWorld_holds_a exLink_a eq_refl)) eq_refl) eq_refl).
  - apply (proj1 (proj2 (proj2 (exact_window_shifted_by_host_zone
             (exConfig Variant2 0) allGood (exInstant - 9 * msPerHour + 599000) exWorld
             "a@x_com" "r1" exReminder _
             (allGood_tickOk _ _) exWorld_holds_a exLink_a eq_refl))) eq_refl eq_refl).
Defined.

(** C4.  The claim fails on the code when the host's zone is not Tokyo's.
    For a linked reminder with [morning] set and [morningSent] false,
    and with the database calls succeeding, one tick sends the morning
    notification if and only if the civil time of Tokyo at the tick is
    at or after 08:00:00 of the civil day of [eventTime], and passes it
    over otherwise (sending and passing over as for C2, with the text of
    the morning message).  The civil day of [eventTime] is read in the
    host's zone, not in Tokyo's.  For a reminder that names an instant
    of the civil day Tokyo has at the tick, a host in Tokyo's zone
    passes it over at 07:59:59 and sends at 08:00:00; a host on UTC
    sends already at 07:59:59 when the event is before 09:00 in Tokyo,
    because in its zone the event is on the day before. *)
Theorem morning_trigger_reads_host_date cfg o t w e id r link ev :
  tickOk cfg o e -> holdsReminder w e id r -> line_links w !! e = Some link ->
  morning r = true -> morningSent r = false ->
  parseTimeISO (hostOffset cfg) (timeISO r) = Some ev ->
  let off := hostOffset cfg in
  let to := lineUserId link in
  let msg := morningMsg (text r) in
  let civilNow := toLocaleStringTokyo t in
  (sends cfg o t w e id Morning to msg
   <-> eightOClock (localTime off ev / msPerDay) <= civilNow) /\
  (skips cfg o t w e id Morning
   <-> civilNow < eightOClock (localTime off ev / msPerDay)) /\
  (timeISO r = Instant ev ->
   localTime tokyoOffset ev / msPerDay = civilNow / msPerDay ->
   (off = tokyoOffset ->
      (civilNow mod msPerDay = (7 * 3600 + 59 * 60 + 59) * 1000 ->
       skips cfg o t w e id Morning) /\
      (civilNow mod msPerDay = 8 * 3600 * 1000 ->
       sends cfg o t w e id Morning to msg)) /\
   (off = 0 -> localTime tokyoOffset ev mod msPerDay < 9 * msPerHour ->
      civilNow mod msPerDay = (7 * 3600 + 59 * 60 + 59) * 1000 ->
      sends cfg o t w e id Morning to msg)).
Proof.
  intros Hok Hheld Hlink Hm Hs Hev off to msg civilNow.
  assert (Hsend : sends cfg o t w e id Morning to msg
                  <-> eightOClock (localTime off ev / msPerDay) <= civilNow).
  { subst off to msg civilNow.
    rewrite <- (triggers_morning_clock cfg t r ev Hm Hs Hev).
    apply (sends_iff cfg o t w e id r Morning link Hok Hheld Hlink). }
  assert (Hskip : skips cfg o t w e id Morning
                  <-> civilNow < eightOClock (localTime off ev / msPerDay)).
  { subst off to msg civilNow.
    rewrite (skips_iff cfg o t w e id r Morning link Hok Hheld Hlink Hs).
    rewrite (false_iff_not_true _ _ (triggers_morning_clock cfg t r ev Hm Hs Hev)). lia. }
  split; [exact Hsend|]. split; [exact Hskip|].
  intros Hiso Hday.
  assert (Hd : msPerDay = 86400000) by reflexivity.
  assert (Hh : msPerHour = 3600000) by reflexivity.
  assert (Hto : tokyoOffset = 32400000) by reflexivity.
  unfold eightOClock, localTime in *. rewrite Hd, Hh, Hto in *.
  pose proof (Z.div_mod civilNow 86400000 ltac:(lia)) as Hn.
  pose proof (Z.mod_pos_bound civilNow 86400000 ltac:(lia)) as Hnb.
  pose proof (Z.div_mod (ev + 32400000) 86400000 ltac:(lia)) as He.
  pose proof (Z.mod_pos_bound (ev + 32400000) 86400000 ltac:(lia)) as Heb.
  split.
  - intros Hoff. rewrite Hoff in Hsend, Hskip. split; intros Hmod.
    + apply Hskip. lia.
    + apply Hsend. lia.
  - intros Hoff Hearly Hmod. apply Hsend. rewrite Hoff.
    pose proof (Z.div_mod (ev + 0) 86400000 ltac:(lia)) as Hu.
    pose proof (Z.mod_pos_bound (ev + 0) 86400000 ltac:(lia)) as Hub.
    lia.
Qed.

Lemma morning_trigger_reads_host_date_witness :
  let before8 := exInstant + 15 * msPerHour - 1000 in
  skips (exConfig Variant2 tokyoOffset) allGood before8 exEarlyWorld
    "a@x_com" "r1" Morning /\
  sends (exConfig Variant2 tokyoOffset) allGood (before8 + 1000) exEarlyWorld
    "a@x_com" "r1" Morning "U1" (morningMsg "flight") /\
  sends (exConfig Variant2 0) allGood before8 exEarlyWorld
    "a@x_com" "r1" Morning "U1" (morningMsg "flight").
Proof.
  intros before8. split; [|split].
  - apply (proj1 (proj1 (proj2 (proj2 (morning_trigger_reads_host_date
             (exConfig Variant2 tokyoOffset) allGood before8 exEarlyWorld
             "a@x_com" "r1" exEarly _ (exInstant + 12 * msPerHour)
             (allGood_tickOk _ _) exEarlyWorld_holds exEarlyLink eq_refl eq_refl eq_refl))
             eq_refl eq_refl) eq_refl) eq_refl).
  - apply (proj2 (proj1 (proj2 (proj2 (morning_trigger_reads_host_date
             (exConfig Variant2 tokyoOffset) allGood (before8 + 1000) exEarlyWorld
             "a@x_com" "r1" exEarly _ (exInstant + 12 * msPerHour)
             (allGood_tickOk _ _) exEarlyWorld_holds exEarlyLink eq_refl eq_refl eq_refl))
             eq_refl eq_refl) eq_refl) eq_refl).
  - apply (proj2 (proj2 (proj2 (morning_trigger_reads_host_date
             (exConfig Variant2 0) allGood before8 exEarlyWorld
             "a@x_com" "r1" exEarly _ (exInstant + 12 * msPerHour)
             (allGood_tickOk _ _) exEarlyWorld_holds exEarlyLink eq_refl eq_refl eq_refl))
             eq_refl eq_refl) eq_refl); vm_compute; reflexivity.
Defined.

(** X5.  For a linked reminder with [oneHour] set and [oneHourSent]
    false, and with the database calls succeeding, one tick sends the
    one-hour notification if and only if [now >= eventTime - 1 hour],
    and passes it over otherwise.  Sending is one call of [sendLine] for
    it, to the user id of the link record and with the text of the
    one-hour message, its push handed to [fetch], and the flag set
    afterwards; passing over is no call and the flag still unset.  There
    is no upper limit, so it is sent in every tick that sends the exact
    notification.  [now] is the evaluator's clock, which is ahead of the
    instant of the tick by what Tokyo's zone is ahead of the host's: for
    a reminder that names an instant, a host in Tokyo's zone sends from
    one hour before it on, a host on UTC from ten hours before it on. *)
Theorem one_hour_trigger cfg o t w e id r link ev :
  tickOk cfg o e -> holdsReminder w e id r -> line_links w !! e = Some link ->
  oneHour r = true -> oneHourSent r = false ->
  parseTimeISO (hostOffset cfg) (timeISO r) = Some ev ->
  let off := hostOffset cfg in
  let to := lineUserId link in
  (sends cfg o t w e id OneHour to (oneHourMsg (text r))
   <-> ev - 60 * 60 * 1000 <= clock off t) /\
  (skips cfg o t w e id OneHour <-> clock off t < ev - 60 * 60 * 1000) /\
  (exactSent r = false ->
   sends cfg o t w e id Exact to (exactMsg (text r)) ->
   sends cfg o t w e id OneHour to (oneHourMsg (text r))) /\
  (off = tokyoOffset ->
   (sends cfg o t w e id OneHour to (oneHourMsg (text r))
    <-> ev - msPerHour <= t / 1000 * 1000)) /\
  (off = 0 ->
   (sends cfg o t w e id OneHour to (oneHourMsg (text r))
    <-> ev - 10 * msPerHour <= t / 1000 * 1000)).
Proof.
  intros Hok Hheld Hlink Hm Hs Hev off to. subst off to.
  assert (Hsend : sends cfg o t w e id OneHour (lineUserId link) (oneHourMsg (text r))
                  <-> ev - 60 * 60 * 1000 <= clock (hostOffset cfg) t).
  { rewrite <- (triggers_oneHour_clock cfg t r ev Hm Hs Hev).
    apply (sends_iff cfg o t w e id r OneHour link Hok Hheld Hlink). }
  split; [exact Hsend|]. split; [|split; [|split]].
  - rewrite (skips_iff cfg o t w e id r OneHour link Hok Hheld Hlink Hs).
    rewrite (false_iff_not_true _ _ (triggers_oneHour_clock cfg t r ev Hm Hs Hev)). lia.
  - intros Hx Hex. apply Hsend.
    apply (sends_iff cfg o t w e id r Exact link Hok Hheld Hlink) in Hex.
    apply (triggers_exact_clock cfg t r ev Hx Hev) in Hex. lia.
  - intros Hoff. rewrite Hsend. unfold clock. rewrite Hoff.
    change msPerSecond with 1000. change msPerHour with 3600000. lia.
  - intros Hoff. rewrite Hsend. unfold clock. rewrite Hoff.
    change msPerSecond with 1000. change msPerHour with 3600000.
    change tokyoOffset with 32400000. lia.
Qed.

Lemma one_hour_trigger_witness :
  sends (exConfig Variant2 tokyoOffset) allGood (exInstant + 365 * msPerDay) exWorld
    "a@x_com" "r1" OneHour "U1" (oneHourMsg "dentist") /\
  sends (exConfig Variant2 0) allGood (exInstant - 10 * msPerHour) exWorld
    "a@x_com" "r1" OneHour "U1" (oneHourMsg "dentist").
Proof.
  split.
  - apply (proj1 (one_hour_trigger (exConfig Variant2 tokyoOffset) allGood
                    (exInstant + 365 * msPerDay) exWorld "a@x_com" "r1" exReminder _
                    exInstant (allGood_tickOk _ _) exWorld_holds_a exLink_a
                    eq_refl eq_refl eq_refl)).
    vm_compute. discriminate.
  - apply (proj2 (proj2 (proj2 (proj2 (proj2
             (one_hour_trigger (exConfig Variant2 0) allGood
                (exInstant - 10 * msPerHour) exWorld "a@x_com" "r1" exReminder _
                exInstant (allGood_tickOk _ _) exWorld_holds_a exLink_a
                eq_refl eq_refl eq_refl)))) eq_refl)).
    vm_compute. discriminate.
Defined.

Lemma exBrokenWorld_holds : holdsReminder exBrokenWorld "a@x_com" "r1" exBroken.
Proof.
  split; [split|split].
  - simpl. apply (bool_decide_unpack _). vm_compute. reflexivity.
  - intros e rs [H|[]]; injection H as <- <-; simpl;
      apply (bool_decide_unpack _); vm_compute; reflexivity.
  - exists [("r1", exBroken)]. simpl. auto.
  - vm_compute. eauto.
Qed.

(** X6.  A reminder whose [timeISO] cannot be parsed makes no trouble
    and no noise: with the database calls succeeding the tick returns
    normally, and it fires none of the three notifications for it,
    whatever its feature and sent flags are. *)
Theorem malformed_time_never_fires cfg o t w e id r :
  tickOk cfg o e -> holdsReminder w e id r -> timeISO r = Malformed ->
  (cronTick cfg o t w).1 = Ret tt /\
  forall k, ~ firesIn cfg o t w e id k.
Proof.
  intros Hok Hheld Hmal. split.
  - apply (tick_effect cfg o t w e id r Exact Hok Hheld).
  - intros k Hfire. apply (firesIn_triggers cfg o t w e id r k Hok Hheld) in Hfire.
    unfold triggers, due in Hfire. rewrite Hmal in Hfire. simpl in Hfire.
    destruct k; simpl in Hfire; rewrite ?andb_false_r in Hfire; discriminate.
Qed.

Lemma malformed_time_never_fires_witness :
  (cronTick (exConfig Variant2 tokyoOffset) allGood exInstant exBrokenWorld).1 = Ret tt /\
  forall k, ~ firesIn (exConfig Variant2 tokyoOffset) allGood exInstant exBrokenWorld
                "a@x_com" "r1" k.
Proof.
  apply (malformed_time_never_fires (exConfig Variant2 tokyoOffset) allGood exInstant
           exBrokenWorld "a@x_com" "r1" exBroken).
  - apply allGood_tickOk.
  - apply exBrokenWorld_holds.
  - reflexivity.
Defined.

(** X7.  The exact notification has no catch-up.  Over any number of
    ticks at none of which the evaluator's clock is in the ten minutes
    that begin with the event, with [exactSent] false at the start and
    the database calls succeeding, no call of [sendLine] is for it, the
    pushes handed to [fetch] are those of the calls for other
    notifications, and [exactSent] is still false at the end.  The
    clock is ahead of the instant of a tick by what Tokyo's zone is
    ahead of the host's. *)
Theorem exact_never_fires_outside_window cfg o ts w e id r ev :
  tickOk cfg o e -> holdsReminder w e id r -> exactSent r = false ->
  parseTimeISO (hostOffset cfg) (timeISO r) = Some ev ->
  Forall (outsideWindow (hostOffset cfg) ev) ts ->
  let w' := runTicks cfg o ts w in
  exists fs, fires cfg w w' fs /\
             List.filter (firingFor e id Exact) fs = [] /\
             unsentAll (reminders w') e id Exact.
Proof.
  intros Hok. revert w r.
  induction ts as [|t ts IH]; intros w r Hheld Hs Hev Hall; simpl.
  - exists []. split; [apply fires_refl|]. split; [done|].
    intros rs r' H1 H2. destruct Hheld as (Hwk & (rs0 & He0 & Hr0) & Hl).
    assert (rs = rs0) as -> by (eapply NoDup_keys_unique; [apply Hwk | eauto | eauto]).
    assert (r' = r) as -> by (eapply NoDup_keys_unique; [eapply Hwk | eauto | eauto]; eauto).
    exact Hs.
  - apply Forall_cons in Hall as [Ht Hall].
    destruct (Hheld) as (_ & _ & [link Hlink]).
    assert (Hno : triggers cfg Exact (tokyoNow (hostOffset cfg) t) r = false).
    { apply (false_iff_not_true _ _ (triggers_exact_clock cfg t r ev Hs Hev)). exact Ht. }
    destruct (tick_outcome cfg o t w e id r Exact link Hok Hheld Hlink)
      as (fs1 & Hf1 & Hfilter1 & _ & Hunset1).
    rewrite Hno in Hfilter1. specialize (Hunset1 Hno Hs).
    destruct (tick_effect cfg o t w e id r Exact Hok Hheld) as (_ & He & _).
    destruct (holdsReminder_evolves _ _ _ _ _ _ He Hheld) as (r1 & Hheld1 & Hraised).
    assert (Hs1 : exactSent r1 = false).
    { destruct Hheld1 as (_ & (rs1 & He1 & Hr1) & _). exact (Hunset1 rs1 r1 He1 Hr1). }
    assert (Hev1 : parseTimeISO (hostOffset cfg) (timeISO r1) = Some ev).
    { destruct Hraised as (_ & Htime & _). now rewrite Htime. }
    destruct (IH _ r1 Hheld1 Hs1 Hev1 Hall) as (fs2 & Hf2 & Hfilter2 & Hunset2).
    exists (fs1 ++ fs2). split; [eapply fires_trans; eauto|]. split; [|exact Hunset2].
    now rewrite List.filter_app, Hfilter1, Hfilter2.
Qed.

Lemma exact_never_fires_outside_window_witness :
  let w' := runTicks (exConfig Variant2 tokyoOffset) allGood
              [exInstant - 60000; exInstant + 600000; exInstant + 660000] exWorld in
  exists fs, fires (exConfig Variant2 tokyoOffset) exWorld w' fs /\
             List.filter (firingFor "a@x_com" "r1" Exact) fs = [] /\
             unsentAll (reminders w') "a@x_com" "r1" Exact.
Proof.
  apply (exact_never_fires_outside_window (exConfig Variant2 tokyoOffset) allGood
           [exInstant - 60000; exInstant + 600000; exInstant + 660000] exWorld
           "a@x_com" "r1" exReminder exInstant).
  - apply allGood_tickOk.
  - apply exWorld_holds_a.
  - reflexivity.
  - reflexivity.
  - apply Forall_cons. split; [vm_compute; intros [H1 H2]; now apply H1|].
    apply Forall_cons. split; [vm_compute; intros [H1 H2]; discriminate H2|].
    apply Forall_cons. split; [vm_compute; intros [H1 H2]; discriminate H2|].
    constructor.
Defined.

Lemma forEach_returns {A} (body : A -> M unit) l :
  (forall x w, (body x w).1 = Ret tt) -> forall w, (forEach l body w).1 = Ret tt.
Proof.
  intros Hb. induction l as [|x l IH]; intros w; simpl; [done|].
  unfold bind. specialize (Hb x w).
  destruct (body x w) as [[[]|ex] w1]; simpl in Hb; [apply IH | discriminate].
Qed.

Lemma identityStep_variant1_returns cfg o now entry w :
  variant cfg = Variant1 -> (identityStep cfg o now entry w).1 = Ret tt.
Proof.
  intros Hv. unfold identityStep. rewrite Hv. unfold tryCatch.
  now destruct (evalIdentity cfg o now entry.1 entry.2 w) as [[[]|ex] w1].
Qed.

(** X8.  When the read of the reminders table rejects, the tick ends by
    that exception with nothing sent and nothing written, in both
    variants.  In variant 1 that is the only way a tick can end by an
    exception: once the table is read, the tick returns normally
    whatever else fails. *)
Theorem variant1_tick_rejects_only_on_table_read cfg o t w :
  (dbOk o (ioSeq w) GetReminders = false ->
     (cronTick cfg o t w).1 = Throw (DbError GetReminders) /\
     fired (cronTick cfg o t w).2 = fired w /\
     outbox (cronTick cfg o t w).2 = outbox w /\
     reminders (cronTick cfg o t w).2 = reminders w) /\
  (variant cfg = Variant1 -> dbOk o (ioSeq w) GetReminders = true ->
     (cronTick cfg o t w).1 = Ret tt).
Proof.
  rewrite cronTick_unfold. unfold dbGetReminders, dbCall, mbind, M_bind, bind. simpl.
  split; intros H.
  - now rewrite H.
  - intros Hdb. rewrite Hdb. simpl.
    destruct (reminders w) as [|x l]; [done|].
    apply (forEach_returns (identityStep cfg o (tokyoNow (hostOffset cfg) t))).
    intros entry w1. now apply identityStep_variant1_returns.
Qed.

Lemma variant1_tick_rejects_only_on_table_read_witness :
  (cronTick (exConfig Variant1 tokyoOffset) storeDown exInstant exWorld).1
    = Throw (DbError GetReminders) /\
  (cronTick (exConfig Variant1 tokyoOffset) (linkReadFails "a@x_com") exInstant exWorld).1
    = Ret tt.
Proof.
  split.
  - apply (proj1 (variant1_tick_rejects_only_on_table_read
                    (exConfig Variant1 tokyoOffset) storeDown exInstant exWorld)).
    reflexivity.
  - apply (proj2 (variant1_tick_rejects_only_on_table_read
                    (exConfig Variant1 tokyoOffset) (linkReadFails "a@x_com")
                    exInstant exWorld)); reflexivity.
Defined.

(* ================================================================== *)
(** * Issuing codes *)
(* ================================================================== *)

Lemma requestLineToken_issues em draw dateNow w :
  Js.truthy (Some em) = true ->
  pendingLinks (requestLineToken (Some em) draw dateNow w).2
  = <[pretty draw := {| email := em; expires := dateNow + 5 * 60 * 1000 |}]>
      (pendingLinks w).
Proof.
  intros Hem. unfold requestLineToken. now rewrite Hem.
Qed.

(** X9.  A code drawn a second time while the first request is pending
    is taken over by the second request: the registry holds the second
    email under it with a fresh five minutes, so a [LINK] message with
    that code, also from the first requester, is judged against the
    second email and never against the first. *)
Theorem reissued_code_last_writer_wins em1 em2 draw t1 t2 w0 :
  Js.truthy (Some em1) = true -> Js.truthy (Some em2) = true ->
  let w1 := (requestLineToken (Some em1) draw t1 w0).2 in
  let w2 := (requestLineToken (Some em2) draw t2 w1).2 in
  let second := {| email := em2; expires := t2 + 5 * 60 * 1000 |} in
  pendingLinks w2 = <[pretty draw := second]> (pendingLinks w0) /\
  forall later,
    validRecord (pendingLinks w2) (pretty draw) later
    = if later <? t2 + 5 * 60 * 1000 then Some second else None.
Proof.
  intros H1 H2 w1 w2 second. subst w1 w2.
  rewrite (requestLineToken_issues em2 draw t2 _ H2),
          (requestLineToken_issues em1 draw t1 _ H1).
  rewrite insert_insert_eq. split; [done|].
  intros later. unfold validRecord. now rewrite lookup_insert_eq.
Qed.

Lemma reissued_code_last_writer_wins_witness :
  validRecord
    (pendingLinks (requestLineToken (Some "b@x.com") 123456 (exInstant + 1000) exIssued).2)
    "123456" (exInstant + 2000)
  = Some {| email := "b@x.com"; expires := exInstant + 1000 + 5 * 60 * 1000 |}.
Proof.
  exact (proj2 (reissued_code_last_writer_wins "a@x.com" "b@x.com" 123456
                  exInstant (exInstant + 1000) exWorld eq_refl eq_refl)
               (exInstant + 2000)).
Defined.

(** X10.  Requests that draw different numbers do not disturb each
    other: after both, each code is in the registry with its own email
    and its own expiry. *)
Theorem distinct_draws_keep_both em1 em2 d1 d2 t1 t2 w0 :
  Js.truthy (Some em1) = true -> Js.truthy (Some em2) = true -> d1 <> d2 ->
  let w1 := (requestLineToken (Some em1) d1 t1 w0).2 in
  let w2 := (requestLineToken (Some em2) d2 t2 w1).2 in
  pendingLinks w2 !! pretty d1 = Some {| email := em1; expires := t1 + 5 * 60 * 1000 |} /\
  pendingLinks w2 !! pretty d2 = Some {| email := em2; expires := t2 + 5 * 60 * 1000 |}.
Proof.
  intros H1 H2 Hne w1 w2. subst w1 w2.
  rewrite (requestLineToken_issues em2 d2 t2 _ H2),
          (requestLineToken_issues em1 d1 t1 _ H1).
  assert (Hcode : (pretty d2 : string) <> pretty d1).
  { intros Heq. apply Hne. symmetry. now apply (inj pretty). }
  split.
  - rewrite lookup_insert_ne by done. apply lookup_insert_eq.
  - apply lookup_insert_eq.
Qed.

Lemma distinct_draws_keep_both_witness :
  let w2 := (requestLineToken (Some "b@x.com") 654321 (exInstant + 1000) exIssued).2 in
  pendingLinks w2 !! "123456"
    = Some {| email := "a@x.com"; expires := exInstant + 5 * 60 * 1000 |} /\
  pendingLinks w2 !! "654321"
    = Some {| email := "b@x.com"; expires := exInstant + 1000 + 5 * 60 * 1000 |}.
Proof.
  apply (distinct_draws_keep_both "a@x.com" "b@x.com" 123456 654321
           exInstant (exInstant + 1000) exWorld eq_refl eq_refl).
  discriminate.
Defined.

(* ================================================================== *)
(** * More on the webhook *)
(* ================================================================== *)

Section WebhookMore.

Variable hmac : string -> string -> string.
Variable cfg : Config.

(** X11.  In variant 2 a request with a body whose signature header is
    not the keyed hash of that body under the configured secret, or any
    request with a body when no secret is configured, is answered 401
    and changes nothing, whatever events it carries. *)
Theorem forged_request_rejected o dateNow req body w :
  variant cfg = Variant2 -> rawBody req = Some body ->
  (forall secret, LINE_SECRET cfg = Some secret -> secret <> EmptyString ->
                  x_line_signature req <> Some (hmac secret body)) ->
  webhook hmac cfg o dateNow req w = (Ret (SendStatus 401), w).
Proof.
  intros Hv Hbody Hsig.
  assert (Hfalse : verifySignature hmac cfg req = Ret false).
  { destruct (verifySignature_variant2 hmac cfg req Hv) as [Hnone Hsome].
    destruct (Js.truthy (LINE_SECRET cfg)) eqn:Ht; [|now apply Hnone].
    destruct (LINE_SECRET cfg) as [secret|] eqn:Hs; [|discriminate].
    assert (Hne : secret <> EmptyString).
    { intros ->. discriminate. }
    destruct (Hsome secret body eq_refl Hne Hbody) as (b & Hb & Hiff).
    rewrite Hb. destruct b; [|done].
    destruct (Hsig secret eq_refl Hne). now apply Hiff. }
  unfold webhook. now rewrite Hfalse.
Qed.

End WebhookMore.

Lemma forged_request_rejected_witness :
  webhook toyHmac (exConfig Variant2 0) allGood exInstant
    {| x_line_signature := Some (toyHmac "guess" "body"); rawBody := Some "body";
       events := Some [exTextEvent "LINK 123456"] |} exIssued
  = (Ret (SendStatus 401), exIssued).
Proof.
  apply (forged_request_rejected toyHmac (exConfig Variant2 0) allGood exInstant
           {| x_line_signature := Some (toyHmac "guess" "body"); rawBody := Some "body";
              events := Some [exTextEvent "LINK 123456"] |} "body" exIssued);
    [reflexivity | reflexivity |].
  intros secret [= <-] _. discriminate.
Defined.

(* ================================================================== *)
(** * Reading the message text *)
(* ================================================================== *)

Lemma app_cons_string c (s x : string) : String c s +:+ x = String c (s +:+ x).
Proof. reflexivity. Qed.

Lemma app_nil_r_string (s : string) : s +:+ EmptyString = s.
Proof.
  induction s as [|c s IH]; [reflexivity|]. now rewrite app_cons_string, IH.
Qed.

Lemma app_assoc_string (a b c : string) : (a +:+ b) +:+ c = a +:+ (b +:+ c).
Proof.
  induction a as [|x a IH]; [reflexivity|]. now rewrite !app_cons_string, IH.
Qed.

Ltac bool_to_prop :=
  unfold spaceLead, Js.isSpace3, Js.isSpace2, Js.isSpace, Js.byteIs in *;
  cbv zeta in *;
  repeat (progress rewrite ?orb_true_iff, ?andb_true_iff, ?orb_false_iff,
            ?andb_false_iff, ?Nat.eqb_eq, ?Nat.eqb_neq, ?Nat.leb_le, ?Nat.leb_gt in * ).

Ltac bytes_lia := bool_to_prop; lia.

Lemma trimStart_eq s :
  Js.trimStart s = match whiteHead s with Some r => Js.trimStart r | None => s end.
Proof.
  destruct s as [|c1 s1]; [reflexivity|]. cbn [Js.trimStart whiteHead].
  destruct (Js.isSpace c1); [reflexivity|].
  destruct s1 as [|c2 s2]; [reflexivity|].
  destruct (Js.isSpace2 c1 c2); [reflexivity|].
  destruct s2 as [|c3 s3]; [reflexivity|].
  now destruct (Js.isSpace3 c1 c2 c3).
Qed.

Lemma whiteHead_length s r :
  whiteHead s = Some r -> (String.length r < String.length s)%nat.
Proof.
  destruct s as [|c1 s1]; [discriminate|]. cbn [whiteHead].
  destruct (Js.isSpace c1); [intros [= <-]; simpl; lia|].
  destruct s1 as [|c2 s2]; [discriminate|].
  destruct (Js.isSpace2 c1 c2); [intros [= <-]; simpl; lia|].
  destruct s2 as [|c3 s3]; [discriminate|].
  destruct (Js.isSpace3 c1 c2 c3); [intros [= <-]; simpl; lia | discriminate].
Qed.

(** Induction along the white space at the head of a text. *)
Lemma white_ind (P : string -> Prop) :
  (forall s, (forall r, whiteHead s = Some r -> P r) -> P s) -> forall s, P s.
Proof.
  intros Hstep.
  assert (H : forall n s, (String.length s < n)%nat -> P s).
  { induction n as [|n IH]; intros s Hlt; [lia|].
    apply Hstep. intros r Hr. apply IH.
    pose proof (whiteHead_length s r Hr). lia. }
  intros s. apply (H (S (String.length s))). lia.
Qed.

Lemma whiteHead_app a r s :
  whiteHead a = Some r -> whiteHead (a +:+ s) = Some (r +:+ s).
Proof.
  destruct a as [|c1 a1]; [discriminate|]. rewrite app_cons_string. cbn [whiteHead].
  destruct (Js.isSpace c1); [intros [= <-]; reflexivity|].
  destruct a1 as [|c2 a2]; [discriminate|]. rewrite app_cons_string.
  destruct (Js.isSpace2 c1 c2); [intros [= <-]; reflexivity|].
  destruct a2 as [|c3 a3]; [discriminate|]. rewrite app_cons_string.
  destruct (Js.isSpace3 c1 c2 c3); [intros [= <-]; reflexivity | discriminate].
Qed.

Lemma allWhite_eq s :
  Js.allWhite s = match whiteHead s with
                  | Some r => Js.allWhite r
                  | None => match s with EmptyString => true | _ => false end
                  end.
Proof.
  unfold Js.allWhite. rewrite trimStart_eq. now destruct (whiteHead s).
Qed.

Lemma allWhite_nil s : Js.allWhite s = true -> whiteHead s = None -> s = EmptyString.
Proof.
  intros H Hn. rewrite allWhite_eq, Hn in H. now destruct s.
Qed.

(** White space at the head of a text is what [trimStart] removes. *)
Lemma trimStart_white a s : Js.allWhite a = true -> Js.trimStart (a +:+ s) = Js.trimStart s.
Proof.
  revert a. apply (white_ind (fun a => Js.allWhite a = true ->
                                       Js.trimStart (a +:+ s) = Js.trimStart s)).
  intros a IH Ha. destruct (whiteHead a) as [r|] eqn:Hr.
  - rewrite (trimStart_eq (a +:+ s)), (whiteHead_app a r s Hr).
    apply (IH r eq_refl). now rewrite allWhite_eq, Hr in Ha.
  - now rewrite (allWhite_nil a Ha Hr).
Qed.

Lemma allWhite_app a s : Js.allWhite a = true -> Js.allWhite (a +:+ s) = Js.allWhite s.
Proof. intros Ha. unfold Js.allWhite. now rewrite trimStart_white. Qed.

Lemma whiteHead_lead d b r : whiteHead (String d b) = Some r -> spaceLead d = true.
Proof.
  cbn [whiteHead]. destruct (Js.isSpace d) eqn:H1; [intros _; unfold spaceLead; now rewrite H1|].
  destruct b as [|c2 b2]; [discriminate|].
  destruct (Js.isSpace2 d c2) eqn:H2.
  { intros _. unfold Js.isSpace2 in H2. apply andb_true_iff in H2 as [H2 _].
    unfold spaceLead. rewrite H2. now rewrite orb_true_r. }
  destruct b2 as [|c3 b3]; [discriminate|].
  destruct (Js.isSpace3 d c2 c3) eqn:H3; [|discriminate]. intros _.
  destruct (spaceLead d) eqn:E; [reflexivity|]. exfalso. clear H1 H2.
  bool_to_prop; lia.
Qed.

Lemma whiteHead_solid c s : spaceLead c = false -> whiteHead (String c s) = None.
Proof.
  intros H. destruct (whiteHead (String c s)) as [r|] eqn:E; [|reflexivity].
  apply whiteHead_lead in E. congruence.
Qed.

Lemma trimStart_head c s : spaceLead c = false -> Js.trimStart (String c s) = String c s.
Proof. intros H. now rewrite trimStart_eq, whiteHead_solid. Qed.

Lemma allWhite_head c s : spaceLead c = false -> Js.allWhite (String c s) = false.
Proof. intros H. now rewrite allWhite_eq, whiteHead_solid. Qed.

Lemma trimEnd_head c s :
  spaceLead c = false -> Js.trimEnd (String c s) = String c (Js.trimEnd s).
Proof. intros H. cbn [Js.trimEnd]. now rewrite allWhite_head. Qed.

Lemma trimEnd_white b : Js.allWhite b = true -> Js.trimEnd b = EmptyString.
Proof. intros H. destruct b; [reflexivity|]. cbn [Js.trimEnd]. now rewrite H. Qed.


(** Text of which no byte begins white space is kept by [trimEnd]. *)
Lemma trimEnd_solid a s : solid a = true -> Js.trimEnd (a +:+ s) = a +:+ Js.trimEnd s.
Proof.
  induction a as [|c a IH]; [reflexivity|]. intros H. simpl in H.
  apply andb_true_iff in H as [Hc Ha]. apply negb_true_iff in Hc.
  rewrite !app_cons_string, trimEnd_head by done. now rewrite IH.
Qed.

(** A byte that begins white space does not continue a character. *)
Lemma lead_not_second c d : spaceLead d = true -> Js.isSpace2 c d = false.
Proof.
  intros H. destruct (Js.isSpace2 c d) eqn:E; [|reflexivity]. exfalso. bool_to_prop; lia.
Qed.

Lemma lead_not_second3 c d e : spaceLead d = true -> Js.isSpace3 c d e = false.
Proof.
  intros H. destruct (Js.isSpace3 c d e) eqn:E; [|reflexivity]. exfalso. bool_to_prop; lia.
Qed.

Lemma lead_not_third c c2 d : spaceLead d = true -> Js.isSpace3 c c2 d = false.
Proof.
  intros H. destruct (Js.isSpace3 c c2 d) eqn:E; [|reflexivity]. exfalso. bool_to_prop; lia.
Qed.

Lemma whiteHead_app_none x b :
  whiteHead x = None -> x <> EmptyString -> Js.allWhite b = true ->
  whiteHead (x +:+ b) = None.
Proof.
  intros Hx Hne Hb. destruct b as [|d b'].
  { now rewrite app_nil_r_string. }
  assert (Hd : spaceLead d = true).
  { destruct (whiteHead (String d b')) as [r|] eqn:Hr.
    - now apply whiteHead_lead in Hr.
    - now pose proof (allWhite_nil _ Hb Hr). }
  destruct x as [|c1 [|c2 [|c3 x3]]]; [done| | |].
  - change (whiteHead (String c1 (String d b')) = None).
    cbn [whiteHead] in *. destruct (Js.isSpace c1); [discriminate|].
    rewrite (lead_not_second c1 d Hd).
    destruct b' as [|d2 b'']; [reflexivity|]. now rewrite (lead_not_second3 c1 d d2 Hd).
  - change (whiteHead (String c1 (String c2 (String d b'))) = None).
    cbn [whiteHead] in *. destruct (Js.isSpace c1); [discriminate|].
    destruct (Js.isSpace2 c1 c2); [discriminate|].
    now rewrite (lead_not_third c1 c2 d Hd).
  - change (whiteHead (String c1 (String c2 (String c3 (x3 +:+ String d b')))) = None).
    cbn [whiteHead] in *. destruct (Js.isSpace c1); [discriminate|].
    destruct (Js.isSpace2 c1 c2); [discriminate|].
    now destruct (Js.isSpace3 c1 c2 c3).
Qed.

(** White space after a text does not make the text white space. *)
Lemma allWhite_app_r x b : Js.allWhite b = true -> Js.allWhite (x +:+ b) = Js.allWhite x.
Proof.
  intros Hb. revert x.
  apply (white_ind (fun x => Js.allWhite (x +:+ b) = Js.allWhite x)).
  intros x IH. destruct (whiteHead x) as [r|] eqn:Hr.
  - rewrite (allWhite_eq (x +:+ b)), (whiteHead_app x r b Hr), (allWhite_eq x), Hr.
    now apply IH.
  - destruct x as [|c x1]; [exact Hb|].
    rewrite (allWhite_eq (String c x1 +:+ b)), whiteHead_app_none by done.
    rewrite (allWhite_eq (String c x1)), Hr. reflexivity.
Qed.

(** White space at the end of a text is what [trimEnd] removes. *)
Lemma trimEnd_app_white x b : Js.allWhite b = true -> Js.trimEnd (x +:+ b) = Js.trimEnd x.
Proof.
  intros Hb. induction x as [|c x IH].
  - now apply trimEnd_white.
  - rewrite app_cons_string. cbn [Js.trimEnd].
    rewrite <- app_cons_string, (allWhite_app_r (String c x) b Hb), IH. reflexivity.
Qed.

Lemma second_not_lead c1 c2 : Js.isSpace2 c1 c2 = true -> spaceLead c2 = false.
Proof.
  intros H. destruct (spaceLead c2) eqn:E; [|reflexivity]. exfalso. bool_to_prop; lia.
Qed.

Lemma third_not_lead c1 c2 c3 :
  Js.isSpace3 c1 c2 c3 = true -> spaceLead c2 = false /\ spaceLead c3 = false.
Proof.
  intros H. split.
  - destruct (spaceLead c2) eqn:E; [|reflexivity]. exfalso. bool_to_prop; lia.
  - destruct (spaceLead c3) eqn:E; [|reflexivity]. exfalso. bool_to_prop; lia.
Qed.

(** White space before text that is not all white space is kept by
    [trimEnd]. *)
Lemma trimEnd_white_before a s :
  Js.allWhite a = true -> Js.allWhite s = false ->
  Js.trimEnd (a +:+ s) = a +:+ Js.trimEnd s.
Proof.
  intros Ha Hs. revert a Ha.
  apply (white_ind (fun a => Js.allWhite a = true ->
                             Js.trimEnd (a +:+ s) = a +:+ Js.trimEnd s)).
  intros a IH Ha.
  destruct a as [|c1 a1]; [reflexivity|].
  assert (Hkeep : Js.trimEnd (String c1 a1 +:+ s) = String c1 (Js.trimEnd (a1 +:+ s))).
  { rewrite app_cons_string. cbn [Js.trimEnd].
    rewrite <- app_cons_string, (allWhite_app _ s Ha), Hs. reflexivity. }
  rewrite Hkeep, app_cons_string. f_equal.
  rewrite allWhite_eq in Ha. cbn [whiteHead] in Ha, IH.
  destruct (Js.isSpace c1).
  { now apply IH. }
  destruct a1 as [|c2 a2]; [discriminate|].
  destruct (Js.isSpace2 c1 c2) eqn:H2.
  { apply second_not_lead in H2.
    rewrite !app_cons_string, trimEnd_head by done. f_equal. now apply IH. }
  destruct a2 as [|c3 a3]; [discriminate|].
  destruct (Js.isSpace3 c1 c2 c3) eqn:H3; [|discriminate].
  apply third_not_lead in H3 as [L2 L3].
  rewrite !app_cons_string, trimEnd_head by done. f_equal.
  rewrite trimEnd_head by done. f_equal. now apply IH.
Qed.

(** What [trim] does: white space on both sides of a text that neither
    starts nor ends with white space is removed, and nothing else. *)
Lemma trim_core a core b :
  Js.allWhite a = true -> Js.allWhite b = true -> trimmed core -> core <> EmptyString ->
  Js.trim (a +:+ core +:+ b) = core.
Proof.
  intros Ha Hb [Hs He] Hne. unfold Js.trim.
  rewrite (trimStart_white a _ Ha).
  assert (Hstart : Js.trimStart (core +:+ b) = core +:+ b).
  { rewrite trimStart_eq. destruct (whiteHead core) as [r|] eqn:Hr.
    - rewrite trimStart_eq, Hr in Hs.
      pose proof (whiteHead_length core r Hr) as Hlen.
      assert (Hle : (String.length (Js.trimStart r) <= String.length r)%nat).
      { clear. revert r. apply (white_ind (fun r => (String.length (Js.trimStart r)
                                                     <= String.length r)%nat)).
        intros r IH. rewrite trimStart_eq. destruct (whiteHead r) as [r'|] eqn:Hr'; [|lia].
        pose proof (whiteHead_length r r' Hr'). specialize (IH r' eq_refl). lia. }
      rewrite Hs in Hle. lia.
    - now rewrite whiteHead_app_none. }
  rewrite Hstart, trimEnd_app_white by done. exact He.
Qed.

Lemma toUpperCase_eq s :
  Js.toUpperCase s
  = match upperHead s with
    | Some (u, r) => u +:+ Js.toUpperCase r
    | None => match s with
              | EmptyString => EmptyString
              | String c s1 => String (Js.upper c) (Js.toUpperCase s1)
              end
    end.
Proof.
  destruct s as [|c1 [|c2 s2]]; [reflexivity | reflexivity |].
  cbn [Js.toUpperCase upperHead]. destruct (Js.upper2 c1 c2); [reflexivity|].
  destruct s2 as [|c3 s3]; [reflexivity|]. now destruct (Js.upper3 c1 c2 c3).
Qed.

Lemma byteIs_low n c :
  (nat_of_ascii c < 128)%nat -> (128 <= n)%nat -> Js.byteIs n c = false.
Proof. intros H1 H2. unfold Js.byteIs. apply Nat.eqb_neq. lia. Qed.

Lemma upperHead_low c s : (nat_of_ascii c < 128)%nat -> upperHead (String c s) = None.
Proof.
  intros Hc. destruct s as [|c2 s2]; [reflexivity|]. cbn [upperHead].
  assert (H2 : Js.upper2 c c2 = None).
  { unfold Js.upper2, Js.upperTable2. cbn [List.find fst snd].
    rewrite !(byteIs_low _ c Hc) by lia. reflexivity. }
  rewrite H2. destruct s2 as [|c3 s3]; [reflexivity|].
  assert (H3 : Js.upper3 c c2 c3 = None).
  { unfold Js.upper3, Js.upperTable3. cbn [List.find fst snd].
    rewrite !(byteIs_low _ c Hc) by lia. reflexivity. }
  now rewrite H3.
Qed.

(** On a character of ASCII [toUpperCase] works byte by byte. *)
Lemma toUpperCase_low c s :
  (nat_of_ascii c < 128)%nat ->
  Js.toUpperCase (String c s) = String (Js.upper c) (Js.toUpperCase s).
Proof. intros Hc. now rewrite toUpperCase_eq, upperHead_low. Qed.

Lemma upper_letter c :
  (65 <= nat_of_ascii (Js.upper c) <= 90)%nat ->
  (nat_of_ascii c < 128)%nat /\ spaceLead c = false.
Proof.
  destruct c as [[] [] [] [] [] [] [] []]; vm_compute; intros [H1 H2];
    first [split; [lia | reflexivity] | exfalso; lia].
Qed.







Lemma solid_head s : solid s = true -> s <> EmptyString -> Js.trimStart s = s.
Proof.
  destruct s as [|c s]; [done|]. cbn [solid]. intros H _.
  apply andb_true_iff in H as [H _]. apply negb_true_iff in H. now apply trimStart_head.
Qed.


Lemma foldCase_app a b : Js.foldCase (a +:+ b) = Js.foldCase a +:+ Js.foldCase b.
Proof.
  induction a as [|c a IH]; [reflexivity|].
  rewrite app_cons_string. simpl. now rewrite app_cons_string, IH.
Qed.

Lemma foldCase_length a : String.length (Js.foldCase a) = String.length a.
Proof. induction a as [|c a IH]; simpl; [done | now rewrite IH]. Qed.

Lemma drop_app p x : Js.drop (String.length p) (p +:+ x) = x.
Proof.
  induction p as [|c p IH]; [reflexivity|]. rewrite app_cons_string. exact IH.
Qed.

Lemma startsWith_app p y : Js.startsWith (p +:+ y) p = true.
Proof.
  unfold Js.startsWith. induction p as [|c p IH].
  - now destruct y.
  - rewrite app_cons_string. simpl. destruct (ascii_dec c c); [exact IH | done].
Qed.

Lemma removeFirstCI_head p s :
  Js.startsWith (Js.foldCase s) p = true ->
  Js.removeFirstCI p s = Js.drop (String.length p) s.
Proof. intros H. destruct s; simpl; simpl in H; now rewrite H. Qed.

(** A word that the pattern [/LINK/i] matches is made of four letters
    of ASCII. *)
Lemma link_word_ascii word y :
  Js.foldCase word = "LINK" ->
  solid word = true /\ word <> EmptyString /\
  Js.toUpperCase (word +:+ " " +:+ y) = "LINK " +:+ Js.toUpperCase y.
Proof.
  destruct word as [|c1 [|c2 [|c3 [|c4 [|c5 p]]]]]; try discriminate.
  intros H. simpl in H. injection H as H1 H2 H3 H4.
  destruct (upper_letter c1) as [A1 L1]; [rewrite H1; vm_compute; lia|].
  destruct (upper_letter c2) as [A2 L2]; [rewrite H2; vm_compute; lia|].
  destruct (upper_letter c3) as [A3 L3]; [rewrite H3; vm_compute; lia|].
  destruct (upper_letter c4) as [A4 L4]; [rewrite H4; vm_compute; lia|].
  split; [cbn [solid]; now rewrite L1, L2, L3, L4|]. split; [discriminate|].
  change (Js.toUpperCase (String c1 (String c2 (String c3 (String c4 (String " " y)))))
          = "LINK " +:+ Js.toUpperCase y).
  rewrite !toUpperCase_low by first [done | vm_compute; lia].
  rewrite H1, H2, H3, H4. reflexivity.
Qed.

Lemma solid_head_app s x :
  solid s = true -> s <> EmptyString -> Js.trimStart (s +:+ x) = s +:+ x.
Proof.
  destruct s as [|c s]; [done|]. cbn [solid]. intros H _.
  apply andb_true_iff in H as [H _]. apply negb_true_iff in H.
  rewrite app_cons_string. now apply trimStart_head.
Qed.

Lemma trimmed_not_white code : trimmed code -> code <> EmptyString -> Js.allWhite code = false.
Proof.
  intros [Hs _] Hne. unfold Js.allWhite. rewrite Hs. now destruct code.
Qed.

(** X12.  A text made of the word [LINK] in any mix of upper and lower
    case letters of ASCII, one space, and a code is read as that code,
    with any white space that [trim] removes (of ASCII or not) before
    the word, between the space and the code, and after the code; the
    code may be any non-empty text that neither starts nor ends with
    such white space, and is returned as it is. *)
Theorem linkCode_accepts ws1 word ws2 code ws3 :
  Js.allWhite ws1 = true -> Js.allWhite ws2 = true -> Js.allWhite ws3 = true ->
  Js.foldCase word = "LINK" ->
  trimmed code -> code <> EmptyString ->
  linkCode (ws1 +:+ (word +:+ " " +:+ ws2 +:+ code) +:+ ws3) = Some code.
Proof.
  intros H1 H2 H3 Hw Hc Hne.
  destruct (link_word_ascii word (ws2 +:+ code) Hw) as (Hsolid & Hwne & Hup).
  pose proof (trimmed_not_white code Hc Hne) as Hnw.
  destruct Hc as [Hcs Hce].
  assert (Hsp : Js.allWhite (" " +:+ ws2) = true).
  { rewrite allWhite_eq. exact H2. }
  assert (Htrim : Js.trim (ws1 +:+ (word +:+ " " +:+ ws2 +:+ code) +:+ ws3)
                  = word +:+ " " +:+ ws2 +:+ code).
  { unfold Js.trim. rewrite (trimStart_white ws1 _ H1).
    rewrite app_assoc_string, solid_head_app by done.
    rewrite trimEnd_solid by done. f_equal.
    replace (" " +:+ ws2 +:+ code) with ((" " +:+ ws2) +:+ code)
      by now rewrite app_assoc_string.
    rewrite app_assoc_string, trimEnd_white_before; [| done |].
    - now rewrite trimEnd_app_white, Hce.
    - now rewrite allWhite_app_r. }
  unfold linkCode. cbv zeta. rewrite Htrim, Hup, startsWith_app.
  assert (Hfold : Js.startsWith (Js.foldCase (word +:+ " " +:+ ws2 +:+ code)) "LINK " = true).
  { replace (word +:+ " " +:+ ws2 +:+ code) with ((word +:+ " ") +:+ (ws2 +:+ code))
      by now rewrite app_assoc_string.
    rewrite foldCase_app, foldCase_app, Hw. apply startsWith_app. }
  rewrite (removeFirstCI_head _ _ Hfold).
  replace (String.length "LINK ") with (String.length (word +:+ " ")).
  2: { rewrite <- foldCase_length, foldCase_app, Hw. reflexivity. }
  replace (word +:+ " " +:+ ws2 +:+ code) with ((word +:+ " ") +:+ (ws2 +:+ code))
    by now rewrite app_assoc_string.
  rewrite drop_app. unfold Js.trim. now rewrite (trimStart_white ws2 _ H2), Hcs, Hce.
Qed.

Lemma linkCode_accepts_witness :
  linkCode (noBreakSpace +:+ ("LiNk" +:+ " " +:+ ideographicSpace +:+ "12 34") +:+ " ")
  = Some "12 34".
Proof.
  apply (linkCode_accepts noBreakSpace "LiNk" ideographicSpace "12 34" " ");
    try reflexivity; [split; reflexivity | discriminate].
Defined.

(** A text whose [LINK] is written with a dotless i passes the test on
    the upper case, but the pattern [/LINK /i] does not match it: the
    whole text is taken as the code. *)
Lemma linkCode_dotless_i :
  linkCode ("l" +:+ dotlessI +:+ "nk 123456") = Some ("l" +:+ dotlessI +:+ "nk 123456").
Proof. vm_compute. reflexivity. Qed.

Section LinkWithoutCode.

Variable hmac : string -> string -> string.
Variable cfg : Config.



End LinkWithoutCode.


(* ================================================================== *)
(** * The path of a link record *)
(* ================================================================== *)

Lemma replaceDots_idem s : Js.replaceDots (Js.replaceDots s) = Js.replaceDots s.
Proof.
  induction s as [|c s IH]; simpl; [done|]. rewrite IH. f_equal.
  destruct (Ascii.eqb c ".") eqn:Hc; [reflexivity | now rewrite Hc].
Qed.

Lemma includes_cons c s p :
  includes (String c s) p
  = if Js.startsWith (String c s) p then true else includes s p.
Proof. reflexivity. Qed.

Lemma startsWith_char c d s :
  Js.startsWith (String c s) (String d EmptyString)
  = if ascii_dec d c then true else false.
Proof.
  unfold Js.startsWith. cbn [String.prefix].
  destruct (ascii_dec d c); [now destruct s | done].
Qed.

Lemma replaceDots_no_dot s : includes (Js.replaceDots s) "." = false.
Proof.
  induction s as [|c s IH]; [reflexivity|].
  change (Js.replaceDots (String c s))
    with (String (if Ascii.eqb c "." then "_"%char else c) (Js.replaceDots s)).
  rewrite includes_cons, startsWith_char, IH.
  destruct (ascii_dec "." (if Ascii.eqb c "." then "_"%char else c)) as [Heq|]; [|done].
  destruct (Ascii.eqb c ".") eqn:Hc; [discriminate|].
  apply Ascii.eqb_neq in Hc. congruence.
Qed.

(** X14.  The path of a link record has no dot, and sanitising it again
    changes nothing.  So two emails that are sanitised to the same text,
    such as an email and its own sanitised form, share one link record:
    when both are redeemed, the record holds the user of the second
    redemption only. *)
Theorem sanitised_emails_share_link cfg o1 o2 t1 t2 uid1 uid2 tok1 tok2 c1 c2 w rec1 rec2 :
  validRecord (pendingLinks w) c1 t1 = Some rec1 ->
  dbOk o1 (ioSeq w) (SetLink (Js.replaceDots (email rec1))) = true ->
  let w1 := (redeem cfg o1 t1 uid1 tok1 c1 w).2 in
  validRecord (pendingLinks w1) c2 t2 = Some rec2 ->
  dbOk o2 (ioSeq w1) (SetLink (Js.replaceDots (email rec2))) = true ->
  Js.replaceDots (email rec1) = Js.replaceDots (email rec2) ->
  let w2 := (redeem cfg o2 t2 uid2 tok2 c2 w1).2 in
  includes (Js.replaceDots (email rec1)) "." = false /\
  Js.replaceDots (Js.replaceDots (email rec1)) = Js.replaceDots (email rec1) /\
  line_links w1 !! Js.replaceDots (email rec1)
    = Some {| lineUserId := uid1; linkedAt := t1 |} /\
  line_links w2 !! Js.replaceDots (email rec1)
    = Some {| lineUserId := uid2; linkedAt := t2 |}.
Proof.
  intros Hv1 Hdb1 w1 Hv2 Hdb2 Hsame w2.
  destruct (redeem_found toyHmac cfg o1 t1 uid1 tok1 c1 w rec1 Hv1 Hdb1) as (_ & Hl1 & _).
  destruct (redeem_found toyHmac cfg o2 t2 uid2 tok2 c2 w1 rec2 Hv2 Hdb2) as (_ & Hl2 & _).
  fold w1 in Hl1. fold w2 in Hl2.
  split; [apply replaceDots_no_dot|]. split; [apply replaceDots_idem|]. split.
  - rewrite Hl1. apply lookup_insert_eq.
  - rewrite Hl2, Hsame. apply lookup_insert_eq.
Qed.

Lemma sanitised_emails_share_link_witness :
  let w1 := (redeem (exConfig Variant2 0) allGood (exInstant + 1000)
               "U1" "rt1" "111111" exTwoPending).2 in
  let w2 := (redeem (exConfig Variant2 0) allGood (exInstant + 2000)
               "U2" "rt2" "222222" w1).2 in
  line_links w1 !! "a_b@x_com" = Some {| lineUserId := "U1"; linkedAt := exInstant + 1000 |} /\
  line_links w2 !! "a_b@x_com" = Some {| lineUserId := "U2"; linkedAt := exInstant + 2000 |}.
Proof.
  intros w1 w2.
  assert (Hv1 : validRecord (pendingLinks exTwoPending) "111111" (exInstant + 1000)
                = Some {| email := "a.b@x.com"; expires := exInstant + 5 * 60 * 1000 |})
    by (vm_compute; reflexivity).
  assert (Hv2 : validRecord (pendingLinks w1) "222222" (exInstant + 2000)
                = Some {| email := "a_b@x.com"; expires := exInstant + 5 * 60 * 1000 |})
    by (vm_compute; reflexivity).
  destruct (sanitised_emails_share_link (exConfig Variant2 0) allGood allGood
              (exInstant + 1000) (exInstant + 2000) "U1" "U2" "rt1" "rt2"
              "111111" "222222" exTwoPending _ _ Hv1 eq_refl Hv2 eq_refl eq_refl)
    as (_ & _ & H1 & H2).
  split; [exact H1 | exact H2].
Defined.

(* ================================================================== *)
(** * The service worker: requests it leaves alone *)
(* ================================================================== *)

Lemma startsWith_app_mono a b p :
  Js.startsWith a p = true -> Js.startsWith (a +:+ b) p = true.
Proof.
  unfold Js.startsWith. revert a. induction p as [|c p IH]; intros a H.
  - now destruct (a +:+ b).
  - destruct a as [|d a]; [discriminate|].
    rewrite app_cons_string. cbn [String.prefix] in *.
    destruct (ascii_dec c d); [now apply IH | discriminate].
Qed.

Lemma includes_of_startsWith s p : Js.startsWith s p = true -> includes s p = true.
Proof.
  intros H. destruct s; [cbn [includes] | rewrite includes_cons]; now rewrite H.
Qed.

Lemma includes_app a b p : includes a p = true -> includes (a +:+ b) p = true.
Proof.
  induction a as [|c a IH]; intros H.
  - cbn [includes] in H. apply includes_of_startsWith.
    apply (startsWith_app_mono EmptyString b p).
    now destruct (Js.startsWith EmptyString p).
  - rewrite app_cons_string, includes_cons. rewrite includes_cons in H.
    destruct (Js.startsWith (String c a) p) eqn:Hs.
    + pose proof (startsWith_app_mono (String c a) b p Hs) as Hm.
      rewrite app_cons_string in Hm. now rewrite Hm.
    + rewrite (IH H). now destruct (Js.startsWith (String c (a +:+ b)) p).
Qed.

Lemma bypassed_app a b : bypassed a = true -> bypassed (a +:+ b) = true.
Proof.
  unfold bypassed. rewrite !orb_true_iff.
  intros [[[H|H]|H]|H]; rewrite (includes_app a b _ H); auto.
Qed.

(** X15.  When the address of the site itself contains one of the four
    markers of the fetch listener ([/api/], [firebase], [googleapis],
    [onrender.com]), every request to the site is left to the browser:
    the worker answers none, asks the network for none, and reads and
    writes no cache, navigations included. *)
Theorem marked_origin_disables_worker origin net st path mode method :
  bypassed origin = true ->
  swFetch origin net st
    {| rq_url := origin +:+ path; rq_mode := mode; rq_method := method |}
  = (PassThrough, st).
Proof.
  intros H. unfold swFetch. simpl. now rewrite (bypassed_app origin path H).
Qed.

Lemma marked_origin_disables_worker_witness :
  swFetch "https://suzi.onrender.com" offline exInstalled
    {| rq_url := "https://suzi.onrender.com" +:+ "/index.html";
       rq_mode := "navigate"; rq_method := "GET" |}
  = (PassThrough, exInstalled).
Proof.
  apply (marked_origin_disables_worker "https://suzi.onrender.com" offline exInstalled
           "/index.html" "navigate" "GET").
  vm_compute. reflexivity.
Defined.

(* ================================================================== *)
(** * The service worker: what the caches hold *)
(* ================================================================== *)

Lemma cachesMatch_app cs cs' u :
  cachesMatch (cs ++ cs') u
  = match cachesMatch cs u with
    | Some r => Some r
    | None => cachesMatch cs' u
    end.
Proof.
  induction cs as [|[n c] cs IH]; simpl; [done|]. now destruct (c !! u).
Qed.

Lemma cachesMatch_open name cs u :
  cachesMatch (cachesOpen name cs) u = cachesMatch cs u.
Proof.
  unfold cachesOpen. destruct (cachesHas name cs); [done|].
  rewrite cachesMatch_app. simpl. rewrite lookup_empty.
  now destruct (cachesMatch cs u).
Qed.

Lemma cachesMatch_put_other name u' u r cs :
  u' <> u -> cachesMatch (cachePut name u' r cs) u = cachesMatch cs u.
Proof.
  intros Hne. induction cs as [|[n c] cs IH]; simpl; [done|].
  destruct (String.eqb n name); simpl; rewrite ?lookup_insert_ne by done;
    now rewrite IH.
Qed.

Lemma cachesMatch_put_miss name u r cs :
  cachesMatch cs u = None ->
  cachesMatch (cachePut name u r cs) u = if cachesHas name cs then Some r else None.
Proof.
  induction cs as [|[n c] cs IH]; simpl; [done|].
  destruct (c !! u) eqn:Hc; [discriminate|]. intros Hrest.
  destruct (String.eqb n name); simpl.
  - now rewrite lookup_insert_eq.
  - rewrite Hc. now apply IH.
Qed.

Lemma cachesHas_open name cs : cachesHas name (cachesOpen name cs) = true.
Proof.
  unfold cachesOpen. destruct (cachesHas name cs) eqn:H; [done|].
  unfold cachesHas. rewrite existsb_app. simpl.
  rewrite String.eqb_refl. now rewrite orb_true_r.
Qed.

Lemma filter_absent name (cs : CacheStorage) :
  ~ In name (map fst cs) -> List.filter (fun x => String.eqb x.1 name) cs = [].
Proof.
  induction cs as [|[n c] cs IH]; simpl; [done|]. intros Hn.
  destruct (String.eqb n name) eqn:He; [apply String.eqb_eq in He; tauto|].
  apply IH. tauto.
Qed.

(** X16.  After activation only the cache of the current version is
    looked at: [caches.match] finds for a URL what that cache holds for
    it, and nothing when there is no such cache; what older caches hold
    is gone. *)
Theorem activate_keeps_current_cache_only st u :
  NoDup (map fst (caches st)) ->
  cachesMatch (caches (swActivate st)) u
  = cacheNamed CACHE_NAME (caches st) ≫= fun c => c !! u.
Proof.
  unfold swActivate. simpl. induction (caches st) as [|[n c] cs IH]; simpl; [done|].
  intros Hnd. apply NoDup_cons in Hnd as [Hni Hnd]. rewrite list_elem_of_In in Hni.
  destruct (String.eqb n CACHE_NAME) eqn:He; simpl.
  - apply String.eqb_eq in He. subst n.
    rewrite (filter_absent CACHE_NAME cs Hni). simpl. now destruct (c !! u).
  - now apply IH.
Qed.

Lemma activate_keeps_current_cache_only_witness :
  cachesMatch (caches (swActivate exOldStorage)) "https://suzi.example/index.html" = None.
Proof.
  rewrite (activate_keeps_current_cache_only exOldStorage
             "https://suzi.example/index.html").
  - reflexivity.
  - simpl. apply (bool_decide_unpack _). vm_compute. reflexivity.
Defined.

(** X17.  A GET request over http or https that the worker handles,
    that is not a navigation and whose URL, fragment apart, is not yet
    cached, is answered from the network, and the answer is stored
    whatever its status (other than 206, and unless it carries
    [Vary: *]); from then on every such request for that URL, whatever
    its fragment, is answered with that stored answer, without asking
    the network and without changing the caches, whatever the network
    would answer. *)
Theorem cached_after_first_fetch origin net st req res :
  bypassed (rq_url req) = false ->
  String.eqb (rq_mode req) "navigate" = false ->
  rq_method req = "GET" -> httpScheme (rq_url req) = true ->
  cachesMatch (caches st) (noFragment (rq_url req)) = None ->
  net req = Some res ->
  rs_status res <> 206 -> rs_varyStar res = false ->
  let st1 := (swFetch origin net st req).2 in
  (swFetch origin net st req).1 = Respond res /\
  fetches st1 = fetches st ++ [req] /\
  forall net' req',
    noFragment (rq_url req') = noFragment (rq_url req) ->
    bypassed (rq_url req') = false ->
    String.eqb (rq_mode req') "navigate" = false -> rq_method req' = "GET" ->
    swFetch origin net' st1 req' = (Respond res, st1).
Proof.
  intros Hb Hm Hg Hh Hmiss Hnet Hs Hv st1. subst st1.
  assert (Hput : putAllowed req res = true).
  { unfold putAllowed. rewrite Hg, Hh, Hv. simpl.
    destruct (rs_status res =? 206) eqn:H6; [apply Z.eqb_eq in H6; done | done]. }
  assert (Hstep : swFetch origin net st req
                  = (Respond res,
                     {| caches := cachePut CACHE_NAME (noFragment (rq_url req)) res
                                    (cachesOpen CACHE_NAME (caches st));
                        fetches := fetches st ++ [req] |})).
  { unfold swFetch. rewrite Hb, Hm, Hg. simpl. now rewrite Hmiss, Hnet, Hput. }
  rewrite Hstep. simpl. split; [done|]. split; [done|]. intros net' req' Hu Hb' Hm' Hg'.
  unfold swFetch. rewrite Hb', Hm', Hg', Hu. simpl.
  rewrite cachesMatch_put_miss by now rewrite cachesMatch_open.
  now rewrite cachesHas_open.
Qed.

Lemma cached_after_first_fetch_witness :
  let st1 := (swFetch exOrigin exNet exInstalled exScript).2 in
  (swFetch exOrigin exNet exInstalled exScript).1 = Respond (exPage (rq_url exScript)) /\
  fetches st1 = fetches exInstalled ++ [exScript] /\
  forall net' req',
    noFragment (rq_url req') = noFragment (rq_url exScript) ->
    bypassed (rq_url req') = false ->
    String.eqb (rq_mode req') "navigate" = false -> rq_method req' = "GET" ->
    swFetch exOrigin net' st1 req' = (Respond (exPage (rq_url exScript)), st1).
Proof.
  apply (cached_after_first_fetch exOrigin exNet exInstalled exScript
           (exPage (rq_url exScript)));
    first [reflexivity | vm_compute; reflexivity | vm_compute; discriminate].
Defined.

(** The index page asked for with a fragment is answered from the cache
    that the installation has filled, without asking the network. *)
Lemma fragment_served_from_cache :
  swFetch exOrigin exNet exInstalled exAnchor
  = (Respond (exPage "https://suzi.example/index.html"), exInstalled).
Proof. vm_compute. reflexivity. Qed.

(** X18.  The fetch listener never replaces what is cached: a URL that
    [caches.match] finds keeps the very same stored response through
    the handling of any request under any network. *)
Theorem cached_entries_never_replaced origin net st req u r :
  cachesMatch (caches st) u = Some r ->
  cachesMatch (caches (swFetch origin net st req).2) u = Some r.
Proof.
  intros Hu. unfold swFetch.
  destruct (bypassed (rq_url req)); [done|].
  destruct (String.eqb (rq_mode req) "navigate").
  - destruct (net req); [done|].
    now destruct (cachesMatch (caches st) (origin +:+ "/index.html")).
  - destruct (String.eqb (rq_method req) "GET") eqn:Hg.
    + destruct (cachesMatch (caches st) (noFragment (rq_url req))) eqn:Hm; [done|].
      destruct (net req) as [res|]; [|done]. simpl.
      assert (Hne : noFragment (rq_url req) <> u)
        by (intros Heq; rewrite Heq in Hm; congruence).
      destruct (putAllowed req res).
      * rewrite cachesMatch_put_other by done. now rewrite cachesMatch_open.
      * now rewrite cachesMatch_open.
    + destruct (net req) as [res|]; [|done]. simpl.
      unfold putAllowed. rewrite Hg. simpl. now rewrite cachesMatch_open.
Qed.

Lemma cached_entries_never_replaced_witness :
  cachesMatch
    (caches (swFetch exOrigin (fun _ => Some {| rs_status := 200; rs_varyStar := false;
                                                 rs_body := "new" |})
               exInstalled exPost).2)
    "https://suzi.example/index.html"
  = Some (exPage "https://suzi.example/index.html").
Proof.
  apply (cached_entries_never_replaced exOrigin _ exInstalled exPost
           "https://suzi.example/index.html").
  vm_compute. reflexivity.
Defined.

(** X19.  A request that is not GET is never written to a cache:
    [caches.match] finds after it what it found before for every URL.
    When the worker handles it outside a navigation, it is not answered
    from a cache either: the answer is the network's, or a rejection when
    the network fails, also when the URL is cached.  The navigation
    branch does not look at the method: a navigation that is not GET,
    such as a posted form, is answered by the network, and when the
    network fails with the cached index page of the origin if there is
    one. *)
Theorem non_get_cached_only_on_navigation origin net st req :
  String.eqb (rq_method req) "GET" = false ->
  (forall u, cachesMatch (caches (swFetch origin net st req).2) u
             = cachesMatch (caches st) u) /\
  (bypassed (rq_url req) = false -> String.eqb (rq_mode req) "navigate" = false ->
   (swFetch origin net st req).1
   = match net req with Some r => Respond r | None => Rejected end) /\
  (bypassed (rq_url req) = false -> rq_mode req = "navigate" ->
   (swFetch origin net st req).1
   = match net req with
     | Some r => Respond r
     | None => match cachesMatch (caches st) (origin +:+ "/index.html") with
               | Some index => Respond index
               | None => RespondNothing
               end
     end).
Proof.
  intros Hg. unfold swFetch. split; [|split].
  - intros u. destruct (bypassed (rq_url req)); [done|].
    destruct (String.eqb (rq_mode req) "navigate").
    + destruct (net req); [done|].
      now destruct (cachesMatch (caches st) (origin +:+ "/index.html")).
    + rewrite Hg. destruct (net req) as [res|]; [|done]. simpl.
      unfold putAllowed. rewrite Hg. simpl. apply cachesMatch_open.
  - intros Hb Hm. rewrite Hb, Hm, Hg. now destruct (net req).
  - intros Hb Hm. rewrite Hb, Hm, String.eqb_refl. destruct (net req); [done|].
    now destruct (cachesMatch (caches st) (origin +:+ "/index.html")).
Qed.

Lemma non_get_cached_only_on_navigation_witness :
  (swFetch exOrigin offline exInstalled exPost).1 = Rejected /\
  (swFetch exOrigin offline exInstalled exPostNavigation).1
  = Respond (exPage "https://suzi.example/index.html").
Proof.
  split.
  - rewrite (proj1 (proj2 (non_get_cached_only_on_navigation exOrigin offline
                             exInstalled exPost eq_refl))); reflexivity.
  - rewrite (proj2 (proj2 (non_get_cached_only_on_navigation exOrigin offline
                             exInstalled exPostNavigation eq_refl))); reflexivity.
Defined.

(* ================================================================== *)
(** * The service worker: after installation *)
(* ================================================================== *)

Lemma app_inv_head_string (p a b : string) : p +:+ a = p +:+ b -> a = b.
Proof.
  induction p as [|c p IH]; intros H; [exact H|].
  rewrite !app_cons_string in H. injection H as H. now apply IH.
Qed.

Lemma filter_put name u r (cs : CacheStorage) :
  List.filter (fun x => String.eqb x.1 name) (cachePut name u r cs)
  = cachePut name u r (List.filter (fun x => String.eqb x.1 name) cs).
Proof.
  induction cs as [|[n c] cs IH]; simpl; [done|].
  destruct (String.eqb n name) eqn:He; simpl; rewrite He; simpl; now rewrite IH.
Qed.

(** A storage that holds caches of one name only, and at least one. *)
Lemma put_hit name u r (cs : CacheStorage) :
  cs <> [] -> (forall x, In x cs -> x.1 = name) ->
  cachesMatch (cachePut name u r cs) u = Some r.
Proof.
  destruct cs as [|[n c] cs]; [done|]. intros _ Hall.
  pose proof (Hall (n, c) (or_introl eq_refl)) as Hn. simpl in Hn. subst n.
  simpl. rewrite String.eqb_refl. simpl. now rewrite lookup_insert_eq.
Qed.

Lemma put_keeps_shape name u r (cs : CacheStorage) :
  cs <> [] -> (forall x, In x cs -> x.1 = name) ->
  cachePut name u r cs <> [] /\ (forall x, In x (cachePut name u r cs) -> x.1 = name).
Proof.
  intros Hne Hall. split.
  - destruct cs; [done|]. simpl. discriminate.
  - intros x Hx. unfold cachePut in Hx. apply in_map_iff in Hx as (y & <- & Hy).
    destruct (String.eqb y.1 name) eqn:He; simpl; auto.
Qed.

Lemma filter_open_shape name (cs : CacheStorage) :
  let kept := List.filter (fun x => String.eqb x.1 name) (cachesOpen name cs) in
  kept <> [] /\ (forall x, In x kept -> x.1 = name).
Proof.
  intros kept. subst kept. split.
  - pose proof (cachesHas_open name cs) as Hhas. unfold cachesHas in Hhas.
    induction (cachesOpen name cs) as [|x l IH]; simpl in *; [discriminate|].
    destruct (String.eqb x.1 name); [discriminate | now apply IH].
  - intros x Hx. apply filter_In in Hx as [_ Hx]. now apply String.eqb_eq.
Qed.

(** After a successful installation followed by activation, the caches
    hold for each static asset the response the installation got. *)
Lemma installed_assets origin net0 st0 :
  forallb addAllAllowed (map net0 (map (assetRequest origin) STATIC_ASSETS)) = true ->
  (swInstall origin net0 st0).1 = true /\
  forall path,
    In path STATIC_ASSETS ->
    cachesMatch (caches (swActivate (swInstall origin net0 st0).2)) (origin +:+ path)
    = net0 (assetRequest origin path).
Proof.
  intros Hall. unfold swInstall. rewrite Hall. split; [done|].
  unfold swActivate. simpl in *.
  destruct (net0 (assetRequest origin "/")) as [r1|] eqn:E1; [|discriminate].
  destruct (net0 (assetRequest origin "/index.html")) as [r2|] eqn:E2;
    [|simpl in Hall; rewrite andb_false_r in Hall; discriminate].
  destruct (net0 (assetRequest origin "/suzi-profile.png")) as [r3|] eqn:E3;
    [|simpl in Hall; rewrite !andb_false_r in Hall; discriminate].
  simpl. rewrite !filter_put.
  destruct (filter_open_shape CACHE_NAME (caches st0)) as [Hne Hnames].
  set (kept := List.filter (fun x => String.eqb x.1 CACHE_NAME)
                 (cachesOpen CACHE_NAME (caches st0))) in *.
  destruct (put_keeps_shape CACHE_NAME (origin +:+ "/") r1 kept Hne Hnames)
    as [Hne1 Hnames1].
  destruct (put_keeps_shape CACHE_NAME (origin +:+ "/index.html") r2 _ Hne1 Hnames1)
    as [Hne2 Hnames2].
  intros path [<-|[<-|[<-|[]]]].
  - rewrite E1, !cachesMatch_put_other
      by (intros H; apply app_inv_head_string in H; discriminate).
    now apply put_hit.
  - rewrite E2, cachesMatch_put_other
      by (intros H; apply app_inv_head_string in H; discriminate).
    now apply put_hit.
  - rewrite E3. now apply put_hit.
Qed.

(** X20.  Once the worker has been installed with all three static
    assets fetched well and has been activated, a navigation that the
    network cannot serve is answered with the index page fetched at
    installation, whatever page was asked for and whatever older caches
    held. *)
Theorem offline_navigation_serves_installed_index origin net0 st0 index :
  forallb addAllAllowed (map net0 (map (assetRequest origin) STATIC_ASSETS)) = true ->
  net0 (assetRequest origin "/index.html") = Some index ->
  let st := swActivate (swInstall origin net0 st0).2 in
  (swInstall origin net0 st0).1 = true /\
  forall net req,
    bypassed (rq_url req) = false -> rq_mode req = "navigate" -> net req = None ->
    (swFetch origin net st req).1 = Respond index.
Proof.
  intros Hall Hidx st.
  destruct (installed_assets origin net0 st0 Hall) as [Hin Hassets].
  split; [exact Hin|]. intros net req Hb Hm Hnet. subst st.
  unfold swFetch. cbv zeta. rewrite Hb, Hm, String.eqb_refl, Hnet.
  rewrite (Hassets "/index.html"), Hidx; [done|]. simpl. auto.
Qed.

Lemma offline_navigation_serves_installed_index_witness :
  (swFetch exOrigin offline exInstalled
     {| rq_url := "https://suzi.example/settings"; rq_mode := "navigate";
        rq_method := "GET" |}).1
  = Respond (exPage "https://suzi.example/index.html").
Proof.
  apply (proj2 (offline_navigation_serves_installed_index exOrigin exNet exOldStorage
                  (exPage "https://suzi.example/index.html") eq_refl eq_refl));
    first [reflexivity | vm_compute; reflexivity].
Defined.

Lemma noFragment_app u v : noFragment u = u -> noFragment (u +:+ v) = u +:+ noFragment v.
Proof.
  induction u as [|c u IH]; simpl; intros H; [reflexivity|].
  destruct (Ascii.eqb c "#"); [discriminate|]. injection H as H. now rewrite IH.
Qed.

(** The URL of a static asset is its own URL without fragment, the
    origin having none. *)
Lemma noFragment_asset origin path :
  noFragment origin = origin -> In path STATIC_ASSETS ->
  noFragment (origin +:+ path) = origin +:+ path.
Proof.
  intros Ho Hp. rewrite noFragment_app by done.
  destruct Hp as [<-|[<-|[<-|[]]]]; reflexivity.
Qed.

(** X21.  After such an installation and activation, a GET request for
    one of the three static assets, other than a navigation and whatever
    its fragment, is answered with the response fetched at installation,
    without asking the network and without changing the caches, also
    when the network is up and would answer otherwise.  The URL of the
    asset itself is such a request ([noFragment_asset]). *)
Theorem installed_assets_served_from_cache origin net0 st0 path asset :
  forallb addAllAllowed (map net0 (map (assetRequest origin) STATIC_ASSETS)) = true ->
  In path STATIC_ASSETS ->
  net0 (assetRequest origin path) = Some asset ->
  let st := swActivate (swInstall origin net0 st0).2 in
  forall net mode u,
    noFragment u = origin +:+ path ->
    bypassed u = false ->
    String.eqb mode "navigate" = false ->
    swFetch origin net st {| rq_url := u; rq_mode := mode; rq_method := "GET" |}
    = (Respond asset, st).
Proof.
  intros Hall Hpath Hasset st net mode u Hu Hb Hm.
  destruct (installed_assets origin net0 st0 Hall) as [_ Hassets].
  subst st. unfold swFetch. cbv zeta.
  cbn [rq_url rq_mode rq_method]. rewrite Hb, Hm, String.eqb_refl, Hu.
  now rewrite (Hassets path Hpath), Hasset.
Qed.

Lemma installed_assets_served_from_cache_witness :
  swFetch exOrigin offline exInstalled
    {| rq_url := exOrigin +:+ "/suzi-profile.png"; rq_mode := "no-cors";
       rq_method := "GET" |}
  = (Respond (exPage "https://suzi.example/suzi-profile.png"), exInstalled).
Proof.
  apply (installed_assets_served_from_cache exOrigin exNet exOldStorage
           "/suzi-profile.png" (exPage "https://suzi.example/suzi-profile.png"));
    first [reflexivity | vm_compute; reflexivity | simpl; tauto].
Defined.
